(** * Linked-CA bootstrap client and provisioner claims conversion

    A shallow embedding of two Go sources of the certificates repository:

    - package [authority], the linked-CA client: [newLinkedCAClient],
      [getAuthority], [getRootCertificate] and [login], and of its methods
      [StoreCertificateChain], [StoreRenewedCertificate], [GetProvisioners]
      and [GetAdmins] with the serializers they use;
    - package [mgmt], file [authority/mgmt/provisioner.go]:
      [Claims.ToCertificates], [NewProvisionerCtx], [CreateProvisioner],
      [createJWKDetails] and [Provisioner.ToCertificates];
    - package [ca], in the same file: [MgmtClient] with [NewMgmtClient],
      [retryOnError] and its six requests.

    Go strings are [string]; byte slices are [list byte]; a function
    returning [(T, error)] returns [Result T].  Calls into libraries
    outside the repository (encoding/pem, crypto/x509, crypto/sha256,
    net/url, jose, grpc, tlsutil) are fields of the classes [Platform]
    (pure functions) and [World] (calls with an effect), so that every
    statement holds whatever these libraries compute. *)

From Stdlib Require Import String Ascii List Bool Arith ZArith Lia Permutation.
From Stdlib.Strings Require Import Byte.
From Equations Require Import Equations.
From Equations.Prop Require Import Logic.
Import ListNotations.
Open Scope string_scope.
Open Scope list_scope.

Set Implicit Arguments.

(** ** Results and errors *)

(** The message of an error produced by a library outside the repository. *)
Definition Cause := string.

(** One constructor per error the two sources build; wrapped errors keep
    the cause and the formatted arguments. *)
Inductive Error : Type :=
| ErrParsingToken (cause : Cause)                       (* "error parsing token" *)
| ErrInvalidAud                                         (* "error parsing token: invalid aud claim" *)
| ErrInvalidSha                                         (* "error parsing token: invalid sha claim" *)
| ErrInvalidSans                                        (* "error parsing token: invalid sans claim" *)
| ErrLibrary (cause : Cause)                            (* a library error returned as it is *)
| ErrConnecting (endpoint : string) (cause : Cause)     (* "error connecting %s" *)
| ErrGettingRootCertificate (cause : Cause)             (* "error getting root certificate: %w" *)
| ErrParsingCertificate (cause : Cause)                 (* "error parsing certificate: %w" *)
| ErrFingerprintMismatch                                (* "error verifying certificate: SHA256 fingerprint does not match" *)
| ErrCertificateNotFound                                (* "error getting root certificate: certificate not found" *)
| ErrLoggingIn (endpoint : string) (cause : Cause)      (* "error logging in %s" *)
| ErrNotCertificateBundle                               (* "... pemCertificateChain is not a certificate bundle" *)
| ErrParsingLoginResponse (cause : Cause)               (* "error parsing login response" *)
| ErrEmptyChain                                         (* "... pemCertificateChain should not be empty" *)
| ErrParsingPemCertificate (cause : Cause)              (* "error parsing pemCertificate" *)
| ErrParsingDuration (key durStr : string) (cause : Cause). (* "error parsing %s %s from claims" *)

Definition Result (A : Type) : Type := (Error + A)%type.

Definition is_error {A : Type} (r : Result A) : bool :=
  match r with inl _ => true | inr _ => false end.

(** The invalid-audience error. *)
Definition audience_error (e : Error) : bool :=
  match e with
  | ErrInvalidAud => true
  | _ => false
  end.

(** ** Strings and bytes *)

Definition bytes := list byte.

(** [[]byte(s)] *)
Definition bytes_of_string (s : string) : bytes := list_byte_of_string s.

(** [strings.HasPrefix(s, p)] *)
Definition HasPrefix (s p : string) : bool := String.prefix p s.

(** [s[n:]] for [n <= len(s)] *)
Fixpoint slice_from (n : nat) (s : string) : string :=
  match n, s with
  | 0, _ => s
  | S n', String _ s' => slice_from n' s'
  | S _, EmptyString => EmptyString
  end.

Definition in_range (lo hi : ascii) (c : ascii) : bool :=
  Nat.leb (nat_of_ascii lo) (nat_of_ascii c) && Nat.leb (nat_of_ascii c) (nat_of_ascii hi).

(** The character class [[a-fA-F0-9]]. *)
Definition hex_class (c : ascii) : bool :=
  in_range "a"%char "f"%char c || in_range "A"%char "F"%char c
  || in_range "0"%char "9"%char c.

(** The regular expressions the source uses are sequences of a bounded
    repetition of the hex class and of literal characters, anchored at both
    ends. *)
Inductive Atom : Type :=
| HexRun (n : nat)       (* [a-fA-F0-9]{n} *)
| Lit (c : ascii).

Fixpoint eat_hex (n : nat) (s : string) : option string :=
  match n with
  | 0 => Some s
  | S n' =>
      match s with
      | String c s' => if hex_class c then eat_hex n' s' else None
      | EmptyString => None
      end
  end.

(** [regexp.MustCompile("^" atoms "$").MatchString(s)] *)
Fixpoint MatchString (atoms : list Atom) (s : string) : bool :=
  match atoms with
  | [] => match s with EmptyString => true | _ => false end
  | HexRun n :: rest =>
      match eat_hex n s with
      | Some s' => MatchString rest s'
      | None => false
      end
  | Lit c :: rest =>
      match s with
      | String c' s' => Ascii.eqb c c' && MatchString rest s'
      | EmptyString => false
      end
  end.

(** [const uuidPattern =
      "^[a-fA-F0-9]{8}-[a-fA-F0-9]{4}-[a-fA-F0-9]{4}-[a-fA-F0-9]{4}-[a-fA-F0-9]{12}$"] *)
Definition uuidPattern : list Atom :=
  [HexRun 8; Lit "-"%char; HexRun 4; Lit "-"%char; HexRun 4; Lit "-"%char;
   HexRun 4; Lit "-"%char; HexRun 12].

(** ** [getAuthority] *)

(** The loop of [getAuthority]: the first SAN with the prefix
    [urn:smallstep:authority:] whose remainder matches [uuidPattern] is
    returned without the prefix; a SAN failing either test is passed over. *)
Fixpoint getAuthority (sans : list string) : Result string :=
  match sans with
  | [] => inl ErrInvalidSans
  | s :: rest =>
      if HasPrefix s "urn:smallstep:authority:" then
        if MatchString uuidPattern (slice_from 24 s) then inr (slice_from 24 s)
        else getAuthority rest
      else getAuthority rest
  end.

(** A SAN that carries a well-formed authority identifier. *)
Definition authority_san (s : string) : bool :=
  HasPrefix s "urn:smallstep:authority:" && MatchString uuidPattern (slice_from 24 s).

Example getAuthority_ex1 :
  getAuthority ["ca.example.com"; "urn:smallstep:authority:0f8fad5b-d9cb-469f-a165-70867728950e"]
  = inr "0f8fad5b-d9cb-469f-a165-70867728950e".
Proof. reflexivity. Qed.

Example getAuthority_ex2 :
  getAuthority ["urn:smallstep:authority:0f8fad5b-d9cb-469f-a165-70867728950"] = inl ErrInvalidSans.
Proof. reflexivity. Qed.

(** ** Data model of the linked-CA client *)

(** [pem.Block] *)
Record Block : Type := {
  BlockType : string;                    (* Type *)
  Headers : list (string * string);
  Bytes : bytes
}.

(** [linkedCAClaims]: the registered claims the client reads, and the two
    custom ones. *)
Record linkedCAClaims : Type := {
  Audience : list string;
  Subject : string;
  SANs : list string;                    (* json:"sans" *)
  SHA : string                           (* json:"sha" *)
}.

(** [url.URL]; the client reads [Host] only. *)
Record URL : Type := {
  Scheme : string;
  Host : string;
  Path : string
}.

(** [linkedca.LoginRequest] and [linkedca.LoginResponse] *)
Record LoginRequest : Type := {
  AuthorityId : string;
  Token : string;
  PemCertificateRequest : string
}.

Record LoginResponse : Type := {
  PemCertificate : string;
  PemCertificateChain : string
}.

(** A [*x509.CertPool] is a reference into the store of pools. *)
Definition PoolRef := nat.

Inductive Callback : Type :=
| RenewerGetClientCertificate.           (* renewer.GetClientCertificate *)

(** [tls.Config], with the fields the client sets. *)
Record tls_Config : Type := {
  InsecureSkipVerify : bool;
  RootCAs : option PoolRef;
  GetClientCertificate : option Callback
}.

(** [*grpc.ClientConn]: where it was dialled to, and with which credentials. *)
Record ClientConn : Type := {
  conn_target : string;
  conn_config : tls_Config
}.

(** Library functions without effect.  [pem_Decode b] is [None] when
    [pem.Decode] returns a nil block, and the block with the rest of the
    input otherwise; the rest is then a proper suffix of the input, which is
    what makes the loops over it end. *)
Class Platform : Type := {
  x509_Certificate : Type;
  Raw : x509_Certificate -> bytes;
  x509_CertificateRequest : Type;
  csr_Raw : x509_CertificateRequest -> bytes;
  crypto_PrivateKey : Type;
  JSONWebSignature : Type;
  jose_ParseSigned : string -> Cause + JSONWebSignature;
  UnsafeClaimsWithoutVerification : JSONWebSignature -> Cause + linkedCAClaims;
  url_Parse : string -> Cause + URL;
  pem_Decode : bytes -> option (Block * bytes);
  pem_Decode_rest :
    forall b block rest, pem_Decode b = Some (block, rest) -> List.length rest < List.length b;
  pem_EncodeToMemory : Block -> bytes;
  x509_ParseCertificate : bytes -> Cause + x509_Certificate;
  sha256_Sum256 : bytes -> bytes;
  strings_EqualFold : string -> string -> bool
}.

(** [tls.Certificate] *)
Record tls_Certificate `{Platform} : Type := {
  Certificate : list bytes;
  PrivateKey : option crypto_PrivateKey;
  Leaf : option x509_Certificate
}.

(** [x509.CertPool]: the certificates in the order they were added. *)
Definition CertPool `{Platform} : Type := list x509_Certificate.

Definition bytes_eqb (a b : bytes) : bool :=
  if list_eq_dec byte_eq_dec a b then true else false.

(** [CertPool.contains]: a certificate is in the pool when one with the
    same raw bytes is. *)
Definition pool_contains `{Platform} (s : CertPool) (cert : x509_Certificate) : bool :=
  existsb (fun c => bytes_eqb (Raw c) (Raw cert)) s.

(** [CertPool.AddCert] of crypto/x509: a certificate already in the pool
    is not added again. *)
Definition CertPool_AddCert `{Platform} (s : CertPool) (cert : x509_Certificate) : CertPool :=
  if pool_contains s cert then s else s ++ [cert].

(** What the client does to the outside, in the order it does it.  A dial
    records the roots the connection is verified against. *)
Inductive Event `{Platform} : Type :=
| EvGenerateDefaultSigner
| EvCreateCertificateRequest (subject : string) (sans : list string)
| EvDialContext (target : string) (config : tls_Config) (roots : CertPool)
| EvGetRootCertificate (conn : ClientConn) (fingerprint : string)
| EvLogin (conn : ClientConn) (req : LoginRequest)
| EvNewRenewer
| EvDial (target : string) (config : tls_Config).

(** Calls with an effect: key generation, the network and the renewer.  The
    first argument is the number of events so far, so the answer to a call
    may change from one call to the next. *)
Class World `{Platform} : Type := {
  keyutil_GenerateDefaultSigner : nat -> Cause + crypto_PrivateKey;
  x509util_CreateCertificateRequest :
    nat -> string -> list string -> crypto_PrivateKey -> Cause + x509_CertificateRequest;
  grpc_dial_error : nat -> string -> tls_Config -> option Cause;
  majordomo_GetRootCertificate : nat -> ClientConn -> string -> Cause + string;
  majordomo_Login : nat -> ClientConn -> LoginRequest -> Cause + LoginResponse;
  tlsutil_NewRenewer_error : nat -> tls_Certificate -> tls_Config -> option Cause
}.

(** ** State and the monad of the client *)

Record State `{Platform} : Type := {
  pools : list CertPool;                 (* the pools allocated so far *)
  trace : list Event                     (* newest event last *)
}.

Definition M `{Platform} (A : Type) : Type := State -> Result A * State.

Definition ret `{Platform} {A : Type} (a : A) : M A := fun s => (inr a, s).

Definition fail `{Platform} {A : Type} (e : Error) : M A := fun s => (inl e, s).

Definition bind `{Platform} {A B : Type} (m : M A) (k : A -> M B) : M B :=
  fun s => match m s with
           | (inl e, s') => (inl e, s')
           | (inr a, s') => k a s'
           end.

Notation "x <- m ;; k" := (bind m (fun x => k))
  (at level 61, m at next level, right associativity).
Notation "' pat <- m ;; k" := (bind m (fun x => match x with pat => k end))
  (at level 61, pat pattern, m at next level, right associativity).
Notation "m ;;; k" := (bind m (fun _ => k))
  (at level 61, right associativity).

(** A pure result inside the monad. *)
Definition lift `{Platform} {A : Type} (r : Result A) : M A := fun s => (r, s).

(** [errors.Wrap] and its kin: a library error under the client's message. *)
Definition wrap {A : Type} (msg : Cause -> Error) (r : Cause + A) : Result A :=
  match r with
  | inl cause => inl (msg cause)
  | inr a => inr a
  end.

Definition clock `{Platform} : M nat := fun s => (inr (List.length (trace s)), s).

Definition emit `{Platform} (ev : Event) : M unit :=
  fun s => (inr tt, {| pools := pools s; trace := trace s ++ [ev] |}).

Definition readPool `{Platform} (r : PoolRef) : M CertPool :=
  fun s => (inr (nth r (pools s) []), s).

Fixpoint update_nth {A : Type} (n : nat) (f : A -> A) (l : list A) : list A :=
  match l, n with
  | [], _ => []
  | x :: l', 0 => f x :: l'
  | x :: l', S n' => x :: update_nth n' f l'
  end.

(** [x509.NewCertPool()] *)
Definition NewCertPool `{Platform} : M PoolRef :=
  fun s => (inr (List.length (pools s)), {| pools := pools s ++ [[]]; trace := trace s |}).

(** [pool.AddCert(cert)] through the reference. *)
Definition AddCert `{Platform} (r : PoolRef) (cert : x509_Certificate) : M unit :=
  fun s => (inr tt, {| pools := update_nth r (fun p => CertPool_AddCert p cert) (pools s);
                       trace := trace s |}).

(** ** Library calls of the client *)

(** [hex.EncodeToString] *)
Definition hextable : string := "0123456789abcdef".

Definition hex_digit (n : nat) : ascii :=
  match String.get n hextable with
  | Some c => c
  | None => "0"%char
  end.

Definition hex_EncodeToString (b : bytes) : string :=
  fold_right
    (fun x acc =>
       String (hex_digit (Byte.to_nat x / 16)) (String (hex_digit (Byte.to_nat x mod 16)) acc))
    EmptyString b.

(** [v, err := f(...); if err != nil { return nil, msg(err) }] *)
Definition call `{Platform} {A : Type} (m : M (Cause + A)) (msg : Cause -> Error) : M A :=
  r <- m ;; lift (wrap msg r).

(** The roots a connection with [config] is verified against. *)
Definition roots_of `{Platform} (config : tls_Config) (s : State) : CertPool :=
  match RootCAs config with
  | Some r => nth r (pools s) []
  | None => []
  end.

(** [grpc.DialContext(ctx, target, grpc.WithTransportCredentials(credentials.NewTLS(config)))] *)
Definition grpc_DialContext `{World} (target : string) (config : tls_Config)
  : M (Cause + ClientConn) :=
  fun s =>
    (inr match grpc_dial_error (List.length (trace s)) target config with
         | Some cause => inl cause
         | None => inr {| conn_target := target; conn_config := config |}
         end,
     {| pools := pools s; trace := trace s ++ [EvDialContext target config (roots_of config s)] |}).

(** [grpc.Dial(target, grpc.WithTransportCredentials(credentials.NewTLS(config)))] *)
Definition grpc_Dial `{World} (target : string) (config : tls_Config) : M (Cause + ClientConn) :=
  fun s =>
    (inr match grpc_dial_error (List.length (trace s)) target config with
         | Some cause => inl cause
         | None => inr {| conn_target := target; conn_config := config |}
         end,
     {| pools := pools s; trace := trace s ++ [EvDial target config] |}).

(** [linkedca.NewMajordomoClient(conn).GetRootCertificate(ctx, &{Fingerprint})];
    the answer is the response's [PemCertificate]. *)
Definition client_GetRootCertificate `{World} (conn : ClientConn) (fingerprint : string)
  : M (Cause + string) :=
  fun s =>
    (inr (majordomo_GetRootCertificate (List.length (trace s)) conn fingerprint),
     {| pools := pools s; trace := trace s ++ [EvGetRootCertificate conn fingerprint] |}).

(** [linkedca.NewMajordomoClient(conn).Login(ctx, req)] *)
Definition client_Login `{World} (conn : ClientConn) (req : LoginRequest)
  : M (Cause + LoginResponse) :=
  fun s =>
    (inr (majordomo_Login (List.length (trace s)) conn req),
     {| pools := pools s; trace := trace s ++ [EvLogin conn req] |}).

(** [keyutil.GenerateDefaultSigner()] *)
Definition GenerateDefaultSigner `{World} : M (Cause + crypto_PrivateKey) :=
  fun s =>
    (inr (keyutil_GenerateDefaultSigner (List.length (trace s))),
     {| pools := pools s; trace := trace s ++ [EvGenerateDefaultSigner] |}).

(** [x509util.CreateCertificateRequest(subject, sans, signer)] *)
Definition CreateCertificateRequest `{World} (subject : string) (sans : list string)
  (signer : crypto_PrivateKey) : M (Cause + x509_CertificateRequest) :=
  fun s =>
    (inr (x509util_CreateCertificateRequest (List.length (trace s)) subject sans signer),
     {| pools := pools s; trace := trace s ++ [EvCreateCertificateRequest subject sans] |}).

(** ** [getRootCertificate] *)

Section Client.
Context {P : Platform} {W : World}.

(** The loop of [getRootCertificate] over the response body [b]. *)
Equations scanRootCertificate (fingerprint : string) (b : bytes)
  : Result x509_Certificate by wf (List.length b) lt :=
  scanRootCertificate fingerprint [] := inl ErrCertificateNotFound;
  scanRootCertificate fingerprint (x :: b') with inspect (pem_Decode (x :: b')) := {
    | exist _ None _ := inl ErrCertificateNotFound;
    | exist _ (Some (block, rest)) Hd
        with negb (BlockType block =? "CERTIFICATE")%string
             || negb (Nat.eqb (List.length (Headers block)) 0) := {
        | true := scanRootCertificate fingerprint rest;
        | false with x509_ParseCertificate (Bytes block) := {
            | inl cause := inl (ErrParsingCertificate cause);
            | inr cert
                with negb (strings_EqualFold fingerprint
                             (hex_EncodeToString (sha256_Sum256 (Raw cert)))) := {
                | true := inl ErrFingerprintMismatch;
                | false := inr cert } } } }.
Next Obligation.
  match goal with
  | Hd : pem_Decode _ = Some _ |- _ => apply pem_Decode_rest in Hd; simpl in Hd; lia
  end.
Qed.

Definition getRootCertificate (endpoint fingerprint : string) : M x509_Certificate :=
  conn <- call (grpc_DialContext endpoint
                  {| InsecureSkipVerify := true; RootCAs := None; GetClientCertificate := None |})
               (ErrConnecting endpoint) ;;
  resp <- call (client_GetRootCertificate conn fingerprint) ErrGettingRootCertificate ;;
  lift (scanRootCertificate fingerprint (bytes_of_string resp)).

(** ** [login] *)

(** The first loop of [login]: every block of [pemCertificateChain] has to
    be a certificate, and is parsed and appended to [bundle]. *)
Equations parseBundle (rest : bytes) (bundle : list x509_Certificate)
  : Result (list x509_Certificate) by wf (List.length rest) lt :=
  parseBundle rest bundle with inspect (pem_Decode rest) := {
    | exist _ None _ := inr bundle;
    | exist _ (Some (block, rest')) Hd
        with negb (BlockType block =? "CERTIFICATE")%string := {
        | true := inl ErrNotCertificateBundle;
        | false with x509_ParseCertificate (Bytes block) := {
            | inl cause := inl (ErrParsingLoginResponse cause);
            | inr crt := parseBundle rest' (bundle ++ [crt]) } } }.
Next Obligation.
  match goal with
  | Hd : pem_Decode _ = Some _ |- _ => apply pem_Decode_rest in Hd; exact Hd
  end.
Qed.

(** The second loop of [login]: every certificate block of [pemCertificate]
    is parsed, its bytes appended to [cert.Certificate] and the parsed
    certificate stored in [cert.Leaf]; other blocks are passed over. *)
Equations parseLeaf (rest : bytes) (cert : tls_Certificate)
  : Result tls_Certificate by wf (List.length rest) lt :=
  parseLeaf rest cert with inspect (pem_Decode rest) := {
    | exist _ None _ := inr cert;
    | exist _ (Some (block, rest')) Hd
        with (BlockType block =? "CERTIFICATE")%string := {
        | true with x509_ParseCertificate (Bytes block) := {
            | inl cause := inl (ErrParsingPemCertificate cause);
            | inr leaf :=
                parseLeaf rest'
                  {| Certificate := Certificate cert ++ [Bytes block];
                     PrivateKey := PrivateKey cert;
                     Leaf := Some leaf |} };
        | false := parseLeaf rest' cert } }.
Next Obligation.
  match goal with
  | Hd : pem_Decode _ = Some _ |- _ => apply pem_Decode_rest in Hd; exact Hd
  end.
Qed.
Next Obligation.
  match goal with
  | Hd : pem_Decode _ = Some _ |- _ => apply pem_Decode_rest in Hd; exact Hd
  end.
Qed.

(** The third loop of [login]:
    [for i := 0; i < last; i++ { cert.Certificate = append(cert.Certificate, bundle[i].Raw) }] *)
Definition addIntermediates (bundle : list x509_Certificate) (last : nat)
  (cert : tls_Certificate) : tls_Certificate :=
  fold_left
    (fun c crt =>
       {| Certificate := Certificate c ++ [Raw crt];
          PrivateKey := PrivateKey c;
          Leaf := Leaf c |})
    (firstn last bundle) cert.

(** [login].  After the test of [len(bundle) == 0] the bundle has a first
    entry, so [bundle[last]] is an entry of it. *)
Definition login (authority token : string) (csr : x509_CertificateRequest)
  (signer : crypto_PrivateKey) (endpoint : string) (rootCAs : PoolRef)
  : M (tls_Certificate * tls_Config) :=
  conn <- call (grpc_DialContext endpoint
                  {| InsecureSkipVerify := false; RootCAs := Some rootCAs;
                     GetClientCertificate := None |})
               (ErrConnecting endpoint) ;;
  resp <- call (client_Login conn
                  {| AuthorityId := authority;
                     Token := token;
                     PemCertificateRequest :=
                       string_of_list_byte
                         (pem_EncodeToMemory
                            {| BlockType := "CERTIFICATE REQUEST"; Headers := [];
                               Bytes := csr_Raw csr |}) |})
               (ErrLoggingIn endpoint) ;;
  bundle <- lift (parseBundle (bytes_of_string (PemCertificateChain resp)) []) ;;
  match bundle with
  | [] => fail ErrEmptyChain
  | first :: _ =>
      cert <- lift (parseLeaf (bytes_of_string (PemCertificate resp))
                      {| Certificate := []; PrivateKey := Some signer; Leaf := None |}) ;;
      let last := List.length bundle - 1 in
      let cert := addIntermediates bundle last cert in
      AddCert rootCAs (nth last bundle first) ;;;
      ret (cert,
           {| InsecureSkipVerify := false; RootCAs := Some rootCAs;
              GetClientCertificate := None |})
  end.

(** ** [newLinkedCAClient] *)

(** [tlsutil.Renewer], as far as the client is concerned: the certificate it
    starts from and the function it renews with. *)
Record Renewer : Type := {
  renewer_cert : tls_Certificate;
  RenewFunc : M (tls_Certificate * tls_Config)
}.

(** [tlsutil.NewRenewer(cert, config, fn)] *)
Definition NewRenewer (cert : tls_Certificate) (config : tls_Config)
  (fn : M (tls_Certificate * tls_Config)) : M (Cause + Renewer) :=
  fun s =>
    (inr match tlsutil_NewRenewer_error (List.length (trace s)) cert config with
         | Some cause => inl cause
         | None => inr {| renewer_cert := cert; RenewFunc := fn |}
         end,
     {| pools := pools s; trace := trace s ++ [EvNewRenewer] |}).

Record linkedCaClient : Type := {
  renewer : Renewer;
  client : ClientConn;                   (* linkedca.NewMajordomoClient(conn) *)
  authorityID : string
}.

Definition newLinkedCAClient (token : string) : M linkedCaClient :=
  tok <- lift (wrap ErrParsingToken (jose_ParseSigned token)) ;;
  claims <- lift (wrap ErrParsingToken (UnsafeClaimsWithoutVerification tok)) ;;
  (* Validate claims *)
  if negb (Nat.eqb (List.length (Audience claims)) 1) then fail ErrInvalidAud else
  if (SHA claims =? "")%string then fail ErrInvalidSha else
  (* Get linkedCA endpoint from audience. *)
  u <- lift (wrap (fun _ => ErrInvalidAud) (url_Parse (nth 0 (Audience claims) ""))) ;;
  (* Get authority from SANs *)
  authority <- lift (getAuthority (SANs claims)) ;;
  (* Create csr to login with *)
  signer <- call GenerateDefaultSigner ErrLibrary ;;
  csr <- call (CreateCertificateRequest (Subject claims) (SANs claims) signer) ErrLibrary ;;
  (* Get and verify root certificate *)
  root <- getRootCertificate (Host u) (SHA claims) ;;
  pool <- NewCertPool ;;
  AddCert pool root ;;;
  (* Login with majordomo and get certificates *)
  '(cert, tlsConfig) <- login authority token csr signer (Host u) pool ;;
  (* Start TLS renewer and set the GetClientCertificate callback to it. *)
  renewer <- call (NewRenewer cert tlsConfig (login authority token csr signer (Host u) pool))
                  ErrLibrary ;;
  let tlsConfig :=
    {| InsecureSkipVerify := InsecureSkipVerify tlsConfig;
       RootCAs := RootCAs tlsConfig;
       GetClientCertificate := Some RenewerGetClientCertificate |} in
  (* Start mTLS client *)
  conn <- call (grpc_Dial (Host u) tlsConfig) (ErrConnecting (Host u)) ;;
  ret {| renewer := renewer; client := conn; authorityID := authority |}.

(** ** The block sequence of a PEM text *)

(** The blocks that successive calls of [pem.Decode] yield, each on the rest
    the call before left, up to the first call that yields none. *)
Equations pem_blocks (b : bytes) : list Block by wf (List.length b) lt :=
  pem_blocks b with inspect (pem_Decode b) := {
    | exist _ None _ := [];
    | exist _ (Some (block, rest)) Hd := block :: pem_blocks rest }.
Next Obligation.
  match goal with
  | Hd : pem_Decode _ = Some _ |- _ => apply pem_Decode_rest in Hd; exact Hd
  end.
Qed.

(** A block [getRootCertificate] accepts: of type CERTIFICATE, no headers. *)
Definition root_block (block : Block) : bool :=
  (BlockType block =? "CERTIFICATE")%string && Nat.eqb (List.length (Headers block)) 0.

(** The fingerprint of a certificate: the hex SHA-256 digest of its raw bytes. *)
Definition fingerprint_of (cert : x509_Certificate) : string :=
  hex_EncodeToString (sha256_Sum256 (Raw cert)).

(** What becomes of the block [getRootCertificate] selects. *)
Definition verifyRoot (fingerprint : string) (block : Block) : Result x509_Certificate :=
  match x509_ParseCertificate (Bytes block) with
  | inl cause => inl (ErrParsingCertificate cause)
  | inr cert =>
      if strings_EqualFold fingerprint (fingerprint_of cert) then inr cert
      else inl ErrFingerprintMismatch
  end.

(** The certificate blocks of a list of blocks. *)
Definition certificate_block (block : Block) : bool :=
  (BlockType block =? "CERTIFICATE")%string.

(** The first loop of [login], over the blocks it meets. *)
Fixpoint bundle_of_blocks (blocks : list Block) (bundle : list x509_Certificate)
  : Result (list x509_Certificate) :=
  match blocks with
  | [] => inr bundle
  | block :: blocks' =>
      if certificate_block block then
        match x509_ParseCertificate (Bytes block) with
        | inl cause => inl (ErrParsingLoginResponse cause)
        | inr crt => bundle_of_blocks blocks' (bundle ++ [crt])
        end
      else inl ErrNotCertificateBundle
  end.


(** The second loop of [login], over the blocks it meets. *)
Fixpoint leaf_of_blocks (blocks : list Block) (cert : tls_Certificate) : Result tls_Certificate :=
  match blocks with
  | [] => inr cert
  | block :: blocks' =>
      if certificate_block block then
        match x509_ParseCertificate (Bytes block) with
        | inl cause => inl (ErrParsingPemCertificate cause)
        | inr leaf =>
            leaf_of_blocks blocks'
              {| Certificate := Certificate cert ++ [Bytes block];
                 PrivateKey := PrivateKey cert;
                 Leaf := Some leaf |}
        end
      else leaf_of_blocks blocks' cert
  end.

(** The configuration [login] dials with and returns, and its request. *)
Definition login_config (rootCAs : PoolRef) : tls_Config :=
  {| InsecureSkipVerify := false; RootCAs := Some rootCAs; GetClientCertificate := None |}.

Definition login_request (authority token : string) (csr : x509_CertificateRequest)
  : LoginRequest :=
  {| AuthorityId := authority;
     Token := token;
     PemCertificateRequest :=
       string_of_list_byte
         (pem_EncodeToMemory
            {| BlockType := "CERTIFICATE REQUEST"; Headers := []; Bytes := csr_Raw csr |}) |}.

(** In state [s] the dial of [login] goes through and the authority answers
    the login request with [resp]. *)
Definition login_answer (authority token : string) (csr : x509_CertificateRequest)
  (endpoint : string) (rootCAs : PoolRef) (s : State) (resp : LoginResponse) : Prop :=
  grpc_dial_error (List.length (trace s)) endpoint (login_config rootCAs) = None
  /\ majordomo_Login (S (List.length (trace s)))
       {| conn_target := endpoint; conn_config := login_config rootCAs |}
       (login_request authority token csr) = inr resp.

(** The configuration [getRootCertificate] dials with. *)
Definition insecure_config : tls_Config :=
  {| InsecureSkipVerify := true; RootCAs := None; GetClientCertificate := None |}.

(** In state [s] the dial of [getRootCertificate] goes through and the
    authority answers the request for the root with the PEM text [body]. *)
Definition root_answer (endpoint fingerprint : string) (s : State) (body : string) : Prop :=
  grpc_dial_error (List.length (trace s)) endpoint insecure_config = None
  /\ majordomo_GetRootCertificate (S (List.length (trace s)))
       {| conn_target := endpoint; conn_config := insecure_config |} fingerprint = inr body.

(** The pool behind a reference. *)
Definition pool_at (r : PoolRef) (s : State) : CertPool := nth r (pools s) [].

(** What [login] makes of the response [resp], over the blocks of its two
    PEM fields. *)
Definition assemble (signer : crypto_PrivateKey) (rootCAs : PoolRef) (resp : LoginResponse)
  : M (tls_Certificate * tls_Config) :=
  fun s =>
    match bundle_of_blocks (pem_blocks (bytes_of_string (PemCertificateChain resp))) [] with
    | inl err => (inl err, s)
    | inr [] => (inl ErrEmptyChain, s)
    | inr (first :: more) =>
        let bundle := first :: more in
        match leaf_of_blocks (pem_blocks (bytes_of_string (PemCertificate resp)))
                {| Certificate := []; PrivateKey := Some signer; Leaf := None |} with
        | inl err => (inl err, s)
        | inr cert =>
            (inr ({| Certificate := Certificate cert ++ map Raw (removelast bundle);
                     PrivateKey := PrivateKey cert;
                     Leaf := Leaf cert |},
                  login_config rootCAs),
             {| pools := update_nth rootCAs (fun p => CertPool_AddCert p (last bundle first))
                           (pools s);
                trace := trace s |})
        end
    end.

(** The token decodes, with claims that pass the validation of
    [newLinkedCAClient], and its audience parses to the URL [u]. *)
Definition token_claims (token : string) (claims : linkedCAClaims) (u : URL) : Prop :=
  exists jws,
    jose_ParseSigned token = inr jws
    /\ UnsafeClaimsWithoutVerification jws = inr claims
    /\ List.length (Audience claims) = 1
    /\ SHA claims <> ""
    /\ url_Parse (nth 0 (Audience claims) "") = inr u.

(** In state [s] the key is generated and the request created. *)
Definition csr_created (claims : linkedCAClaims) (s : State) (signer : crypto_PrivateKey)
  (csr : x509_CertificateRequest) : Prop :=
  keyutil_GenerateDefaultSigner (List.length (trace s)) = inr signer
  /\ x509util_CreateCertificateRequest (S (List.length (trace s)))
       (Subject claims) (SANs claims) signer = inr csr.

(** The state after these two calls. *)
Definition after_csr (claims : linkedCAClaims) (s : State) : State :=
  {| pools := pools s;
     trace := (trace s ++ [EvGenerateDefaultSigner])
              ++ [EvCreateCertificateRequest (Subject claims) (SANs claims)] |}.

(** The state after [pool := x509.NewCertPool(); pool.AddCert(root)]; the
    new pool is behind the reference [List.length (pools s)]. *)
Definition with_pool (root : x509_Certificate) (s : State) : State :=
  {| pools := pools s ++ [[root]]; trace := trace s |}.

(** The events of a client that exists: the renewer and the channel. *)
Definition client_event (ev : Event) : bool :=
  match ev with
  | EvNewRenewer => true
  | EvDial _ _ => true
  | _ => false
  end.

(** The events of fresh key material. *)
Definition key_event (ev : Event) : bool :=
  match ev with
  | EvGenerateDefaultSigner => true
  | EvCreateCertificateRequest _ _ => true
  | _ => false
  end.

(** [s1] continues [s] with events none of which satisfies [p]. *)
Definition continues_without (p : Event -> bool) (s s1 : State) : Prop :=
  exists evs, trace s1 = trace s ++ evs /\ forallb (fun ev => negb (p ev)) evs = true.

(** The last steps of [newLinkedCAClient], from the renewer on, with the
    values the steps before them computed. *)
Definition start_client (authority token : string) (csr : x509_CertificateRequest)
  (signer : crypto_PrivateKey) (host : string) (pool : PoolRef)
  (cert : tls_Certificate) (tlsConfig : tls_Config) : M linkedCaClient :=
  renewer <- call (NewRenewer cert tlsConfig (login authority token csr signer host pool))
                  ErrLibrary ;;
  let tlsConfig :=
    {| InsecureSkipVerify := InsecureSkipVerify tlsConfig;
       RootCAs := RootCAs tlsConfig;
       GetClientCertificate := Some RenewerGetClientCertificate |} in
  conn <- call (grpc_Dial host tlsConfig) (ErrConnecting host) ;;
  ret {| renewer := renewer; client := conn; authorityID := authority |}.

(** One of the four stages before the client is built fails: the token does
    not give valid claims; or the SANs carry no authority; or the fetch of
    the root fails; or the first login fails.  Each stage is run in the
    state the stages before it leave. *)
Definition bootstrap_fails (token : string) (s : State) : Prop :=
  (forall claims u, ~ token_claims token claims u)
  \/ (exists claims u,
        token_claims token claims u
        /\ is_error (getAuthority (SANs claims)) = true)
  \/ (exists claims u authority signer csr,
        token_claims token claims u
        /\ getAuthority (SANs claims) = inr authority
        /\ csr_created claims s signer csr
        /\ is_error (fst (getRootCertificate (Host u) (SHA claims) (after_csr claims s)))
           = true)
  \/ (exists claims u authority signer csr root s3,
        token_claims token claims u
        /\ getAuthority (SANs claims) = inr authority
        /\ csr_created claims s signer csr
        /\ getRootCertificate (Host u) (SHA claims) (after_csr claims s) = (inr root, s3)
        /\ is_error (fst (login authority token csr signer (Host u)
                            (List.length (pools s3)) (with_pool root s3))) = true).

End Client.

(** ** Package mgmt: [Claims.ToCertificates] *)

(** The claims types are declared outside [provisioner.go]; the records
    below have the fields [ToCertificates] reads and writes. *)
Record ClaimDurations : Type := {
  Min : string;
  Max : string;
  Default : string
}.

Record X509Claims : Type := {
  Durations : ClaimDurations
}.

Record SSHClaims : Type := {
  Enabled : bool;
  UserDurations : ClaimDurations;
  HostDurations : ClaimDurations
}.

Record Claims : Type := {
  X509 : X509Claims;
  SSH : SSHClaims;
  DisableRenewal : bool
}.

(** Package [provisioner] of the repository: its [Claims], over the type of
    [provisioner.Duration].  A pointer field is an [option]. *)
Module provisioner.

Record Claims (Duration : Type) : Type := {
  MinTLSDur : option Duration;
  MaxTLSDur : option Duration;
  DefaultTLSDur : option Duration;
  DisableRenewal : option bool;
  MinUserSSHDur : option Duration;
  MaxUserSSHDur : option Duration;
  DefaultUserSSHDur : option Duration;
  MinHostSSHDur : option Duration;
  MaxHostSSHDur : option Duration;
  DefaultHostSSHDur : option Duration;
  EnableSSHCA : option bool
}.

End provisioner.

(** The value type of the map [durs]. *)
Record durEntry (Duration : Type) : Type := {
  durStr : string;
  dur : option Duration
}.

Arguments Build_durEntry {Duration} _ _.

(** [durs[k]]: the value stored under [k], the zero value when there is none. *)
Definition map_index {Duration : Type} (durs : list (string * durEntry Duration)) (k : string)
  : durEntry Duration :=
  match find (fun kv => (fst kv =? k)%string) durs with
  | Some kv => snd kv
  | None => {| durStr := ""; dur := None |}
  end.

(** [for k, v := range durs { v.dur, err = provisioner.NewDuration(v.durStr); ... }],
    visiting the keys in [order].  [v] is a copy of the map value: the
    assignment to [v.dur] changes the copy, and [durs] stays as it was. *)
Fixpoint rangeDurs {Duration : Type} (NewDuration : string -> Cause + Duration)
  (durs : list (string * durEntry Duration)) (order : list string) : option Error :=
  match order with
  | [] => None
  | k :: ks =>
      let v := map_index durs k in
      match NewDuration (durStr v) with
      | inl cause => Some (ErrParsingDuration k (durStr v) cause)
      | inr d =>
          let v := {| durStr := durStr v; dur := Some d |} in
          rangeDurs NewDuration durs ks
      end
  end.

(** The keys of [durs], in the order of the map literal. *)
Definition durKeys : list string :=
  ["minTLSDur"; "maxTLSDur"; "defaultTLSDur";
   "minSSHUserDur"; "maxSSHUserDur"; "defaultSSHUserDur";
   "minSSHHostDur"; "maxSSHHostDur"; "defaultSSHHostDur"].

(** [(c *Claims) ToCertificates()].  Go leaves the order in which [range]
    visits a map open: [order] is that order, a permutation of [durKeys]. *)
Definition ToCertificates {Duration : Type} (NewDuration : string -> Cause + Duration)
  (order : list string) (c : Claims) : Result (provisioner.Claims Duration) :=
  let durs : list (string * durEntry Duration) :=
    [("minTLSDur", {| durStr := Min (Durations (X509 c)); dur := None |});
     ("maxTLSDur", {| durStr := Max (Durations (X509 c)); dur := None |});
     ("defaultTLSDur", {| durStr := Default (Durations (X509 c)); dur := None |});
     ("minSSHUserDur", {| durStr := Min (UserDurations (SSH c)); dur := None |});
     ("maxSSHUserDur", {| durStr := Max (UserDurations (SSH c)); dur := None |});
     ("defaultSSHUserDur", {| durStr := Default (UserDurations (SSH c)); dur := None |});
     ("minSSHHostDur", {| durStr := Min (HostDurations (SSH c)); dur := None |});
     ("maxSSHHostDur", {| durStr := Max (HostDurations (SSH c)); dur := None |});
     ("defaultSSHHostDur", {| durStr := Default (HostDurations (SSH c)); dur := None |})] in
  match rangeDurs NewDuration durs order with
  | Some err => inl err
  | None =>
      inr {| provisioner.MinTLSDur := dur (map_index durs "minTLSDur");
             provisioner.MaxTLSDur := dur (map_index durs "maxTLSDur");
             provisioner.DefaultTLSDur := dur (map_index durs "defaultTLSDur");
             provisioner.DisableRenewal := Some (DisableRenewal c);
             provisioner.MinUserSSHDur := dur (map_index durs "minSSHUserDur");
             provisioner.MaxUserSSHDur := dur (map_index durs "maxSSHUserDur");
             provisioner.DefaultUserSSHDur := dur (map_index durs "defaultSSHUserDur");
             provisioner.MinHostSSHDur := dur (map_index durs "minSSHHostDur");
             provisioner.MaxHostSSHDur := dur (map_index durs "maxSSHHostDur");
             provisioner.DefaultHostSSHDur := dur (map_index durs "defaultSSHHostDur");
             provisioner.EnableSSHCA := Some (Enabled (SSH c)) |}
  end.

(** The nine duration strings of a claims value. *)
Definition durationStrings (c : Claims) : list string :=
  [Min (Durations (X509 c)); Max (Durations (X509 c)); Default (Durations (X509 c));
   Min (UserDurations (SSH c)); Max (UserDurations (SSH c)); Default (UserDurations (SSH c));
   Min (HostDurations (SSH c)); Max (HostDurations (SSH c)); Default (HostDurations (SSH c))].

(** * A concrete platform

    An instance of [Platform] and of [World] on which the client runs by
    evaluation.  PEM armour, base64 and case folding of ASCII follow the
    libraries on the texts used below (one body line per block, no block
    headers); certificates, keys, digests and tokens are stand-ins. *)

Module Sample.

(** *** Base64, standard alphabet with padding *)

Definition b64_alphabet : bytes :=
  list_byte_of_string "ABCDEFGHIJKLMNOPQRSTUVWXYZabcdefghijklmnopqrstuvwxyz0123456789+/".

Definition b64_char (n : nat) : byte := nth n b64_alphabet x00.

Definition b64_value (c : byte) : option nat :=
  let n := Byte.to_nat c in
  if Nat.leb 65 n && Nat.leb n 90 then Some (n - 65)
  else if Nat.leb 97 n && Nat.leb n 122 then Some (n - 71)
  else if Nat.leb 48 n && Nat.leb n 57 then Some (n + 4)
  else if Nat.eqb n 43 then Some 62
  else if Nat.eqb n 47 then Some 63
  else None.

Definition byte_of (n : nat) : byte :=
  match Byte.of_nat (n mod 256) with
  | Some b => b
  | None => x00
  end.

Fixpoint b64_encode (b : bytes) : bytes :=
  match b with
  | [] => []
  | [x] =>
      let n := Byte.to_nat x in
      [b64_char (n / 4); b64_char (n mod 4 * 16); x3d; x3d]
  | [x; y] =>
      let n := Byte.to_nat x in
      let m := Byte.to_nat y in
      [b64_char (n / 4); b64_char (n mod 4 * 16 + m / 16); b64_char (m mod 16 * 4); x3d]
  | x :: y :: z :: rest =>
      let n := Byte.to_nat x in
      let m := Byte.to_nat y in
      let k := Byte.to_nat z in
      b64_char (n / 4) :: b64_char (n mod 4 * 16 + m / 16)
        :: b64_char (m mod 16 * 4 + k / 64) :: b64_char (k mod 64) :: b64_encode rest
  end.

Fixpoint b64_decode (b : bytes) : option bytes :=
  match b with
  | [] => Some []
  | c1 :: c2 :: c3 :: c4 :: rest =>
      match b64_value c1, b64_value c2 with
      | Some v1, Some v2 =>
          let o1 := byte_of (v1 * 4 + v2 / 16) in
          if Byte.eqb c3 x3d then
            if Byte.eqb c4 x3d then match rest with [] => Some [o1] | _ => None end
            else None
          else
            match b64_value c3 with
            | Some v3 =>
                let o2 := byte_of (v2 mod 16 * 16 + v3 / 4) in
                if Byte.eqb c4 x3d then match rest with [] => Some [o1; o2] | _ => None end
                else
                  match b64_value c4, b64_decode rest with
                  | Some v4, Some tail => Some (o1 :: o2 :: byte_of (v3 mod 4 * 64 + v4) :: tail)
                  | _, _ => None
                  end
            | None => None
            end
      | _, _ => None
      end
  | _ => None
  end.

Example b64_roundtrip :
  b64_decode (b64_encode (list_byte_of_string "any carnal pleas"))
  = Some (list_byte_of_string "any carnal pleas")
  /\ string_of_list_byte (b64_encode (list_byte_of_string "any carnal pleas"))
     = "YW55IGNhcm5hbCBwbGVhcw==".
Proof. split; reflexivity. Qed.

(** *** PEM armour *)

(** The line up to the first newline, and what follows the newline. *)
Fixpoint cut_line (b : bytes) : option (bytes * bytes) :=
  match b with
  | [] => None
  | c :: b' =>
      if Byte.eqb c x0a then Some ([], b')
      else match cut_line b' with
           | Some (line, rest) => Some (c :: line, rest)
           | None => None
           end
  end.

Fixpoint strip_prefix (p b : bytes) : option bytes :=
  match p, b with
  | [], _ => Some b
  | x :: p', y :: b' => if Byte.eqb x y then strip_prefix p' b' else None
  | _ :: _, [] => None
  end.

Definition strip_suffix (p b : bytes) : option bytes :=
  option_map (@rev byte) (strip_prefix (rev p) (rev b)).

Definition armour (word typ : string) : bytes :=
  list_byte_of_string ("-----" ++ word ++ " " ++ typ ++ "-----")%string.

(** A block of three lines: BEGIN, one line of base64, END. *)
Definition decode (b : bytes) : option (Block * bytes) :=
  match cut_line b with
  | Some (l1, r1) =>
      match strip_prefix (list_byte_of_string "-----BEGIN ") l1 with
      | Some l1' =>
          match strip_suffix (list_byte_of_string "-----") l1' with
          | Some typ =>
              match cut_line r1 with
              | Some (l2, r2) =>
                  match b64_decode l2, cut_line r2 with
                  | Some body, Some (l3, r3) =>
                      if bytes_eqb l3 (armour "END" (string_of_list_byte typ)) then
                        Some ({| BlockType := string_of_list_byte typ; Headers := [];
                                 Bytes := body |}, r3)
                      else None
                  | _, _ => None
                  end
              | None => None
              end
          | None => None
          end
      | None => None
      end
  | None => None
  end.

Definition encode (block : Block) : bytes :=
  armour "BEGIN" (BlockType block) ++ [x0a]
  ++ b64_encode (Bytes block) ++ [x0a]
  ++ armour "END" (BlockType block) ++ [x0a].

(** The PEM text of one block. *)
Definition pem (typ : string) (body : bytes) : string :=
  string_of_list_byte (encode {| BlockType := typ; Headers := []; Bytes := body |}).

Example pem_text :
  pem "CERTIFICATE" [x30; x03; x02; x01; x01]
  = String.concat (String "010"%char EmptyString)
      ["-----BEGIN CERTIFICATE-----"; "MAMCAQE="; "-----END CERTIFICATE-----"; ""].
Proof. reflexivity. Qed.

Example decode_two :
  decode (bytes_of_string (pem "CERTIFICATE" [x30; x03; x02; x01; x01]
                               ++ pem "PRIVATE KEY" [x00])%string)
  = Some ({| BlockType := "CERTIFICATE"; Headers := []; Bytes := [x30; x03; x02; x01; x01] |},
          bytes_of_string (pem "PRIVATE KEY" [x00])).
Proof. reflexivity. Qed.

Lemma cut_line_rest (b line rest : bytes) :
  cut_line b = Some (line, rest) -> List.length rest < List.length b.
Proof.
  revert line rest. induction b as [|c b' IH]; intros line rest; simpl; [discriminate|].
  destruct (Byte.eqb c x0a).
  - intro E. injection E as _ <-. lia.
  - destruct (cut_line b') as [[l r]|]; [|discriminate].
    intro E. injection E as _ <-. specialize (IH l r eq_refl). lia.
Qed.

Lemma decode_rest (b : bytes) (block : Block) (rest : bytes) :
  decode b = Some (block, rest) -> List.length rest < List.length b.
Proof.
  unfold decode.
  destruct (cut_line b) as [[l1 r1]|] eqn:E1; [|discriminate].
  destruct (strip_prefix _ l1); [|discriminate].
  destruct (strip_suffix _ _); [|discriminate].
  destruct (cut_line r1) as [[l2 r2]|] eqn:E2; [|discriminate].
  destruct (b64_decode l2); [|discriminate].
  destruct (cut_line r2) as [[l3 r3]|] eqn:E3; [|discriminate].
  destruct (bytes_eqb l3 _); [|discriminate].
  intro E. injection E as _ <-.
  apply cut_line_rest in E1, E2, E3. lia.
Qed.

(** *** Case folding and URLs *)

Definition lower (c : ascii) : ascii :=
  let n := nat_of_ascii c in
  if Nat.leb 65 n && Nat.leb n 90 then ascii_of_nat (n + 32) else c.

(** [strings.EqualFold] on ASCII text. *)
Fixpoint equal_fold (s t : string) : bool :=
  match s, t with
  | EmptyString, EmptyString => true
  | String a s', String b t' => Ascii.eqb (lower a) (lower b) && equal_fold s' t'
  | _, _ => false
  end.

Fixpoint until_slash (s : string) : string * string :=
  match s with
  | EmptyString => (EmptyString, EmptyString)
  | String c s' =>
      if Ascii.eqb c "/"%char then (EmptyString, s)
      else let (host, path) := until_slash s' in (String c host, path)
  end.

(** [url.Parse] on texts of the shapes [scheme://host/path] (the host runs
    up to the first slash), [:...] (an error: the scheme is missing) and
    texts with no colon (a path and no host). *)
Definition parse_url (s : string) : Cause + URL :=
  if HasPrefix s ":" then inl "missing protocol scheme"
  else
    match String.index 0 "://" s with
    | Some i =>
        let (host, path) := until_slash (slice_from (i + 3) s) in
        inr {| Scheme := String.substring 0 i s; Host := host; Path := path |}
    | None => inr {| Scheme := ""; Host := ""; Path := s |}
    end.

Example url_with_host :
  parse_url "https://ca.example.com:443"
  = inr {| Scheme := "https"; Host := "ca.example.com:443"; Path := "" |}.
Proof. reflexivity. Qed.

Example url_without_host :
  parse_url "ca.example.com" = inr {| Scheme := ""; Host := ""; Path := "ca.example.com" |}.
Proof. reflexivity. Qed.

(** *** Certificates, digests and tokens: stand-ins *)

(** A certificate is its DER text; a text parses when it opens with the
    SEQUENCE tag. *)
Definition parse_certificate (der : bytes) : Cause + bytes :=
  match der with
  | x30 :: _ => inr der
  | _ => inl "x509: malformed certificate"
  end.

(** A one-byte checksum in the place of SHA-256. *)
Definition checksum (b : bytes) : bytes :=
  [byte_of (fold_right (fun x acc => Byte.to_nat x + acc) 0 b)].

(** The tokens of the scenarios below, each with the claims of its payload. *)
Definition rootDER : bytes := [x30; x03; x02; x01; x01].
Definition intermediateDER : bytes := [x30; x03; x02; x01; x02].
Definition leafDER : bytes := [x30; x03; x02; x01; x03].

Definition authoritySAN : string :=
  "urn:smallstep:authority:0f8fad5b-d9cb-469f-a165-70867728950e".

Definition goodClaims : linkedCAClaims :=
  {| Audience := ["https://ca.example.com:443"];
     Subject := "ca.example.com";
     SANs := ["ca.example.com"; authoritySAN];
     SHA := "37" |}.

Definition tokens : list (string * linkedCAClaims) :=
  [("token.good.sig", goodClaims);
   ("token.other-sha.sig",
     {| Audience := Audience goodClaims; Subject := Subject goodClaims;
        SANs := SANs goodClaims; SHA := "AA" |});
   ("token.two-audiences.sig",
     {| Audience := ["https://ca.example.com:443"; "https://other.example.com"];
        Subject := Subject goodClaims; SANs := SANs goodClaims; SHA := SHA goodClaims |});
   ("token.no-host.sig",
     {| Audience := ["ca.example.com"];
        Subject := Subject goodClaims; SANs := SANs goodClaims; SHA := SHA goodClaims |});
   ("token.no-sha-bad-url.sig",
     {| Audience := [":443"];
        Subject := Subject goodClaims; SANs := SANs goodClaims; SHA := "" |});
   ("token.no-authority.sig",
     {| Audience := Audience goodClaims; Subject := Subject goodClaims;
        SANs := ["ca.example.com"]; SHA := SHA goodClaims |})].

Definition parse_token (token : string) : Cause + linkedCAClaims :=
  match find (fun kv => (fst kv =? token)%string) tokens with
  | Some kv => inr (snd kv)
  | None => inl "compact JWS format must have three parts"
  end.

Definition platform : Platform :=
  {| x509_Certificate := bytes;
     Raw := fun cert => cert;
     x509_CertificateRequest := bytes;
     csr_Raw := fun csr => csr;
     crypto_PrivateKey := nat;
     JSONWebSignature := linkedCAClaims;
     jose_ParseSigned := parse_token;
     UnsafeClaimsWithoutVerification := fun jws => inr jws;
     url_Parse := parse_url;
     pem_Decode := decode;
     pem_Decode_rest := decode_rest;
     pem_EncodeToMemory := encode;
     x509_ParseCertificate := parse_certificate;
     sha256_Sum256 := checksum;
     strings_EqualFold := equal_fold |}.

(** A world in which dialling never fails, the authority answers the
    request for the root with [rootBody] (and not at all when dialled at an
    empty address), and answers the login made after [n] events with
    [logins n]. *)
Definition world (rootBody : Cause + string) (logins : nat -> Cause + LoginResponse)
  : @World platform :=
  @Build_World platform
    (fun _ => inr 7)
    (fun _ subject _ _ => inr (x30 :: list_byte_of_string subject))
    (fun _ _ _ => None)
    (fun _ conn _ =>
       if (conn_target conn =? "")%string then inl "transport: error while dialing"
       else rootBody)
    (fun n _ _ => logins n)
    (fun _ _ _ => None).

(** Nothing allocated, nothing done. *)
Definition start : @State platform := {| pools := []; trace := [] |}.

(** *** Scenarios *)

Definition rootPEM : string := pem "CERTIFICATE" rootDER.
Definition keyPEM : string := pem "PRIVATE KEY" [x00].
Definition leafPEM : string := pem "CERTIFICATE" leafDER.

(** An intermediate followed by the root. *)
Definition chainPEM : string := (pem "CERTIFICATE" intermediateDER ++ rootPEM)%string.


Definition goodResponse : LoginResponse :=
  {| PemCertificate := leafPEM; PemCertificateChain := chainPEM |}.

Definition noLeafResponse : LoginResponse :=
  {| PemCertificate := ""; PemCertificateChain := chainPEM |}.



Definition block (typ : string) (body : bytes) : Block :=
  {| BlockType := typ; Headers := []; Bytes := body |}.

Definition host : string := "ca.example.com:443".

(** The authority serves a key and then the root, and answers every login
    with [resp]. *)
Definition authority_answering (resp : LoginResponse) : @World platform :=
  world (inr (keyPEM ++ rootPEM)%string) (fun _ => inr resp).

(** The pool of the client, with the root in it, behind reference 0. *)
Definition ready : @State platform :=
  {| pools := [([rootDER] : @CertPool platform)]; trace := [] |}.

Definition authorityId : string := "0f8fad5b-d9cb-469f-a165-70867728950e".

(** [provisioner.NewDuration] on the texts used below: the empty text is
    no duration. *)
Definition NewDuration (s : string) : Cause + string :=
  if (s =? "")%string then inl "time: invalid duration" else inr s.

Definition hourly : ClaimDurations := {| Min := "5m"; Max := "24h"; Default := "1h" |}.

Definition someClaims : Claims :=
  {| X509 := {| Durations := hourly |};
     SSH := {| Enabled := true; UserDurations := hourly; HostDurations := hourly |};
     DisableRenewal := false |}.

End Sample.

(** * Properties *)

(** ** [getAuthority] *)

Lemma getAuthority_find (sans : list string) :
  getAuthority sans =
  match find authority_san sans with
  | Some s => inr (slice_from 24 s)
  | None => inl ErrInvalidSans
  end.
Proof.
  induction sans as [|s rest IH]; [reflexivity|].
  change (getAuthority (s :: rest))
    with (if HasPrefix s "urn:smallstep:authority:"
          then if MatchString uuidPattern (slice_from 24 s)
               then inr (slice_from 24 s) else getAuthority rest
          else getAuthority rest).
  change (find authority_san (s :: rest))
    with (if authority_san s then Some s else find authority_san rest).
  unfold authority_san at 1.
  destruct (HasPrefix s "urn:smallstep:authority:");
    destruct (MatchString uuidPattern (slice_from 24 s)); simpl; auto.
Qed.

(** Two SANs, each with a well-formed authority identifier. *)
Definition two_authorities : list string :=
  ["urn:smallstep:authority:0f8fad5b-d9cb-469f-a165-70867728950e";
   "urn:smallstep:authority:7c9e6679-7425-40de-944b-e07fc1f90ae7"].

(** C4, as stated, fails: with two well-formed authority SANs the
    extraction succeeds (with the first), though the well-formed matches are
    two and not exactly one. *)
Lemma getAuthority_two_matches :
  getAuthority two_authorities = inr "0f8fad5b-d9cb-469f-a165-70867728950e"
  /\ List.length (filter authority_san two_authorities) = 2.
Proof. split; reflexivity. Qed.

(** C4, amended: [getAuthority] succeeds exactly when at least one SAN has
    the prefix [urn:smallstep:authority:] followed by a remainder matching
    the 8-4-4-4-12 hex pattern; it then returns the remainder of the first
    such SAN, and with no such SAN it fails with the invalid-sans error. *)
Theorem getAuthority_first_match : forall sans : list string,
  getAuthority sans =
    match find authority_san sans with
    | Some s => inr (slice_from 24 s)
    | None => inl ErrInvalidSans
    end
  /\ ((exists id, getAuthority sans = inr id)
      <-> (exists s, In s sans /\ authority_san s = true))
  /\ ((forall s, In s sans -> authority_san s = false)
      <-> getAuthority sans = inl ErrInvalidSans).
Proof.
  intro sans. rewrite getAuthority_find.
  split; [reflexivity|].
  destruct (find authority_san sans) as [s|] eqn:Hf.
  - apply find_some in Hf. destruct Hf as [Hin Hs]. split.
    + split; intros _; [exists s; auto | eexists; reflexivity].
    + split; [intro Hall | discriminate].
      rewrite (Hall s Hin) in Hs. discriminate.
  - split.
    + split; [intros [id Hid]; discriminate|].
      intros [s [Hin Hs]]. rewrite (find_none _ _ Hf s Hin) in Hs. discriminate.
    + split; [reflexivity|]. intros _ s Hin. exact (find_none _ _ Hf s Hin).
Qed.

(** The pattern accepts hex digits of either case and nothing else. *)
Example uuid_upper :
  getAuthority ["urn:smallstep:authority:0F8FAD5B-D9CB-469F-A165-70867728950E"]
  = inr "0F8FAD5B-D9CB-469F-A165-70867728950E".
Proof. reflexivity. Qed.

Example uuid_not_hex :
  getAuthority ["urn:smallstep:authority:0g8fad5b-d9cb-469f-a165-70867728950e"]
  = inl ErrInvalidSans.
Proof. reflexivity. Qed.

(** ** [Claims.ToCertificates] *)

Section ToCertificatesProperties.
Variable Duration : Type.
Variable NewDuration : string -> Cause + Duration.

Lemma rangeDurs_None (durs : list (string * durEntry Duration)) (order : list string) :
  rangeDurs NewDuration durs order = None
  <-> (forall k, In k order -> exists d, NewDuration (durStr (map_index durs k)) = inr d).
Proof.
  induction order as [|k ks IH]; simpl.
  - split; [intros _ k []|reflexivity].
  - destruct (NewDuration (durStr (map_index durs k))) as [cause|d] eqn:Hk.
    + split; [discriminate|]. intro Hall.
      destruct (Hall k (or_introl eq_refl)) as [d Hd]. congruence.
    + rewrite IH. split.
      * intros Hall k' [<-|Hin]; [exists d; exact Hk|auto].
      * intros Hall k' Hin. apply Hall. right. exact Hin.
Qed.

(** C9: [ToCertificates] returns an error exactly when one of the nine
    duration strings does not parse, and when it succeeds all nine duration
    fields of the result are nil, whatever the strings were: the parsed
    duration went to a copy of the map value. *)
Theorem ToCertificates_durations_nil : forall (order : list string) (c : Claims),
  Permutation order durKeys ->
  (is_error (ToCertificates NewDuration order c) = true
   <-> (exists s cause, In s (durationStrings c) /\ NewDuration s = inl cause))
  /\ (forall r, ToCertificates NewDuration order c = inr r ->
        provisioner.MinTLSDur r = None /\ provisioner.MaxTLSDur r = None
        /\ provisioner.DefaultTLSDur r = None
        /\ provisioner.MinUserSSHDur r = None /\ provisioner.MaxUserSSHDur r = None
        /\ provisioner.DefaultUserSSHDur r = None
        /\ provisioner.MinHostSSHDur r = None /\ provisioner.MaxHostSSHDur r = None
        /\ provisioner.DefaultHostSSHDur r = None).
Proof.
  intros order c Hperm. unfold ToCertificates.
  match goal with
  | |- context [rangeDurs NewDuration ?d order] => set (durs := d)
  end.
  assert (Hstr : forall s, In s (durationStrings c)
                           <-> exists k, In k durKeys /\ durStr (map_index durs k) = s).
  { intro s.
    change (durationStrings c) with (map (fun k => durStr (map_index durs k)) durKeys).
    rewrite in_map_iff. split; intros [k [H1 H2]]; exists k; split; assumption. }
  destruct (rangeDurs NewDuration durs order) as [err|] eqn:Hrange.
  - split; [|discriminate]. split; [intros _|reflexivity].
    destruct (List.Exists_dec
                (fun k => exists cause, NewDuration (durStr (map_index durs k)) = inl cause)
                order) as [Hex|Hnex].
    { intro k. destruct (NewDuration (durStr (map_index durs k))) as [cause|d].
      - left. eexists; reflexivity.
      - right. intros [cause Hc]. discriminate. }
    + apply Exists_exists in Hex. destruct Hex as [k [Hin [cause Hc]]].
      exists (durStr (map_index durs k)), cause. split; [|exact Hc].
      apply Hstr. exists k. split; [|reflexivity].
      eapply Permutation_in; eassumption.
    + exfalso. assert (Hnone : rangeDurs NewDuration durs order = None).
      { apply rangeDurs_None. intros k Hin.
        destruct (NewDuration (durStr (map_index durs k))) as [cause|d] eqn:Hk.
        - exfalso. apply Hnex. apply Exists_exists. exists k. split; [exact Hin|].
          exists cause. exact Hk.
        - exists d. reflexivity. }
      congruence.
  - split.
    + split; [discriminate|]. intros [s [cause [Hin Hc]]]. exfalso.
      apply Hstr in Hin. destruct Hin as [k [Hk <-]].
      destruct (proj1 (rangeDurs_None durs order) Hrange k) as [d Hd]; [|congruence].
      eapply Permutation_in; [apply Permutation_sym|]; eassumption.
    + intros r Hr. injection Hr as <-. simpl. repeat split; reflexivity.
Qed.

End ToCertificatesProperties.

(** ** The loops over PEM text *)

Section ClientProperties.
Context {P : Platform} {W : World}.

(** Rewriting with the clauses of a loop, leaving its recursive calls folded. *)
Ltac blocks_clauses :=
  repeat first [ rewrite pem_blocks_clause_1_equation_1
               | rewrite pem_blocks_clause_1_equation_2 ].

Ltac bundle_clauses :=
  repeat first [ rewrite parseBundle_clause_1_equation_1
               | rewrite parseBundle_clause_1_equation_2
               | rewrite parseBundle_clause_1_clause_2_equation_1
               | rewrite parseBundle_clause_1_clause_2_equation_2
               | rewrite parseBundle_clause_1_clause_2_clause_2_equation_1
               | rewrite parseBundle_clause_1_clause_2_clause_2_equation_2 ].

Ltac leaf_clauses :=
  repeat first [ rewrite parseLeaf_clause_1_equation_1
               | rewrite parseLeaf_clause_1_equation_2
               | rewrite parseLeaf_clause_1_clause_2_equation_1
               | rewrite parseLeaf_clause_1_clause_2_equation_2
               | rewrite parseLeaf_clause_1_clause_2_clause_1_equation_1
               | rewrite parseLeaf_clause_1_clause_2_clause_1_equation_2 ].

Lemma pem_Decode_nil : pem_Decode [] = None.
Proof.
  destruct (pem_Decode []) as [[block rest]|] eqn:Hd; [|reflexivity].
  apply pem_Decode_rest in Hd. simpl in Hd. lia.
Qed.

Lemma pem_blocks_eq (b : bytes) :
  pem_blocks b =
  match pem_Decode b with
  | Some (block, rest) => block :: pem_blocks rest
  | None => []
  end.
Proof.
  rewrite pem_blocks_equation_1.
  destruct (inspect (pem_Decode b)) as [[[block rest]|] Hd];
    blocks_clauses; rewrite Hd; reflexivity.
Qed.

Lemma scanRootCertificate_eq (fingerprint : string) (b : bytes) :
  scanRootCertificate fingerprint b =
  match pem_Decode b with
  | None => inl ErrCertificateNotFound
  | Some (block, rest) =>
      if root_block block then verifyRoot fingerprint block
      else scanRootCertificate fingerprint rest
  end.
Proof.
  destruct b as [|x b'].
  - rewrite pem_Decode_nil. reflexivity.
  - rewrite scanRootCertificate_equation_2.
    destruct (inspect (pem_Decode (x :: b'))) as [[[block rest]|] Hd].
    + transitivity (if root_block block then verifyRoot fingerprint block
                    else scanRootCertificate fingerprint rest);
        [|rewrite Hd; reflexivity].
      simp scanRootCertificate.
      unfold root_block, verifyRoot, fingerprint_of.
      destruct (BlockType block =? "CERTIFICATE")%string;
        destruct (Nat.eqb (List.length (Headers block)) 0); simpl;
        simp scanRootCertificate; try reflexivity.
      destruct (x509_ParseCertificate (Bytes block)) as [cause|cert];
        simp scanRootCertificate; [reflexivity|].
      destruct (strings_EqualFold fingerprint _); simpl; simp scanRootCertificate; reflexivity.
    + simp scanRootCertificate.
      match goal with H : pem_Decode _ = None |- _ => rewrite H end. reflexivity.
Qed.

Lemma parseBundle_eq (rest : bytes) (bundle : list x509_Certificate) :
  parseBundle rest bundle =
  match pem_Decode rest with
  | None => inr bundle
  | Some (block, rest') =>
      if certificate_block block then
        match x509_ParseCertificate (Bytes block) with
        | inl cause => inl (ErrParsingLoginResponse cause)
        | inr crt => parseBundle rest' (bundle ++ [crt])
        end
      else inl ErrNotCertificateBundle
  end.
Proof.
  rewrite parseBundle_equation_1.
  destruct (inspect (pem_Decode rest)) as [[[block rest']|] Hd];
    (etransitivity; [|rewrite Hd; reflexivity]); cbv beta iota; bundle_clauses;
    [|reflexivity].
  unfold certificate_block.
  destruct (BlockType block =? "CERTIFICATE")%string; simpl; bundle_clauses; [|reflexivity].
  destruct (x509_ParseCertificate (Bytes block)); bundle_clauses; reflexivity.
Qed.

Lemma parseLeaf_eq (rest : bytes) (cert : tls_Certificate) :
  parseLeaf rest cert =
  match pem_Decode rest with
  | None => inr cert
  | Some (block, rest') =>
      if certificate_block block then
        match x509_ParseCertificate (Bytes block) with
        | inl cause => inl (ErrParsingPemCertificate cause)
        | inr leaf =>
            parseLeaf rest'
              {| Certificate := Certificate cert ++ [Bytes block];
                 PrivateKey := PrivateKey cert;
                 Leaf := Some leaf |}
        end
      else parseLeaf rest' cert
  end.
Proof.
  rewrite parseLeaf_equation_1.
  destruct (inspect (pem_Decode rest)) as [[[block rest']|] Hd];
    (etransitivity; [|rewrite Hd; reflexivity]); cbv beta iota; leaf_clauses;
    [|reflexivity].
  unfold certificate_block.
  destruct (BlockType block =? "CERTIFICATE")%string; simpl; leaf_clauses; [|reflexivity].
  destruct (x509_ParseCertificate (Bytes block)); leaf_clauses; reflexivity.
Qed.

(** Induction on a PEM text along [pem.Decode]. *)
Lemma pem_ind (Q : bytes -> Prop) :
  (forall b, pem_Decode b = None -> Q b) ->
  (forall b block rest, pem_Decode b = Some (block, rest) -> Q rest -> Q b) ->
  forall b, Q b.
Proof.
  intros Hnone Hsome b.
  remember (List.length b) as n eqn:Hn. revert b Hn.
  induction n as [n IH] using lt_wf_ind. intros b ->.
  destruct (pem_Decode b) as [[block rest]|] eqn:Hd.
  - apply (Hsome b block rest Hd).
    apply (IH (List.length rest)); [exact (pem_Decode_rest _ Hd)|reflexivity].
  - apply Hnone. exact Hd.
Qed.

Lemma scanRootCertificate_blocks (fingerprint : string) (b : bytes) :
  scanRootCertificate fingerprint b =
  match find root_block (pem_blocks b) with
  | Some block => verifyRoot fingerprint block
  | None => inl ErrCertificateNotFound
  end.
Proof.
  induction b as [b Hd|b block rest Hd IH] using pem_ind;
    rewrite scanRootCertificate_eq, pem_blocks_eq, Hd; [reflexivity|].
  simpl. destruct (root_block block); [reflexivity|exact IH].
Qed.

Lemma parseBundle_blocks (rest : bytes) (bundle : list x509_Certificate) :
  parseBundle rest bundle = bundle_of_blocks (pem_blocks rest) bundle.
Proof.
  revert bundle.
  induction rest as [b Hd|b block rest Hd IH] using pem_ind; intro bundle;
    rewrite parseBundle_eq, pem_blocks_eq, Hd; [reflexivity|].
  simpl. destruct (certificate_block block); [|reflexivity].
  destruct (x509_ParseCertificate (Bytes block)); [reflexivity|apply IH].
Qed.

Lemma parseLeaf_blocks (rest : bytes) (cert : tls_Certificate) :
  parseLeaf rest cert = leaf_of_blocks (pem_blocks rest) cert.
Proof.
  revert cert.
  induction rest as [b Hd|b block rest Hd IH] using pem_ind; intro cert;
    rewrite parseLeaf_eq, pem_blocks_eq, Hd; [reflexivity|].
  simpl. destruct (certificate_block block); [|apply IH].
  destruct (x509_ParseCertificate (Bytes block)); [reflexivity|apply IH].
Qed.

(** ** [getRootCertificate] *)

Lemma trace_length_snoc (tr : list Event) (ev : Event) :
  List.length (tr ++ [ev]) = S (List.length tr).
Proof. rewrite length_app. simpl. lia. Qed.

(** [getRootCertificate], step by step. *)
Lemma getRootCertificate_run (endpoint fingerprint : string) (s : State) :
  getRootCertificate endpoint fingerprint s =
  let conn := {| conn_target := endpoint; conn_config := insecure_config |} in
  let tr1 := trace s ++ [EvDialContext endpoint insecure_config []] in
  match grpc_dial_error (List.length (trace s)) endpoint insecure_config with
  | Some cause =>
      (inl (ErrConnecting endpoint cause), {| pools := pools s; trace := tr1 |})
  | None =>
      let s2 := {| pools := pools s; trace := tr1 ++ [EvGetRootCertificate conn fingerprint] |} in
      match majordomo_GetRootCertificate (S (List.length (trace s))) conn fingerprint with
      | inl cause => (inl (ErrGettingRootCertificate cause), s2)
      | inr body => (scanRootCertificate fingerprint (bytes_of_string body), s2)
      end
  end.
Proof.
  unfold getRootCertificate, call, bind, grpc_DialContext, client_GetRootCertificate, lift, wrap.
  fold insecure_config. cbn [roots_of insecure_config RootCAs trace pools].
  destruct (grpc_dial_error (List.length (trace s)) endpoint insecure_config); [reflexivity|].
  rewrite trace_length_snoc.
  destruct (majordomo_GetRootCertificate _ _ fingerprint); reflexivity.
Qed.

Lemma getRootCertificate_answer (endpoint fingerprint : string) (s : State) (body : string) :
  root_answer endpoint fingerprint s body ->
  fst (getRootCertificate endpoint fingerprint s)
  = scanRootCertificate fingerprint (bytes_of_string body).
Proof.
  intros [Hdial Hrpc]. rewrite getRootCertificate_run. cbv zeta.
  rewrite Hdial, Hrpc. reflexivity.
Qed.

(** C7: [getRootCertificate] goes through the blocks of the response in
    order and selects the first one of type CERTIFICATE without headers,
    passing over every block of another type or with headers; with no such
    block it fails with the certificate-not-found error. *)
Theorem getRootCertificate_first_certificate_block :
  forall (endpoint fingerprint : string) (s : State) (body : string),
  root_answer endpoint fingerprint s body ->
  fst (getRootCertificate endpoint fingerprint s) =
    match find root_block (pem_blocks (bytes_of_string body)) with
    | Some block => verifyRoot fingerprint block
    | None => inl ErrCertificateNotFound
    end
  /\ (forall skipped block later,
        pem_blocks (bytes_of_string body) = skipped ++ block :: later ->
        forallb (fun b => negb (root_block b)) skipped = true ->
        root_block block = true ->
        fst (getRootCertificate endpoint fingerprint s) = verifyRoot fingerprint block)
  /\ ((forall block, In block (pem_blocks (bytes_of_string body)) -> root_block block = false) ->
      fst (getRootCertificate endpoint fingerprint s) = inl ErrCertificateNotFound).
Proof.
  intros endpoint fingerprint s body Hanswer.
  rewrite (getRootCertificate_answer Hanswer), scanRootCertificate_blocks.
  split; [reflexivity|]. split.
  - intros skipped block later -> Hskipped Hblock.
    induction skipped as [|b skipped IH]; simpl.
    + rewrite Hblock. reflexivity.
    + simpl in Hskipped. apply andb_true_iff in Hskipped. destruct Hskipped as [Hb Hrest].
      apply negb_true_iff in Hb. rewrite Hb. apply IH. exact Hrest.
  - intro Hnone.
    destruct (find root_block (pem_blocks (bytes_of_string body))) as [block|] eqn:Hfind;
      [|reflexivity].
    apply find_some in Hfind. destruct Hfind as [Hin Hroot].
    rewrite (Hnone block Hin) in Hroot. discriminate.
Qed.

(** C1: when the first acceptable certificate block of the response parses
    to a certificate whose SHA-256 fingerprint differs from the expected one
    (compared without regard to case), [getRootCertificate] fails with the
    fingerprint-mismatch error; and a certificate it returns always has the
    expected fingerprint. *)
Theorem getRootCertificate_fingerprint_pinned :
  forall (endpoint fingerprint : string) (s : State),
  (forall body block cert,
     root_answer endpoint fingerprint s body ->
     find root_block (pem_blocks (bytes_of_string body)) = Some block ->
     x509_ParseCertificate (Bytes block) = inr cert ->
     strings_EqualFold fingerprint (fingerprint_of cert) = false ->
     fst (getRootCertificate endpoint fingerprint s) = inl ErrFingerprintMismatch)
  /\ (forall cert,
        fst (getRootCertificate endpoint fingerprint s) = inr cert ->
        strings_EqualFold fingerprint (fingerprint_of cert) = true).
Proof.
  intros endpoint fingerprint s. split.
  - intros body block cert Hanswer Hfind Hparse Hfold.
    rewrite (getRootCertificate_answer Hanswer), scanRootCertificate_blocks, Hfind.
    unfold verifyRoot. rewrite Hparse, Hfold. reflexivity.
  - intro cert. rewrite getRootCertificate_run. cbv zeta.
    destruct (grpc_dial_error _ endpoint insecure_config); [discriminate|].
    destruct (majordomo_GetRootCertificate _ _ fingerprint) as [cause|body]; [discriminate|].
    cbn [fst]. rewrite scanRootCertificate_blocks.
    destruct (find root_block _) as [block|]; [|discriminate].
    unfold verifyRoot.
    destruct (x509_ParseCertificate (Bytes block)) as [cause|cert']; [discriminate|].
    destruct (strings_EqualFold fingerprint (fingerprint_of cert')) eqn:Hfold; [|discriminate].
    intro E. injection E as <-. exact Hfold.
Qed.

(** ** [login] *)

Lemma addIntermediates_spec (bundle : list x509_Certificate) (n : nat) (cert : tls_Certificate) :
  addIntermediates bundle n cert =
  {| Certificate := Certificate cert ++ map Raw (firstn n bundle);
     PrivateKey := PrivateKey cert;
     Leaf := Leaf cert |}.
Proof.
  unfold addIntermediates. generalize (firstn n bundle) as l. intro l. revert cert.
  induction l as [|crt l IH]; intro cert; simpl.
  - rewrite app_nil_r. destruct cert; reflexivity.
  - rewrite IH. simpl. rewrite <- app_assoc. reflexivity.
Qed.

Lemma firstn_removelast {A : Type} (l : list A) :
  firstn (List.length l - 1) l = removelast l.
Proof.
  induction l as [|x l IH]; [reflexivity|].
  destruct l as [|y l]; [reflexivity|].
  replace (List.length (x :: y :: l) - 1) with (S (List.length (y :: l) - 1))
    by (simpl; lia).
  change (removelast (x :: y :: l)) with (x :: removelast (y :: l)).
  rewrite <- IH. reflexivity.
Qed.

Lemma nth_last {A : Type} (l : list A) (d : A) :
  nth (List.length l - 1) l d = last l d.
Proof.
  induction l as [|x l IH]; [reflexivity|].
  destruct l as [|y l]; [reflexivity|].
  replace (List.length (x :: y :: l) - 1) with (S (List.length (y :: l) - 1))
    by (simpl; lia).
  change (last (x :: y :: l) d) with (last (y :: l) d).
  rewrite <- IH. reflexivity.
Qed.

(** [login], step by step: the dial, the request, and [assemble] on the
    response. *)
Lemma login_run (authority token : string) (csr : x509_CertificateRequest)
  (signer : crypto_PrivateKey) (endpoint : string) (rootCAs : PoolRef) (s : State) :
  login authority token csr signer endpoint rootCAs s =
  let conn := {| conn_target := endpoint; conn_config := login_config rootCAs |} in
  let tr1 := trace s ++ [EvDialContext endpoint (login_config rootCAs) (pool_at rootCAs s)] in
  match grpc_dial_error (List.length (trace s)) endpoint (login_config rootCAs) with
  | Some cause =>
      (inl (ErrConnecting endpoint cause), {| pools := pools s; trace := tr1 |})
  | None =>
      let s2 := {| pools := pools s;
                   trace := tr1 ++ [EvLogin conn (login_request authority token csr)] |} in
      match majordomo_Login (S (List.length (trace s))) conn
              (login_request authority token csr) with
      | inl cause => (inl (ErrLoggingIn endpoint cause), s2)
      | inr resp => assemble signer rootCAs resp s2
      end
  end.
Proof.
  unfold login, call, bind, grpc_DialContext, client_Login, lift, wrap.
  fold (login_config rootCAs). fold (login_request authority token csr).
  cbn [roots_of login_config RootCAs trace pools]. fold (login_config rootCAs).
  fold (pool_at rootCAs s).
  destruct (grpc_dial_error (List.length (trace s)) endpoint (login_config rootCAs));
    [reflexivity|].
  rewrite trace_length_snoc.
  destruct (majordomo_Login _ _ (login_request authority token csr)) as [cause|resp];
    [reflexivity|].
  unfold assemble. rewrite parseBundle_blocks.
  destruct (bundle_of_blocks _ []) as [err|[|first more]]; try reflexivity.
  rewrite parseLeaf_blocks.
  destruct (leaf_of_blocks _ _) as [err|cert]; [reflexivity|].
  unfold fail, ret, AddCert. cbn [pools trace].
  rewrite addIntermediates_spec, firstn_removelast, nth_last. reflexivity.
Qed.

Lemma login_answered (authority token : string) (csr : x509_CertificateRequest)
  (signer : crypto_PrivateKey) (endpoint : string) (rootCAs : PoolRef) (s : State)
  (resp : LoginResponse) :
  login_answer authority token csr endpoint rootCAs s resp ->
  login authority token csr signer endpoint rootCAs s =
  assemble signer rootCAs resp
    {| pools := pools s;
       trace := (trace s ++ [EvDialContext endpoint (login_config rootCAs) (pool_at rootCAs s)])
                ++ [EvLogin {| conn_target := endpoint; conn_config := login_config rootCAs |}
                      (login_request authority token csr)] |}.
Proof.
  intros [Hdial Hrpc]. rewrite login_run. cbv zeta. rewrite Hdial, Hrpc. reflexivity.
Qed.

Lemma leaf_of_blocks_filter (blocks : list Block) (cert : tls_Certificate) :
  leaf_of_blocks blocks cert = leaf_of_blocks (filter certificate_block blocks) cert.
Proof.
  revert cert. induction blocks as [|block blocks IH]; intro cert; [reflexivity|].
  simpl. destruct (certificate_block block) eqn:Hc; [|apply IH].
  simpl. rewrite Hc.
  destruct (x509_ParseCertificate (Bytes block)); [reflexivity|apply IH].
Qed.

Lemma update_nth_nth {A : Type} (f : A -> A) (l : list A) (n : nat) (d : A) :
  n < List.length l -> nth n (update_nth n f l) d = f (nth n l d).
Proof.
  revert n. induction l as [|x l IH]; intros n Hn; simpl in Hn; [lia|].
  destruct n as [|n]; [reflexivity|]. simpl. apply IH. lia.
Qed.

Lemma bytes_eqb_refl (a : bytes) : bytes_eqb a a = true.
Proof. unfold bytes_eqb. destruct (list_eq_dec byte_eq_dec a a); congruence. Qed.









(** C10: a login response with a valid, non-empty chain and a leaf field
    without any block of type CERTIFICATE is accepted: [login] returns a
    certificate with a nil [Leaf] whose list holds the intermediate entries
    of the chain and nothing else, and reports no error. *)
Theorem login_accepts_missing_leaf :
  forall (authority token : string) (csr : x509_CertificateRequest)
         (signer : crypto_PrivateKey) (endpoint : string) (rootCAs : PoolRef) (s : State)
         (resp : LoginResponse) (intermediates : list x509_Certificate)
         (root : x509_Certificate),
  login_answer authority token csr endpoint rootCAs s resp ->
  bundle_of_blocks (pem_blocks (bytes_of_string (PemCertificateChain resp))) []
    = inr (intermediates ++ [root]) ->
  (forall block, In block (pem_blocks (bytes_of_string (PemCertificate resp))) ->
                 certificate_block block = false) ->
  exists cert s1,
    login authority token csr signer endpoint rootCAs s = (inr (cert, login_config rootCAs), s1)
    /\ Leaf cert = None
    /\ Certificate cert = map Raw intermediates
    /\ PrivateKey cert = Some signer.
Proof.
  intros authority token csr signer endpoint rootCAs s resp intermediates root
         Hanswer Hbundle Hleaf.
  rewrite (login_answered signer Hanswer). unfold assemble. rewrite Hbundle.
  destruct (intermediates ++ [root]) as [|first more] eqn:Hchain;
    [destruct intermediates; discriminate|].
  cbv zeta. rewrite leaf_of_blocks_filter.
  assert (Hnone : filter certificate_block
                    (pem_blocks (bytes_of_string (PemCertificate resp))) = []).
  { generalize Hleaf. generalize (pem_blocks (bytes_of_string (PemCertificate resp))) as l.
    induction l as [|b l IH]; intro Hl; [reflexivity|]. simpl.
    rewrite (Hl b (or_introl eq_refl)). apply IH. intros b' Hin. apply Hl. right. exact Hin. }
  rewrite Hnone. cbn [leaf_of_blocks Certificate PrivateKey Leaf app].
  rewrite <- Hchain, removelast_last.
  eexists. eexists. split; [reflexivity|]. repeat split; reflexivity.
Qed.

(** ** [newLinkedCAClient] *)

Lemma update_nth_snoc {A : Type} (f : A -> A) (l : list A) (x : A) :
  update_nth (List.length l) f (l ++ [x]) = l ++ [f x].
Proof. induction l as [|y l IH]; simpl; [reflexivity|]. rewrite IH. reflexivity. Qed.

(** [newLinkedCAClient], step by step. *)
Lemma newLinkedCAClient_run (token : string) (s : State) :
  newLinkedCAClient token s =
  match jose_ParseSigned token with
  | inl cause => (inl (ErrParsingToken cause), s)
  | inr jws =>
  match UnsafeClaimsWithoutVerification jws with
  | inl cause => (inl (ErrParsingToken cause), s)
  | inr claims =>
  if negb (Nat.eqb (List.length (Audience claims)) 1) then (inl ErrInvalidAud, s)
  else if (SHA claims =? "")%string then (inl ErrInvalidSha, s)
  else
  match url_Parse (nth 0 (Audience claims) "") with
  | inl _ => (inl ErrInvalidAud, s)
  | inr u =>
  match getAuthority (SANs claims) with
  | inl err => (inl err, s)
  | inr authority =>
  match keyutil_GenerateDefaultSigner (List.length (trace s)) with
  | inl cause =>
      (inl (ErrLibrary cause),
       {| pools := pools s; trace := trace s ++ [EvGenerateDefaultSigner] |})
  | inr signer =>
  match x509util_CreateCertificateRequest (S (List.length (trace s)))
          (Subject claims) (SANs claims) signer with
  | inl cause => (inl (ErrLibrary cause), after_csr claims s)
  | inr csr =>
  match getRootCertificate (Host u) (SHA claims) (after_csr claims s) with
  | (inl err, s3) => (inl err, s3)
  | (inr root, s3) =>
  match login authority token csr signer (Host u) (List.length (pools s3))
          (with_pool root s3) with
  | (inl err, s5) => (inl err, s5)
  | (inr (cert, tlsConfig), s5) =>
      start_client authority token csr signer (Host u) (List.length (pools s3))
        cert tlsConfig s5
  end end end end end end end end.
Proof.
  unfold newLinkedCAClient.
  unfold bind at 1. unfold lift at 1. unfold wrap at 1.
  destruct (jose_ParseSigned token) as [cause|jws]; [reflexivity|].
  unfold bind at 1. unfold lift at 1. unfold wrap at 1.
  destruct (UnsafeClaimsWithoutVerification jws) as [cause|claims]; [reflexivity|].
  destruct (negb (Nat.eqb (List.length (Audience claims)) 1)); [reflexivity|].
  destruct (SHA claims =? "")%string; [reflexivity|].
  unfold bind at 1. unfold lift at 1. unfold wrap at 1.
  destruct (url_Parse (nth 0 (Audience claims) "")) as [cause|u]; [reflexivity|].
  unfold bind at 1. unfold lift at 1.
  destruct (getAuthority (SANs claims)) as [err|authority]; [reflexivity|].
  unfold bind at 1. unfold call at 1. unfold bind at 1.
  unfold GenerateDefaultSigner at 1. unfold lift at 1. unfold wrap at 1.
  destruct (keyutil_GenerateDefaultSigner (List.length (trace s))) as [cause|signer];
    [reflexivity|].
  unfold bind at 1. unfold call at 1. unfold bind at 1.
  unfold CreateCertificateRequest at 1. unfold lift at 1. unfold wrap at 1.
  cbn [trace pools]. rewrite trace_length_snoc.
  destruct (x509util_CreateCertificateRequest _ _ _ signer) as [cause|csr]; [reflexivity|].
  fold (after_csr claims s).
  unfold bind at 1.
  destruct (getRootCertificate (Host u) (SHA claims) (after_csr claims s)) as [[err|root] s3];
    [reflexivity|].
  unfold bind at 1. unfold NewCertPool at 1.
  unfold bind at 1. unfold AddCert at 1. cbn [pools trace].
  rewrite update_nth_snoc.
  change (CertPool_AddCert [] root) with [root].
  change {| pools := pools s3 ++ [[root]]; trace := trace s3 |} with (with_pool root s3).
  unfold bind at 1.
  destruct (login authority token csr signer (Host u) (List.length (pools s3))
              (with_pool root s3)) as [[err|[cert tlsConfig]] s5]; reflexivity.
Qed.

Lemma assemble_trace (signer : crypto_PrivateKey) (rootCAs : PoolRef) (resp : LoginResponse)
  (s : State) :
  trace (snd (assemble signer rootCAs resp s)) = trace s.
Proof.
  unfold assemble.
  destruct (bundle_of_blocks _ []) as [err|[|first more]]; try reflexivity.
  cbv zeta. destruct (leaf_of_blocks _ _); reflexivity.
Qed.

Lemma leaf_of_blocks_key (blocks : list Block) (cert cert' : tls_Certificate) :
  leaf_of_blocks blocks cert = inr cert' -> PrivateKey cert' = PrivateKey cert.
Proof.
  revert cert. induction blocks as [|block blocks IH]; intro cert; simpl.
  - intro E. injection E as <-. reflexivity.
  - destruct (certificate_block block); [|apply IH].
    destruct (x509_ParseCertificate (Bytes block)); [discriminate|].
    intro E. apply IH in E. exact E.
Qed.

Lemma assemble_result (signer : crypto_PrivateKey) (rootCAs : PoolRef) (resp : LoginResponse)
  (s : State) (cert : tls_Certificate) (config : tls_Config) :
  fst (assemble signer rootCAs resp s) = inr (cert, config) ->
  PrivateKey cert = Some signer /\ config = login_config rootCAs.
Proof.
  unfold assemble.
  destruct (bundle_of_blocks _ []) as [err|[|first more]]; try discriminate.
  cbv zeta. destruct (leaf_of_blocks _ _) as [err|cert0] eqn:Hleaf; [discriminate|].
  cbn [fst]. intro E. injection E as <- <-. cbn [PrivateKey].
  split; [|reflexivity]. exact (leaf_of_blocks_key _ _ Hleaf).
Qed.

(** The events of one run of [login]: the dial, against the pool as it is
    at that moment, and the request when the dial went through. *)
Lemma login_events (authority token : string) (csr : x509_CertificateRequest)
  (signer : crypto_PrivateKey) (endpoint : string) (rootCAs : PoolRef) (s : State) :
  exists evs,
    trace (snd (login authority token csr signer endpoint rootCAs s))
    = trace s ++ EvDialContext endpoint (login_config rootCAs) (pool_at rootCAs s) :: evs
    /\ (evs = []
        \/ evs = [EvLogin {| conn_target := endpoint; conn_config := login_config rootCAs |}
                    (login_request authority token csr)]).
Proof.
  rewrite login_run. cbv zeta.
  destruct (grpc_dial_error _ endpoint (login_config rootCAs)).
  - exists []. split; [reflexivity|left; reflexivity].
  - eexists. split; [|right; reflexivity].
    destruct (majordomo_Login _ _ (login_request authority token csr)) as [cause|resp].
    + cbn [snd trace]. rewrite <- app_assoc. reflexivity.
    + rewrite assemble_trace. cbn [trace]. rewrite <- app_assoc. reflexivity.
Qed.

Lemma getRootCertificate_events (endpoint fingerprint : string) (s : State) :
  exists evs,
    trace (snd (getRootCertificate endpoint fingerprint s))
    = trace s ++ EvDialContext endpoint insecure_config [] :: evs
    /\ (evs = []
        \/ evs = [EvGetRootCertificate
                    {| conn_target := endpoint; conn_config := insecure_config |} fingerprint]).
Proof.
  rewrite getRootCertificate_run. cbv zeta.
  destruct (grpc_dial_error _ endpoint insecure_config).
  - exists []. split; [reflexivity|left; reflexivity].
  - eexists. split; [|right; reflexivity].
    destruct (majordomo_GetRootCertificate _ _ fingerprint);
      cbn [snd trace]; rewrite <- app_assoc; reflexivity.
Qed.

Lemma continues_without_trans (p : Event -> bool) (s s1 s2 : State) :
  continues_without p s s1 -> continues_without p s1 s2 -> continues_without p s s2.
Proof.
  intros [evs [E Hevs]] [evs' [E' Hevs']]. exists (evs ++ evs'). split.
  - rewrite E', E, app_assoc. reflexivity.
  - rewrite forallb_app, Hevs, Hevs'. reflexivity.
Qed.

Lemma continues_without_refl (p : Event -> bool) (s : State) : continues_without p s s.
Proof. exists []. split; [rewrite app_nil_r|]; reflexivity. Qed.

Lemma login_quiet (p : Event -> bool) (authority token : string)
  (csr : x509_CertificateRequest) (signer : crypto_PrivateKey) (endpoint : string)
  (rootCAs : PoolRef) (s : State) :
  (forall target config roots, p (EvDialContext target config roots) = false) ->
  (forall conn req, p (EvLogin conn req) = false) ->
  continues_without p s (snd (login authority token csr signer endpoint rootCAs s)).
Proof.
  intros Hdial Hlogin.
  destruct (login_events authority token csr signer endpoint rootCAs s) as [evs [E Hevs]].
  eexists. split; [exact E|].
  destruct Hevs as [->| ->]; simpl; rewrite ?Hdial, ?Hlogin; reflexivity.
Qed.

Lemma getRootCertificate_quiet (p : Event -> bool) (endpoint fingerprint : string) (s : State) :
  (forall target config roots, p (EvDialContext target config roots) = false) ->
  (forall conn fp, p (EvGetRootCertificate conn fp) = false) ->
  continues_without p s (snd (getRootCertificate endpoint fingerprint s)).
Proof.
  intros Hdial Hroot.
  destruct (getRootCertificate_events endpoint fingerprint s) as [evs [E Hevs]].
  eexists. split; [exact E|].
  destruct Hevs as [->| ->]; simpl; rewrite ?Hdial, ?Hroot; reflexivity.
Qed.

(** [newLinkedCAClient] once the token has given its claims. *)
Lemma newLinkedCAClient_claims (token : string) (s : State) (claims : linkedCAClaims)
  (u : URL) :
  token_claims token claims u ->
  newLinkedCAClient token s =
  match getAuthority (SANs claims) with
  | inl err => (inl err, s)
  | inr authority =>
  match keyutil_GenerateDefaultSigner (List.length (trace s)) with
  | inl cause =>
      (inl (ErrLibrary cause),
       {| pools := pools s; trace := trace s ++ [EvGenerateDefaultSigner] |})
  | inr signer =>
  match x509util_CreateCertificateRequest (S (List.length (trace s)))
          (Subject claims) (SANs claims) signer with
  | inl cause => (inl (ErrLibrary cause), after_csr claims s)
  | inr csr =>
  match getRootCertificate (Host u) (SHA claims) (after_csr claims s) with
  | (inl err, s3) => (inl err, s3)
  | (inr root, s3) =>
  match login authority token csr signer (Host u) (List.length (pools s3))
          (with_pool root s3) with
  | (inl err, s5) => (inl err, s5)
  | (inr (cert, tlsConfig), s5) =>
      start_client authority token csr signer (Host u) (List.length (pools s3))
        cert tlsConfig s5
  end end end end end.
Proof.
  intros [jws [Hjws [Hclaims [Haud [Hsha Hurl]]]]].
  rewrite newLinkedCAClient_run, Hjws, Hclaims, Haud, Hurl.
  destruct (SHA claims =? "")%string eqn:E; [|reflexivity].
  apply String.eqb_eq in E. contradiction.
Qed.

Lemma after_csr_quiet (claims : linkedCAClaims) (s : State) :
  continues_without client_event s (after_csr claims s).
Proof.
  exists [EvGenerateDefaultSigner; EvCreateCertificateRequest (Subject claims) (SANs claims)].
  split; [|reflexivity]. unfold after_csr. cbn [trace]. rewrite <- app_assoc. reflexivity.
Qed.

Lemma bundle_of_blocks_error (blocks : list Block) (bundle : list x509_Certificate)
  (e : Error) :
  bundle_of_blocks blocks bundle = inl e -> audience_error e = false.
Proof.
  revert bundle. induction blocks as [|b blocks IH]; intro bundle; simpl; [discriminate|].
  destruct (certificate_block b); [|intro E; injection E as <-; reflexivity].
  destruct (x509_ParseCertificate (Bytes b)); [intro E; injection E as <-; reflexivity|].
  apply IH.
Qed.

Lemma leaf_of_blocks_error (blocks : list Block) (cert : tls_Certificate) (e : Error) :
  leaf_of_blocks blocks cert = inl e -> audience_error e = false.
Proof.
  revert cert. induction blocks as [|b blocks IH]; intro cert; simpl; [discriminate|].
  destruct (certificate_block b); [|apply IH].
  destruct (x509_ParseCertificate (Bytes b)); [intro E; injection E as <-; reflexivity|].
  apply IH.
Qed.

Lemma login_error (authority token : string) (csr : x509_CertificateRequest)
  (signer : crypto_PrivateKey) (endpoint : string) (rootCAs : PoolRef) (s : State) (e : Error) :
  fst (login authority token csr signer endpoint rootCAs s) = inl e ->
  audience_error e = false.
Proof.
  rewrite login_run. cbv zeta.
  destruct (grpc_dial_error _ endpoint _); [intro E; injection E as <-; reflexivity|].
  destruct (majordomo_Login _ _ _) as [cause|resp];
    [intro E; injection E as <-; reflexivity|].
  unfold assemble.
  destruct (bundle_of_blocks _ []) as [err|[|first more]] eqn:Hbundle.
  - intro E. injection E as <-. exact (bundle_of_blocks_error _ _ Hbundle).
  - intro E. injection E as <-. reflexivity.
  - cbv zeta. destruct (leaf_of_blocks _ _) as [err|cert] eqn:Hleaf; [|discriminate].
    intro E. injection E as <-. exact (leaf_of_blocks_error _ _ Hleaf).
Qed.

Lemma getRootCertificate_error (endpoint fingerprint : string) (s : State) (e : Error) :
  fst (getRootCertificate endpoint fingerprint s) = inl e -> audience_error e = false.
Proof.
  rewrite getRootCertificate_run. cbv zeta.
  destruct (grpc_dial_error _ endpoint _); [intro E; injection E as <-; reflexivity|].
  destruct (majordomo_GetRootCertificate _ _ _) as [cause|body];
    [intro E; injection E as <-; reflexivity|].
  cbn [fst]. rewrite scanRootCertificate_blocks.
  destruct (find root_block _) as [block|]; [|intro E; injection E as <-; reflexivity].
  unfold verifyRoot.
  destruct (x509_ParseCertificate (Bytes block)) as [cause|cert];
    [intro E; injection E as <-; reflexivity|].
  destruct (strings_EqualFold _ _); [discriminate|intro E; injection E as <-; reflexivity].
Qed.

Lemma start_client_error (authority token : string) (csr : x509_CertificateRequest)
  (signer : crypto_PrivateKey) (host : string) (pool : PoolRef) (cert : tls_Certificate)
  (config : tls_Config) (s : State) (e : Error) :
  fst (start_client authority token csr signer host pool cert config s) = inl e ->
  audience_error e = false.
Proof.
  unfold start_client, call, bind, NewRenewer, grpc_Dial, lift, wrap, ret.
  destruct (tlsutil_NewRenewer_error _ cert config);
    [intro E; injection E as <-; reflexivity|].
  cbn [trace pools].
  destruct (grpc_dial_error _ host _); [intro E; injection E as <-; reflexivity|].
  discriminate.
Qed.

(** The errors of a token that decodes: the invalid-audience error is the
    answer to an audience list that does not have exactly one entry and to
    an entry that does not parse as a URL (when the sha claim is there), and
    to nothing else.  A URL that parses is taken with whatever host it has. *)
Lemma newLinkedCAClient_audience_error (token : string) (s : State)
  (jws : JSONWebSignature) (claims : linkedCAClaims) :
  jose_ParseSigned token = inr jws ->
  UnsafeClaimsWithoutVerification jws = inr claims ->
  (fst (newLinkedCAClient token s) = inl ErrInvalidAud
   <-> (List.length (Audience claims) <> 1
        \/ (SHA claims <> ""
            /\ exists cause, url_Parse (nth 0 (Audience claims) "") = inl cause))).
Proof.
  intros Hjws Hclaims. rewrite newLinkedCAClient_run, Hjws, Hclaims.
  destruct (Nat.eqb_spec (List.length (Audience claims)) 1) as [Hlen|Hlen]; cbn [negb];
    [|split; [intros _; left; exact Hlen|reflexivity]].
  destruct (SHA claims =? "")%string eqn:Hsha.
  { apply String.eqb_eq in Hsha. split; [discriminate|].
    intros [Hne|[Hne _]]; contradiction. }
  assert (Hsha' : SHA claims <> "") by (intro E; rewrite E in Hsha; discriminate).
  destruct (url_Parse (nth 0 (Audience claims) "")) as [cause|u] eqn:Hurl.
  { split; [intros _; right; split; [exact Hsha'|exists cause; reflexivity]|reflexivity]. }
  split; [|intros [Hne|[_ [cause Hcause]]]; [contradiction|discriminate]].
  intro Herr. exfalso.
  assert (Hno : forall e, fst (newLinkedCAClient token s) = inl e -> audience_error e = false).
  { intro e. rewrite newLinkedCAClient_run, Hjws, Hclaims.
    destruct (Nat.eqb_spec (List.length (Audience claims)) 1) as [_|Hne];
      [|contradiction]. cbn [negb]. rewrite Hsha, Hurl.
    pose proof (getAuthority_find (SANs claims)) as Hfind.
    destruct (getAuthority (SANs claims)) as [err|authority].
    { destruct (find authority_san (SANs claims)); [discriminate|].
      injection Hfind as ->. intro E. injection E as <-. reflexivity. }
    destruct (keyutil_GenerateDefaultSigner _) as [cause|signer];
      [intro E; injection E as <-; reflexivity|].
    destruct (x509util_CreateCertificateRequest _ _ _ signer) as [cause|csr];
      [intro E; injection E as <-; reflexivity|].
    pose proof (@getRootCertificate_error (Host u) (SHA claims) (after_csr claims s)) as Hroot.
    destruct (getRootCertificate (Host u) (SHA claims) (after_csr claims s))
      as [[err|root] s3]; [intro E; injection E as <-; apply Hroot; reflexivity|].
    pose proof (@login_error authority token csr signer (Host u) (List.length (pools s3))
                  (with_pool root s3)) as Hlogin.
    destruct (login authority token csr signer (Host u) (List.length (pools s3))
                (with_pool root s3)) as [[err|[cert config]] s5];
      [intro E; injection E as <-; apply Hlogin; reflexivity|].
    apply start_client_error. }
  specialize (Hno ErrInvalidAud). rewrite newLinkedCAClient_run, Hjws, Hclaims in Hno.
  destruct (Nat.eqb_spec (List.length (Audience claims)) 1) as [_|Hne]; [|contradiction].
  cbn [negb] in Hno. rewrite Hsha, Hurl in Hno. specialize (Hno Herr). discriminate.
Qed.

(** C5, amended: a token that decodes is refused with the invalid-audience
    error when its audience list does not have exactly one entry, and when
    it has one, the sha claim is not empty and the entry does not parse as a
    URL. *)
Theorem newLinkedCAClient_invalid_audience :
  forall (token : string) (s : State) (jws : JSONWebSignature) (claims : linkedCAClaims),
  jose_ParseSigned token = inr jws ->
  UnsafeClaimsWithoutVerification jws = inr claims ->
  (List.length (Audience claims) <> 1 ->
   newLinkedCAClient token s = (inl ErrInvalidAud, s))
  /\ (forall aud cause,
        Audience claims = [aud] ->
        SHA claims <> "" ->
        url_Parse aud = inl cause ->
        newLinkedCAClient token s = (inl ErrInvalidAud, s)).
Proof.
  intros token s jws claims Hjws Hclaims.
  rewrite newLinkedCAClient_run, Hjws, Hclaims. split.
  - intro Hlen. destruct (Nat.eqb_spec (List.length (Audience claims)) 1) as [E|_];
      [contradiction|reflexivity].
  - intros aud cause Haud Hsha Hurl. rewrite Haud. cbn [List.length Nat.eqb negb nth].
    destruct (SHA claims =? "")%string eqn:E;
      [apply String.eqb_eq in E; contradiction|].
    rewrite Hurl. reflexivity.
Qed.

(** C6: when the token parse, the extraction of the authority, the fetch
    of the root or the first login fails, [newLinkedCAClient] returns an
    error and no client, and on the way neither creates a renewer nor dials
    the channel. *)
Theorem newLinkedCAClient_aborts :
  forall (token : string) (s : State),
  bootstrap_fails token s ->
  exists err s1,
    newLinkedCAClient token s = (inl err, s1)
    /\ continues_without client_event s s1.
Proof.
  intros token s [Htoken|[Hsans|[Hroot|Hlogin]]].
  - rewrite newLinkedCAClient_run.
    destruct (jose_ParseSigned token) as [cause|jws] eqn:Hjws;
      [eexists; eexists; split; [reflexivity|apply continues_without_refl]|].
    destruct (UnsafeClaimsWithoutVerification jws) as [cause|claims] eqn:Hclaims;
      [eexists; eexists; split; [reflexivity|apply continues_without_refl]|].
    destruct (Nat.eqb_spec (List.length (Audience claims)) 1) as [Hlen|_]; cbn [negb];
      [|eexists; eexists; split; [reflexivity|apply continues_without_refl]].
    destruct (SHA claims =? "")%string eqn:Hsha;
      [eexists; eexists; split; [reflexivity|apply continues_without_refl]|].
    destruct (url_Parse (nth 0 (Audience claims) "")) as [cause|u] eqn:Hurl;
      [eexists; eexists; split; [reflexivity|apply continues_without_refl]|].
    exfalso. apply (Htoken claims u). exists jws.
    repeat split; try assumption.
    intro E. rewrite E in Hsha. discriminate.
  - destruct Hsans as [claims [u [Hclaims Herr]]].
    rewrite (newLinkedCAClient_claims s Hclaims).
    destruct (getAuthority (SANs claims)) as [err|authority]; [|discriminate].
    exists err, s. split; [reflexivity|apply continues_without_refl].
  - destruct Hroot as [claims [u [authority [signer [csr [Hclaims [Hsans [[Hkey Hcsr] Herr]]]]]]]].
    rewrite (newLinkedCAClient_claims s Hclaims), Hsans, Hkey, Hcsr.
    pose proof (@getRootCertificate_quiet client_event (Host u) (SHA claims)
                  (after_csr claims s) (fun _ _ _ => eq_refl) (fun _ _ => eq_refl)) as Hquiet.
    destruct (getRootCertificate (Host u) (SHA claims) (after_csr claims s))
      as [[err|root] s3]; [|discriminate].
    exists err, s3. split; [reflexivity|].
    exact (continues_without_trans (after_csr_quiet claims s) Hquiet).
  - destruct Hlogin as [claims [u [authority [signer [csr [root [s3
      [Hclaims [Hsans [[Hkey Hcsr] [Hfetch Herr]]]]]]]]]]].
    rewrite (newLinkedCAClient_claims s Hclaims), Hsans, Hkey, Hcsr, Hfetch.
    pose proof (@getRootCertificate_quiet client_event (Host u) (SHA claims)
                  (after_csr claims s) (fun _ _ _ => eq_refl) (fun _ _ => eq_refl)) as Hquiet.
    rewrite Hfetch in Hquiet. cbn [snd] in Hquiet.
    pose proof (@login_quiet client_event authority token csr signer (Host u)
                  (List.length (pools s3)) (with_pool root s3)
                  (fun _ _ _ => eq_refl) (fun _ _ => eq_refl)) as Hquiet'.
    destruct (login authority token csr signer (Host u) (List.length (pools s3))
                (with_pool root s3)) as [[err|result] s5]; [|discriminate].
    exists err, s5. split; [reflexivity|].
    apply (continues_without_trans (after_csr_quiet claims s)).
    apply (continues_without_trans Hquiet). exact Hquiet'.
Qed.

(** C8: the function the renewer renews with is the login of the first
    exchange: the same authority, token, request, signer and endpoint, and
    the same reference to the trust pool.  Each renewal therefore dials
    against the pool as the logins before it left it, sends the request of
    the first login again, binds the same key to the certificate it gets,
    and generates no key and no request. *)
Theorem renewal_repeats_login :
  forall (token : string) (s s1 : State) (c : linkedCaClient),
  newLinkedCAClient token s = (inr c, s1) ->
  exists claims u authority signer csr root s3 cert config s5,
    token_claims token claims u
    /\ getAuthority (SANs claims) = inr authority
    /\ csr_created claims s signer csr
    /\ getRootCertificate (Host u) (SHA claims) (after_csr claims s) = (inr root, s3)
    /\ login authority token csr signer (Host u) (List.length (pools s3)) (with_pool root s3)
       = (inr (cert, config), s5)
    /\ authorityID c = authority
    /\ renewer_cert (renewer c) = cert
    /\ RenewFunc (renewer c)
       = login authority token csr signer (Host u) (List.length (pools s3))
    /\ forall s',
         (exists evs,
            trace (snd (RenewFunc (renewer c) s'))
            = trace s' ++ EvDialContext (Host u) (login_config (List.length (pools s3)))
                            (pool_at (List.length (pools s3)) s') :: evs
            /\ (evs = []
                \/ evs = [EvLogin {| conn_target := Host u;
                                     conn_config := login_config (List.length (pools s3)) |}
                            (login_request authority token csr)]))
         /\ continues_without key_event s' (snd (RenewFunc (renewer c) s'))
         /\ (forall cert' config',
               fst (RenewFunc (renewer c) s') = inr (cert', config') ->
               PrivateKey cert' = Some signer
               /\ config' = login_config (List.length (pools s3))).
Proof.
  intros token s s1 c. rewrite newLinkedCAClient_run.
  destruct (jose_ParseSigned token) as [cause|jws] eqn:Hjws; [discriminate|].
  destruct (UnsafeClaimsWithoutVerification jws) as [cause|claims] eqn:Hclaims; [discriminate|].
  destruct (Nat.eqb_spec (List.length (Audience claims)) 1) as [Hlen|_]; cbn [negb];
    [|discriminate].
  destruct (SHA claims =? "")%string eqn:Hsha; [discriminate|].
  destruct (url_Parse (nth 0 (Audience claims) "")) as [cause|u] eqn:Hurl; [discriminate|].
  destruct (getAuthority (SANs claims)) as [err|authority] eqn:Hsans; [discriminate|].
  destruct (keyutil_GenerateDefaultSigner (List.length (trace s))) as [cause|signer] eqn:Hkey;
    [discriminate|].
  destruct (x509util_CreateCertificateRequest _ _ _ signer) as [cause|csr] eqn:Hcsr;
    [discriminate|].
  destruct (getRootCertificate (Host u) (SHA claims) (after_csr claims s))
    as [[err|root] s3] eqn:Hfetch; [discriminate|].
  destruct (login authority token csr signer (Host u) (List.length (pools s3))
              (with_pool root s3)) as [[err|[cert config]] s5] eqn:Hlogin; [discriminate|].
  unfold start_client, call, bind, NewRenewer, grpc_Dial, lift, wrap, ret.
  destruct (tlsutil_NewRenewer_error _ cert config); [discriminate|].
  cbn [trace pools].
  destruct (grpc_dial_error _ (Host u) _); [discriminate|].
  intro E. injection E as <- _.
  exists claims, u, authority, signer, csr, root, s3, cert, config, s5.
  split.
  { exists jws. repeat split; try assumption. intro E. rewrite E in Hsha. discriminate. }
  split; [exact Hsans|]. split; [split; assumption|].
  split; [exact Hfetch|]. split; [exact Hlogin|].
  split; [reflexivity|]. split; [reflexivity|]. split; [reflexivity|].
  cbn [renewer RenewFunc]. intro s'. split; [apply login_events|]. split.
  - apply login_quiet; reflexivity.
  - intros cert' config'. rewrite login_run. cbv zeta.
    destruct (grpc_dial_error _ (Host u) _); [discriminate|].
    destruct (majordomo_Login _ _ _); [discriminate|].
    apply assemble_result.
Qed.

End ClientProperties.

(** * The properties on the concrete platform *)

(** C1 at work: the authority serves a root with fingerprint 37 to a client
    that expects AA. *)
Lemma fingerprint_mismatch_refused :
  fst (@getRootCertificate Sample.platform (Sample.authority_answering Sample.goodResponse)
         Sample.host "AA" Sample.start)
  = inl ErrFingerprintMismatch.
Proof.
  apply (proj1 (@getRootCertificate_fingerprint_pinned Sample.platform
                  (Sample.authority_answering Sample.goodResponse)
                  Sample.host "AA" Sample.start))
    with (body := (Sample.keyPEM ++ Sample.rootPEM)%string)
         (block := Sample.block "CERTIFICATE" Sample.rootDER)
         (cert := Sample.rootDER).
  - split; reflexivity.
  - vm_compute. reflexivity.
  - reflexivity.
  - reflexivity.
Defined.

(** C7 at work: the key block is passed over and the certificate after it
    selected. *)
Lemma key_block_passed_over :
  fst (@getRootCertificate Sample.platform (Sample.authority_answering Sample.goodResponse)
         Sample.host "37" Sample.start)
  = @verifyRoot Sample.platform "37" (Sample.block "CERTIFICATE" Sample.rootDER).
Proof.
  apply (proj1 (proj2 (@getRootCertificate_first_certificate_block Sample.platform
                         (Sample.authority_answering Sample.goodResponse)
                         Sample.host "37" Sample.start
                         (Sample.keyPEM ++ Sample.rootPEM)%string
                         (conj eq_refl eq_refl))))
    with (skipped := [Sample.block "PRIVATE KEY" [x00]]) (later := []).
  - vm_compute. reflexivity.
  - reflexivity.
  - reflexivity.
Defined.




(** C10 at work: an empty leaf field. *)
Lemma missing_leaf_accepted :
  exists cert s1,
    @login Sample.platform (Sample.authority_answering Sample.noLeafResponse)
      Sample.authorityId "token.good.sig" [x30] 7 Sample.host 0 Sample.ready
    = (inr (cert, login_config 0), s1)
    /\ Leaf cert = None
    /\ Certificate cert = [Sample.intermediateDER]
    /\ PrivateKey cert = Some 7.
Proof.
  apply (@login_accepts_missing_leaf Sample.platform
           (Sample.authority_answering Sample.noLeafResponse)
           Sample.authorityId "token.good.sig" [x30] 7 Sample.host 0 Sample.ready
           Sample.noLeafResponse [Sample.intermediateDER] Sample.rootDER).
  - split; reflexivity.
  - vm_compute. reflexivity.
  - intros b Hin. vm_compute in Hin. destruct Hin.
Defined.

(** C5, as stated, fails.  The audience [ca.example.com] parses as a URL
    with no host, and the token is not refused with the invalid-audience
    error: the client goes on to fetch the root (from an empty address,
    where the fetch fails).  And with an audience that does not parse and an
    empty sha claim, the error is the one of the sha claim. *)
Lemma audience_without_host_accepted :
  (exists claims u,
     @jose_ParseSigned Sample.platform "token.no-host.sig" = inr claims
     /\ Audience claims = ["ca.example.com"]
     /\ @url_Parse Sample.platform "ca.example.com" = inr u
     /\ Host u = "")
  /\ fst (@newLinkedCAClient Sample.platform (Sample.authority_answering Sample.goodResponse)
            "token.no-host.sig" Sample.start)
     = inl (ErrGettingRootCertificate "transport: error while dialing")
  /\ (exists claims cause,
        @jose_ParseSigned Sample.platform "token.no-sha-bad-url.sig" = inr claims
        /\ Audience claims = [":443"]
        /\ @url_Parse Sample.platform ":443" = inl cause)
  /\ fst (@newLinkedCAClient Sample.platform (Sample.authority_answering Sample.goodResponse)
            "token.no-sha-bad-url.sig" Sample.start)
     = inl ErrInvalidSha.
Proof.
  split; [|split; [|split]].
  - eexists. eexists. repeat split; reflexivity.
  - vm_compute. reflexivity.
  - eexists. eexists. repeat split; reflexivity.
  - vm_compute. reflexivity.
Qed.

(** C5, amended, at work: a token with two audiences. *)
Lemma two_audiences_refused :
  @newLinkedCAClient Sample.platform (Sample.authority_answering Sample.goodResponse)
    "token.two-audiences.sig" Sample.start
  = (inl ErrInvalidAud, Sample.start).
Proof.
  eapply (proj1 (@newLinkedCAClient_invalid_audience Sample.platform
                   (Sample.authority_answering Sample.goodResponse)
                   "token.two-audiences.sig" Sample.start _ _ eq_refl eq_refl)).
  vm_compute. discriminate.
Defined.

(** C6 at work: the token pins fingerprint AA and the authority serves a
    root with fingerprint 37; no client, no renewer, no channel. *)
Lemma wrong_root_aborts :
  exists err s1,
    @newLinkedCAClient Sample.platform (Sample.authority_answering Sample.goodResponse)
      "token.other-sha.sig" Sample.start
    = (inl err, s1)
    /\ continues_without client_event Sample.start s1.
Proof.
  apply (@newLinkedCAClient_aborts Sample.platform
           (Sample.authority_answering Sample.goodResponse)).
  right. right. left.
  exists {| Audience := Audience Sample.goodClaims; Subject := Subject Sample.goodClaims;
            SANs := SANs Sample.goodClaims; SHA := "AA" |}.
  exists {| Scheme := "https"; Host := Sample.host; Path := "" |}.
  exists Sample.authorityId, 7, (x30 :: list_byte_of_string "ca.example.com").
  split; [|split; [|split; [|]]].
  - eexists. repeat split; try reflexivity. discriminate.
  - reflexivity.
  - split; reflexivity.
  - vm_compute. reflexivity.
Defined.

(** C8 at work: the client of a good token renews with the login it was
    built with. *)
Lemma renewer_of_good_token :
  exists c s1 authority csr signer endpoint pool,
    @newLinkedCAClient Sample.platform (Sample.authority_answering Sample.goodResponse)
      "token.good.sig" Sample.start
    = (inr c, s1)
    /\ authorityID c = authority
    /\ RenewFunc (renewer c)
       = @login Sample.platform (Sample.authority_answering Sample.goodResponse)
           authority "token.good.sig" csr signer endpoint pool.
Proof.
  assert (Hok : is_error
                  (fst (@newLinkedCAClient Sample.platform
                          (Sample.authority_answering Sample.goodResponse)
                          "token.good.sig" Sample.start)) = false)
    by (vm_compute; reflexivity).
  destruct (@newLinkedCAClient Sample.platform
              (Sample.authority_answering Sample.goodResponse)
              "token.good.sig" Sample.start) as [[err|c] s1] eqn:Hrun;
    [discriminate Hok|].
  destruct (@renewal_repeats_login Sample.platform
              (Sample.authority_answering Sample.goodResponse) _ _ _ _ Hrun)
    as [claims [u [authority [signer [csr [root [s3 [cert [config [s5
         [_ [_ [_ [_ [_ [Hid [_ [Hrenew _]]]]]]]]]]]]]]]]]].
  exists c, s1, authority, csr, signer, (Host u), (List.length (pools s3)).
  split; [reflexivity|]. split; [exact Hid|exact Hrenew].
Defined.

(** C9 at work: nine durations that parse, visited from the last key to the
    first. *)
Lemma durations_dropped :
  exists r,
    ToCertificates Sample.NewDuration (rev durKeys) Sample.someClaims = inr r
    /\ provisioner.MinTLSDur r = None
    /\ provisioner.DefaultTLSDur r = None
    /\ provisioner.MaxHostSSHDur r = None.
Proof.
  destruct (ToCertificates Sample.NewDuration (rev durKeys) Sample.someClaims)
    as [err|r] eqn:Hrun; [discriminate|].
  exists r. split; [reflexivity|].
  destruct (proj2 (@ToCertificates_durations_nil string Sample.NewDuration (rev durKeys)
                     Sample.someClaims (Permutation_sym (Permutation_rev durKeys))) r Hrun)
    as [H1 [_ [H3 [_ [_ [_ [_ [H8 _]]]]]]]].
  split; [exact H1|]. split; [exact H3|exact H8].
Defined.

(** * The other methods of the linked-CA client

    The methods of [linkedCaClient] that store certificates and read the
    configuration, and the two serializers they use.  A pointer that may be
    nil is an [option]; a call that dereferences nil or indexes past the end
    of a slice panics. *)

(** A Go call returns or panics. *)
Inductive Go (A : Type) : Type :=
| Returns (a : A)
| Panics.

Arguments Returns {A} a.
Arguments Panics {A}.

(** [errors.Wrap(err, msg)]: nil for a nil [err]. *)
Inductive WrappedError : Type :=
| Wrapped (msg : string) (cause : Cause).

Definition errors_Wrap (err : option Cause) (msg : string) : option WrappedError :=
  match err with
  | Some cause => Some (Wrapped msg cause)
  | None => None
  end.

(** The messages of package [linkedca] the methods below send and get. *)
Module linkedca.

Record CertificateRequest : Type := {
  PemCertificate : string;
  PemCertificateChain : string;
  PemParentCertificate : string
}.

Record ConfigurationRequest : Type := {
  AuthorityId : string
}.

Record ConfigurationResponse (Provisioner Admin : Type) : Type := {
  Provisioners : list Provisioner;
  Admins : list Admin
}.

End linkedca.

(** The authority's answers to these calls.  The first argument is the
    number of calls made so far. *)
Class Majordomo : Type := {
  linkedca_Provisioner : Type;
  linkedca_Admin : Type;
  majordomo_PostCertificate : nat -> ClientConn -> linkedca.CertificateRequest -> option Cause;
  majordomo_GetConfiguration :
    nat -> ClientConn -> linkedca.ConfigurationRequest ->
    Cause + linkedca.ConfigurationResponse linkedca_Provisioner linkedca_Admin
}.

(** The calls of the methods below, in the order they are made. *)
Inductive Call : Type :=
| CallPostCertificate (conn : ClientConn) (req : linkedca.CertificateRequest)
| CallGetConfiguration (conn : ClientConn) (req : linkedca.ConfigurationRequest).

Section Methods.
Context {P : Platform} {W : World} {S : Majordomo}.

(** The PEM text of a certificate. *)
Definition certificate_pem (crt : x509_Certificate) : string :=
  string_of_list_byte
    (pem_EncodeToMemory {| BlockType := "CERTIFICATE"; Headers := []; Bytes := Raw crt |}).

(** [serializeCertificate]: the empty text for nil. *)
Definition serializeCertificate (crt : option x509_Certificate) : string :=
  match crt with
  | None => ""
  | Some crt => certificate_pem crt
  end.

(** The loop of [serializeCertificateChain], from the text built so far:
    [for _, crt := range fullchain { chain += string(pem.EncodeToMemory(...crt.Raw...)) }].
    Reading [crt.Raw] of a nil entry panics. *)
Fixpoint serializeCertificateChain_loop (chain : string)
  (fullchain : list (option x509_Certificate)) : Go string :=
  match fullchain with
  | [] => Returns chain
  | None :: _ => Panics
  | Some crt :: rest => serializeCertificateChain_loop (chain ++ certificate_pem crt)%string rest
  end.

Definition serializeCertificateChain (fullchain : list (option x509_Certificate)) : Go string :=
  serializeCertificateChain_loop "" fullchain.

(** [c.client.PostCertificate(ctx, req)], and what the methods make of its
    error. *)
Definition PostCertificate (c : linkedCaClient) (req : linkedca.CertificateRequest)
  (calls : list Call) : option WrappedError * list Call :=
  (errors_Wrap (majordomo_PostCertificate (List.length calls) (client c) req)
     "error posting certificate",
   calls ++ [CallPostCertificate (client c) req]).

(** [StoreCertificateChain(fullchain...)]: [fullchain[0]] panics on an empty
    chain; the two fields of the request are built before the call. *)
Definition StoreCertificateChain (c : linkedCaClient)
  (fullchain : list (option x509_Certificate)) (calls : list Call)
  : Go (option WrappedError) * list Call :=
  match fullchain with
  | [] => (Panics, calls)
  | first :: rest =>
      match serializeCertificateChain [first] with
      | Panics => (Panics, calls)
      | Returns pemCertificate =>
          match serializeCertificateChain rest with
          | Panics => (Panics, calls)
          | Returns pemCertificateChain =>
              let (err, calls') :=
                PostCertificate c
                  {| linkedca.PemCertificate := pemCertificate;
                     linkedca.PemCertificateChain := pemCertificateChain;
                     linkedca.PemParentCertificate := "" |} calls in
              (Returns err, calls')
          end
      end
  end.

(** [StoreRenewedCertificate(parent, fullchain...)]: the parent goes through
    [serializeCertificateChain] and not through [serializeCertificate]. *)
Definition StoreRenewedCertificate (c : linkedCaClient) (parent : option x509_Certificate)
  (fullchain : list (option x509_Certificate)) (calls : list Call)
  : Go (option WrappedError) * list Call :=
  match fullchain with
  | [] => (Panics, calls)
  | first :: rest =>
      match serializeCertificateChain [first] with
      | Panics => (Panics, calls)
      | Returns pemCertificate =>
          match serializeCertificateChain rest with
          | Panics => (Panics, calls)
          | Returns pemCertificateChain =>
              match serializeCertificateChain [parent] with
              | Panics => (Panics, calls)
              | Returns pemParentCertificate =>
                  let (err, calls') :=
                    PostCertificate c
                      {| linkedca.PemCertificate := pemCertificate;
                         linkedca.PemCertificateChain := pemCertificateChain;
                         linkedca.PemParentCertificate := pemParentCertificate |} calls in
                  (Returns err, calls')
              end
          end
      end
  end.

(** [c.client.GetConfiguration(ctx, &linkedca.ConfigurationRequest{AuthorityId: c.authorityID})] *)
Definition GetConfiguration (c : linkedCaClient) (calls : list Call)
  : (Cause + linkedca.ConfigurationResponse linkedca_Provisioner linkedca_Admin) * list Call :=
  let req := {| linkedca.AuthorityId := authorityID c |} in
  (majordomo_GetConfiguration (List.length calls) (client c) req,
   calls ++ [CallGetConfiguration (client c) req]).

(** [GetProvisioners(ctx)] *)
Definition GetProvisioners (c : linkedCaClient) (calls : list Call)
  : (WrappedError + list linkedca_Provisioner) * list Call :=
  match GetConfiguration c calls with
  | (inl err, calls') => (inl (Wrapped "error getting provisioners" err), calls')
  | (inr resp, calls') => (inr (linkedca.Provisioners resp), calls')
  end.

(** [GetAdmins(ctx)] *)
Definition GetAdmins (c : linkedCaClient) (calls : list Call)
  : (WrappedError + list linkedca_Admin) * list Call :=
  match GetConfiguration c calls with
  | (inl err, calls') => (inl (Wrapped "error getting admins" err), calls')
  | (inr resp, calls') => (inr (linkedca.Admins resp), calls')
  end.

(** No two certificates of a pool have the same raw bytes. *)
Definition raw_distinct (pool : CertPool) : Prop := NoDup (map Raw pool).

End Methods.

(** ** The serializers and the methods that store certificates *)

Lemma append_nil_r (s : string) : (s ++ "")%string = s.
Proof. induction s as [|c s IH]; simpl; [|rewrite IH]; reflexivity. Qed.

Lemma append_assoc (s t u : string) : ((s ++ t) ++ u)%string = (s ++ (t ++ u))%string.
Proof. induction s as [|c s IH]; simpl; [|rewrite IH]; reflexivity. Qed.

Lemma bytes_of_string_app (s t : string) :
  bytes_of_string (s ++ t)%string = bytes_of_string s ++ bytes_of_string t.
Proof.
  unfold bytes_of_string, list_byte_of_string.
  induction s as [|c s IH]; simpl; [|rewrite IH]; reflexivity.
Qed.

Section MethodsProperties.
Context {P : Platform} {W : World} {S : Majordomo}.

Lemma serializeCertificateChain_loop_spec (chain : string)
  (fullchain : list (option x509_Certificate)) :
  serializeCertificateChain_loop chain fullchain =
  match serializeCertificateChain fullchain with
  | Returns text => Returns (chain ++ text)%string
  | Panics => Panics
  end.
Proof.
  unfold serializeCertificateChain. revert chain.
  induction fullchain as [|[crt|] rest IH]; intro chain; simpl.
  - rewrite append_nil_r. reflexivity.
  - rewrite IH, (IH (certificate_pem crt)).
    destruct (serializeCertificateChain_loop "" rest); [|reflexivity].
    rewrite append_assoc. reflexivity.
  - reflexivity.
Qed.

Lemma serializeCertificateChain_cons (crt : x509_Certificate)
  (rest : list (option x509_Certificate)) :
  serializeCertificateChain (Some crt :: rest) =
  match serializeCertificateChain rest with
  | Returns text => Returns (certificate_pem crt ++ text)%string
  | Panics => Panics
  end.
Proof.
  unfold serializeCertificateChain at 1. simpl. apply serializeCertificateChain_loop_spec.
Qed.

Lemma serializeCertificateChain_panics (fullchain : list (option x509_Certificate)) :
  serializeCertificateChain fullchain = Panics <-> In None fullchain.
Proof.
  induction fullchain as [|[crt|] rest IH].
  - split; [discriminate|intros []].
  - rewrite serializeCertificateChain_cons.
    destruct (serializeCertificateChain rest).
    + split; [discriminate|]. intros [E|Hin]; [discriminate|].
      apply IH in Hin. discriminate.
    + split; [intros _; right; apply IH; reflexivity|reflexivity].
  - split; [intros _; left; reflexivity|reflexivity].
Qed.

(** X1: [serializeCertificateChain] panics exactly when an entry of the
    chain is nil; a chain without nil gives the PEM texts of its entries one
    after the other; and the text of [a ++ b] is the text of [a] followed by
    the text of [b]. *)
Theorem serializeCertificateChain_concat :
  forall a b : list (option x509_Certificate),
  (serializeCertificateChain a = Panics <-> In None a)
  /\ (forall chain : list x509_Certificate,
        serializeCertificateChain (map Some chain)
        = Returns (String.concat "" (map certificate_pem chain)))
  /\ serializeCertificateChain (a ++ b) =
     match serializeCertificateChain a, serializeCertificateChain b with
     | Returns x, Returns y => Returns (x ++ y)%string
     | _, _ => Panics
     end.
Proof.
  intros a b. split; [apply serializeCertificateChain_panics|]. split.
  - induction chain as [|crt chain IH]; [reflexivity|].
    cbn [map]. rewrite serializeCertificateChain_cons, IH.
    destruct chain as [|crt' chain]; [|reflexivity].
    simpl. rewrite append_nil_r. reflexivity.
  - induction a as [|[crt|] a IH].
    + simpl. change (serializeCertificateChain []) with (@Returns string "").
      destruct (serializeCertificateChain b); reflexivity.
    + cbn [app]. rewrite !serializeCertificateChain_cons, IH.
      destruct (serializeCertificateChain a); [|reflexivity].
      destruct (serializeCertificateChain b); [|reflexivity].
      rewrite append_assoc. reflexivity.
    + reflexivity.
Qed.

(** The block [serializeCertificateChain] encodes a certificate as. *)
Definition certificate_as_block (crt : x509_Certificate) : Block :=
  {| BlockType := "CERTIFICATE"; Headers := []; Bytes := Raw crt |}.

Lemma bytes_of_certificate_pem (crt : x509_Certificate) (text : string) :
  bytes_of_string (certificate_pem crt ++ text)%string
  = pem_EncodeToMemory (certificate_as_block crt) ++ bytes_of_string text.
Proof.
  rewrite bytes_of_string_app. unfold certificate_pem, bytes_of_string at 1.
  rewrite list_byte_of_string_of_list_byte. reflexivity.
Qed.

Lemma parseBundle_serialized (chain bundle : list x509_Certificate) :
  (forall crt rest,
     In crt chain ->
     pem_Decode (pem_EncodeToMemory (certificate_as_block crt) ++ rest)
     = Some (certificate_as_block crt, rest)) ->
  (forall crt, In crt chain -> x509_ParseCertificate (Raw crt) = inr crt) ->
  parseBundle (bytes_of_string (String.concat "" (map certificate_pem chain))) bundle
  = inr (bundle ++ chain).
Proof.
  revert bundle. induction chain as [|crt chain IH]; intros bundle Hdecode Hparse.
  - rewrite parseBundle_eq. simpl. change (bytes_of_string "") with (@nil byte).
    rewrite pem_Decode_nil, app_nil_r. reflexivity.
  - assert (Htext : String.concat "" (map certificate_pem (crt :: chain))
                    = (certificate_pem crt
                       ++ String.concat "" (map certificate_pem chain))%string).
    { destruct chain; simpl; [rewrite append_nil_r|]; reflexivity. }
    rewrite Htext, parseBundle_eq, bytes_of_certificate_pem.
    rewrite (Hdecode crt _ (or_introl eq_refl)).
    change (certificate_block (certificate_as_block crt)) with true. cbv iota.
    change (Bytes (certificate_as_block crt)) with (Raw crt).
    rewrite (Hparse crt (or_introl eq_refl)), IH.
    + rewrite <- app_assoc. reflexivity.
    + intros crt' rest Hin. apply Hdecode. right. exact Hin.
    + intros crt' Hin. apply Hparse. right. exact Hin.
Qed.

(** X2: what [serializeCertificateChain] writes, the first loop of [login]
    reads back: when decoding undoes the encoding of each certificate of the
    chain and each certificate is what its raw bytes parse to, the text of
    the chain parses to the chain, entry by entry and in order. *)
Theorem serialized_chain_parses_back :
  forall chain : list x509_Certificate,
  (forall crt rest,
     In crt chain ->
     pem_Decode (pem_EncodeToMemory (certificate_as_block crt) ++ rest)
     = Some (certificate_as_block crt, rest)) ->
  (forall crt, In crt chain -> x509_ParseCertificate (Raw crt) = inr crt) ->
  exists text,
    serializeCertificateChain (map Some chain) = Returns text
    /\ parseBundle (bytes_of_string text) [] = inr chain.
Proof.
  intros chain Hdecode Hparse.
  exists (String.concat "" (map certificate_pem chain)). split.
  - induction chain as [|crt chain IH]; [reflexivity|].
    cbn [map]. rewrite serializeCertificateChain_cons, IH.
    + destruct chain; simpl; [rewrite append_nil_r|]; reflexivity.
    + intros crt' rest Hin. apply Hdecode. right. exact Hin.
    + intros crt' Hin. apply Hparse. right. exact Hin.
  - apply (parseBundle_serialized chain [] Hdecode Hparse).
Qed.

(** X3: [StoreCertificateChain] on a chain without nil makes one call, whose
    request carries the first certificate in one field and the rest in the
    other, so that the two fields together are the text of the whole chain,
    and no parent; on an empty chain or a chain with a nil entry it panics
    before any call. *)
Theorem StoreCertificateChain_request :
  forall (c : linkedCaClient) (calls : list Call),
  (forall first rest,
     exists req,
       StoreCertificateChain c (map Some (first :: rest)) calls
       = (Returns (errors_Wrap (majordomo_PostCertificate (List.length calls) (client c) req)
                     "error posting certificate"),
          calls ++ [CallPostCertificate (client c) req])
       /\ linkedca.PemCertificate req = certificate_pem first
       /\ serializeCertificateChain (map Some (first :: rest))
          = Returns (linkedca.PemCertificate req ++ linkedca.PemCertificateChain req)%string
       /\ linkedca.PemParentCertificate req = "")
  /\ (forall fullchain,
        fullchain = [] \/ In None fullchain ->
        StoreCertificateChain c fullchain calls = (Panics, calls)).
Proof.
  intros c calls. split.
  - intros first rest.
    destruct (serializeCertificateChain (map Some rest)) as [text|] eqn:Hrest;
      [|apply serializeCertificateChain_panics in Hrest; apply in_map_iff in Hrest;
        destruct Hrest as [x [Hx _]]; discriminate].
    exists {| linkedca.PemCertificate := certificate_pem first;
              linkedca.PemCertificateChain := text;
              linkedca.PemParentCertificate := "" |}.
    split; [|split; [reflexivity|split; [|reflexivity]]].
    + unfold StoreCertificateChain. cbn [map].
      rewrite serializeCertificateChain_cons.
      change (serializeCertificateChain []) with (@Returns string "").
      cbv iota. rewrite append_nil_r, Hrest. reflexivity.
    + cbn [map]. rewrite serializeCertificateChain_cons, Hrest. reflexivity.
  - intros fullchain [->|Hin]; [reflexivity|].
    unfold StoreCertificateChain. destruct fullchain as [|first rest]; [reflexivity|].
    destruct first as [crt|]; [|reflexivity].
    rewrite serializeCertificateChain_cons.
    change (serializeCertificateChain []) with (@Returns string "").
    cbv iota. destruct Hin as [E|Hin]; [discriminate|].
    apply serializeCertificateChain_panics in Hin. rewrite Hin. reflexivity.
Qed.

(** X4: [StoreRenewedCertificate] panics, before any call, exactly when the
    parent is nil, the chain is empty or an entry of the chain is nil: a nil
    parent is not written as the empty text [serializeCertificate] has for
    nil. *)
Theorem StoreRenewedCertificate_panics :
  forall (c : linkedCaClient) (parent : option x509_Certificate)
         (fullchain : list (option x509_Certificate)) (calls : list Call),
  (fst (StoreRenewedCertificate c parent fullchain calls) = Panics
   <-> (parent = None \/ fullchain = [] \/ In None fullchain))
  /\ (fst (StoreRenewedCertificate c parent fullchain calls) = Panics ->
      snd (StoreRenewedCertificate c parent fullchain calls) = calls)
  /\ serializeCertificate None = "".
Proof.
  intros c parent fullchain calls. unfold StoreRenewedCertificate.
  destruct fullchain as [|first rest].
  { split; [split; [intros _; right; left; reflexivity|reflexivity]|].
    split; reflexivity. }
  destruct first as [crt|].
  2:{ split; [split; [intros _; right; right; left; reflexivity|reflexivity]|].
      split; reflexivity. }
  rewrite serializeCertificateChain_cons.
  change (serializeCertificateChain []) with (@Returns string "").
  cbv iota.
  destruct (serializeCertificateChain rest) as [text|] eqn:Hrest.
  2:{ apply serializeCertificateChain_panics in Hrest.
      split; [split; [intros _; right; right; right; exact Hrest|reflexivity]|].
      split; reflexivity. }
  assert (Hnone : ~ In None rest).
  { intro Hin. apply serializeCertificateChain_panics in Hin. congruence. }
  destruct parent as [p|].
  - rewrite serializeCertificateChain_cons.
    change (serializeCertificateChain []) with (@Returns string "").
    cbv iota. unfold PostCertificate. cbn [fst snd].
    split; [split; [discriminate|]|split; [discriminate|reflexivity]].
    intros [E|[E|[E|Hin]]]; try discriminate. contradiction.
  - split; [split; [intros _; left; reflexivity|reflexivity]|].
    split; reflexivity.
Qed.

(** ** The trust pool under [login] *)

Lemma update_nth_length {A : Type} (f : A -> A) (l : list A) (n : nat) :
  List.length (update_nth n f l) = List.length l.
Proof.
  revert n. induction l as [|x l IH]; intro n; [destruct n; reflexivity|].
  destruct n; simpl; [|rewrite IH]; reflexivity.
Qed.

Lemma update_nth_other {A : Type} (f : A -> A) (l : list A) (n m : nat) (d : A) :
  m <> n -> nth m (update_nth n f l) d = nth m l d.
Proof.
  revert n m. induction l as [|x l IH]; intros n m Hne; [destruct n; reflexivity|].
  destruct n, m; simpl; try reflexivity; [contradiction|]. apply IH. congruence.
Qed.

Lemma update_nth_beyond {A : Type} (f : A -> A) (l : list A) (n : nat) :
  List.length l <= n -> update_nth n f l = l.
Proof.
  revert n. induction l as [|x l IH]; intros n Hn; [destruct n; reflexivity|].
  destruct n; simpl in *; [lia|]. rewrite IH by lia. reflexivity.
Qed.

Lemma pool_contains_In (pool : CertPool) (cert : x509_Certificate) :
  pool_contains pool cert = true <-> In (Raw cert) (map Raw pool).
Proof.
  unfold pool_contains. rewrite existsb_exists, in_map_iff. split.
  - intros [c [Hin Heq]]. exists c. split; [|exact Hin].
    unfold bytes_eqb in Heq. destruct (list_eq_dec byte_eq_dec (Raw c) (Raw cert));
      [assumption|discriminate].
  - intros [c [Heq Hin]]. exists c. split; [exact Hin|].
    rewrite Heq. apply bytes_eqb_refl.
Qed.

Lemma AddCert_grows (pool : CertPool) (cert : x509_Certificate) :
  exists added,
    CertPool_AddCert pool cert = pool ++ added /\ List.length added <= 1.
Proof.
  unfold CertPool_AddCert. destruct (pool_contains pool cert).
  - exists []. rewrite app_nil_r. split; [reflexivity|simpl; lia].
  - exists [cert]. split; [reflexivity|simpl; lia].
Qed.

Lemma AddCert_raw_distinct (pool : CertPool) (cert : x509_Certificate) :
  raw_distinct pool -> raw_distinct (CertPool_AddCert pool cert).
Proof.
  unfold raw_distinct, CertPool_AddCert. intro Hpool.
  destruct (pool_contains pool cert) eqn:Hc; [exact Hpool|].
  rewrite map_app. simpl. apply NoDup_app; [exact Hpool|repeat constructor; intros []|].
  intros raw Hin [<-|[]]. apply pool_contains_In in Hin. congruence.
Qed.

(** The pools after [assemble]: as before, or with one certificate offered
    to the pool behind [rootCAs]. *)
Lemma assemble_pools (signer : crypto_PrivateKey) (rootCAs : PoolRef) (resp : LoginResponse)
  (s : State) :
  (is_error (fst (assemble signer rootCAs resp s)) = true
   /\ pools (snd (assemble signer rootCAs resp s)) = pools s)
  \/ (exists root,
        is_error (fst (assemble signer rootCAs resp s)) = false
        /\ pools (snd (assemble signer rootCAs resp s))
           = update_nth rootCAs (fun p => CertPool_AddCert p root) (pools s)).
Proof.
  unfold assemble.
  destruct (bundle_of_blocks _ []) as [err|[|first more]];
    [left; split; reflexivity|left; split; reflexivity|].
  cbv zeta. destruct (leaf_of_blocks _ _); [left; split; reflexivity|].
  right. eexists. split; reflexivity.
Qed.

Lemma login_pools (authority token : string) (csr : x509_CertificateRequest)
  (signer : crypto_PrivateKey) (endpoint : string) (rootCAs : PoolRef) (s : State) :
  (is_error (fst (login authority token csr signer endpoint rootCAs s)) = true
   /\ pools (snd (login authority token csr signer endpoint rootCAs s)) = pools s)
  \/ (exists root,
        is_error (fst (login authority token csr signer endpoint rootCAs s)) = false
        /\ pools (snd (login authority token csr signer endpoint rootCAs s))
           = update_nth rootCAs (fun p => CertPool_AddCert p root) (pools s)).
Proof.
  rewrite login_run. cbv zeta.
  destruct (grpc_dial_error _ endpoint _); [left; split; reflexivity|].
  destruct (majordomo_Login _ _ _) as [cause|resp]; [left; split; reflexivity|].
  match goal with
  | |- context [assemble signer rootCAs resp ?st] =>
      destruct (assemble_pools signer rootCAs resp st) as [[He Hp]|[root [He Hp]]]
  end.
  - left. split; [exact He|exact Hp].
  - right. exists root. split; [exact He|exact Hp].
Qed.

(** X5: [login] changes no pool but the one it is given, and that one only
    by adding at most one certificate at its end; a login that fails changes
    no pool at all; no pool is created or dropped; and a pool whose
    certificates have pairwise different raw bytes stays so. *)
Theorem login_pool_grows :
  forall (authority token : string) (csr : x509_CertificateRequest)
         (signer : crypto_PrivateKey) (endpoint : string) (rootCAs : PoolRef) (s : State),
  (forall r, r <> rootCAs ->
             pool_at r (snd (login authority token csr signer endpoint rootCAs s))
             = pool_at r s)
  /\ (is_error (fst (login authority token csr signer endpoint rootCAs s)) = true ->
      pools (snd (login authority token csr signer endpoint rootCAs s)) = pools s)
  /\ (exists added,
        pool_at rootCAs (snd (login authority token csr signer endpoint rootCAs s))
        = pool_at rootCAs s ++ added
        /\ List.length added <= 1)
  /\ List.length (pools (snd (login authority token csr signer endpoint rootCAs s)))
     = List.length (pools s)
  /\ (raw_distinct (pool_at rootCAs s) ->
      raw_distinct (pool_at rootCAs
                      (snd (login authority token csr signer endpoint rootCAs s)))).
Proof.
  intros authority token csr signer endpoint rootCAs s.
  destruct (login_pools authority token csr signer endpoint rootCAs s)
    as [[He Hp]|[root [He Hp]]]; unfold pool_at; rewrite Hp.
  - split; [reflexivity|]. split; [reflexivity|]. split.
    + exists []. rewrite app_nil_r. split; [reflexivity|simpl; lia].
    + split; [reflexivity|auto].
  - split; [intros r Hr; apply update_nth_other; exact Hr|].
    split; [rewrite He; discriminate|].
    destruct (Nat.lt_ge_cases rootCAs (List.length (pools s))) as [Hin|Hout].
    + rewrite update_nth_nth by exact Hin. split; [apply AddCert_grows|].
      split; [apply update_nth_length|apply AddCert_raw_distinct].
    + rewrite update_nth_beyond by exact Hout. split.
      * exists []. rewrite app_nil_r. split; [reflexivity|simpl; lia].
      * split; [reflexivity|auto].
Qed.



(** ** The client that [newLinkedCAClient] builds *)


Lemma start_client_run (authority token : string) (csr : x509_CertificateRequest)
  (signer : crypto_PrivateKey) (host : string) (pool : PoolRef) (cert : tls_Certificate)
  (config : tls_Config) (s s1 : State) (c : linkedCaClient) :
  start_client authority token csr signer host pool cert config s = (inr c, s1) ->
  pools s1 = pools s
  /\ authorityID c = authority
  /\ client c = {| conn_target := host;
                   conn_config :=
                     {| InsecureSkipVerify := InsecureSkipVerify config;
                        RootCAs := RootCAs config;
                        GetClientCertificate := Some RenewerGetClientCertificate |} |}
  /\ trace s1 = trace s ++ [EvNewRenewer; EvDial host (conn_config (client c))].
Proof.
  unfold start_client, call, bind, NewRenewer, grpc_Dial, lift, wrap, ret.
  destruct (tlsutil_NewRenewer_error _ cert config); [discriminate|].
  cbn [trace pools].
  destruct (grpc_dial_error _ host _); [discriminate|].
  intro E. injection E as <- <-. cbn [pools trace client authorityID conn_config].
  rewrite <- app_assoc. repeat split; reflexivity.
Qed.

(** The stages of a run of [newLinkedCAClient] that returns a client. *)
Lemma newLinkedCAClient_stages (token : string) (s s1 : State) (c : linkedCaClient) :
  newLinkedCAClient token s = (inr c, s1) ->
  exists claims u authority signer csr root s3 cert config s5,
    token_claims token claims u
    /\ getAuthority (SANs claims) = inr authority
    /\ getRootCertificate (Host u) (SHA claims) (after_csr claims s) = (inr root, s3)
    /\ login authority token csr signer (Host u) (List.length (pools s3)) (with_pool root s3)
       = (inr (cert, config), s5)
    /\ start_client authority token csr signer (Host u) (List.length (pools s3))
         cert config s5 = (inr c, s1).
Proof.
  rewrite newLinkedCAClient_run.
  destruct (jose_ParseSigned token) as [cause|jws] eqn:Hjws; [discriminate|].
  destruct (UnsafeClaimsWithoutVerification jws) as [cause|claims] eqn:Hclaims; [discriminate|].
  destruct (Nat.eqb_spec (List.length (Audience claims)) 1) as [Hlen|_]; cbn [negb];
    [|discriminate].
  destruct (SHA claims =? "")%string eqn:Hsha; [discriminate|].
  destruct (url_Parse (nth 0 (Audience claims) "")) as [cause|u] eqn:Hurl; [discriminate|].
  destruct (getAuthority (SANs claims)) as [err|authority] eqn:Hsans; [discriminate|].
  destruct (keyutil_GenerateDefaultSigner (List.length (trace s))) as [cause|signer];
    [discriminate|].
  destruct (x509util_CreateCertificateRequest _ _ _ signer) as [cause|csr]; [discriminate|].
  destruct (getRootCertificate (Host u) (SHA claims) (after_csr claims s))
    as [[err|root] s3] eqn:Hfetch; [discriminate|].
  destruct (login authority token csr signer (Host u) (List.length (pools s3))
              (with_pool root s3)) as [[err|[cert config]] s5] eqn:Hlogin; [discriminate|].
  intro Hstart.
  exists claims, u, authority, signer, csr, root, s3, cert, config, s5.
  split.
  { exists jws. repeat split; try assumption. intro E. rewrite E in Hsha. discriminate. }
  repeat split; assumption.
Qed.


(** X7: the configuration a client asks for is that of the authority of its
    token: [GetProvisioners] and [GetAdmins] each make one call, over the
    channel to the audience host, for the identifier that follows the prefix
    in the first well-formed authority SAN of the token; and each returns
    its part of the answer, or the error under its own message. *)
Theorem configuration_of_token_authority :
  forall (token : string) (s s1 : State) (c : linkedCaClient),
  newLinkedCAClient token s = (inr c, s1) ->
  exists claims u san,
    token_claims token claims u
    /\ find authority_san (SANs claims) = Some san
    /\ authorityID c = slice_from 24 san
    /\ conn_target (client c) = Host u
    /\ forall calls,
         snd (GetProvisioners c calls)
         = calls ++ [CallGetConfiguration (client c)
                       {| linkedca.AuthorityId := slice_from 24 san |}]
         /\ snd (GetAdmins c calls) = snd (GetProvisioners c calls)
         /\ match majordomo_GetConfiguration (List.length calls) (client c)
                   {| linkedca.AuthorityId := slice_from 24 san |} with
            | inl cause =>
                fst (GetProvisioners c calls)
                = inl (Wrapped "error getting provisioners" cause)
                /\ fst (GetAdmins c calls) = inl (Wrapped "error getting admins" cause)
            | inr resp =>
                fst (GetProvisioners c calls) = inr (linkedca.Provisioners resp)
                /\ fst (GetAdmins c calls) = inr (linkedca.Admins resp)
            end.
Proof.
  intros token s s1 c Hrun.
  destruct (newLinkedCAClient_stages _ _ Hrun)
    as [claims [u [authority [signer [csr [root [s3 [cert [config [s5
         [Hclaims [Hsans [_ [_ Hstart]]]]]]]]]]]]]].
  destruct (start_client_run _ _ _ _ _ _ _ _ _ Hstart) as [_ [Hid [Hclient _]]].
  rewrite getAuthority_find in Hsans.
  destruct (find authority_san (SANs claims)) as [san|] eqn:Hfind; [|discriminate].
  assert (Hsan : slice_from 24 san = authority) by (injection Hsans; intro E; exact E).
  exists claims, u, san. split; [exact Hclaims|]. split; [exact Hfind|].
  split; [congruence|]. split; [rewrite Hclient; reflexivity|].
  intro calls. unfold GetProvisioners, GetAdmins, GetConfiguration.
  rewrite Hid, <- Hsan.
  destruct (majordomo_GetConfiguration _ _ _); repeat split; reflexivity.
Qed.

End MethodsProperties.

(** ** The identifier [getAuthority] returns *)

(** The number of characters a sequence of atoms matches. *)
Fixpoint atoms_length (atoms : list Atom) : nat :=
  match atoms with
  | [] => 0
  | HexRun n :: rest => n + atoms_length rest
  | Lit _ :: rest => 1 + atoms_length rest
  end.

Lemma eat_hex_length (n : nat) (s s' : string) :
  eat_hex n s = Some s' -> String.length s = n + String.length s'.
Proof.
  revert s. induction n as [|n IH]; intro s; simpl.
  - intro E. injection E as <-. reflexivity.
  - destruct s as [|c s]; [discriminate|]. destruct (hex_class c); [|discriminate].
    intro E. apply IH in E. simpl. lia.
Qed.

Lemma MatchString_length (atoms : list Atom) (s : string) :
  MatchString atoms s = true -> String.length s = atoms_length atoms.
Proof.
  revert s. induction atoms as [|[n|c] atoms IH]; intro s; simpl.
  - destruct s; [reflexivity|discriminate].
  - destruct (eat_hex n s) as [s'|] eqn:Hhex; [|discriminate].
    intro Hrest. apply IH in Hrest. apply eat_hex_length in Hhex. lia.
  - destruct s as [|c' s]; [discriminate|].
    intro H. apply andb_true_iff in H. destruct H as [_ Hrest].
    apply IH in Hrest. simpl. lia.
Qed.

Lemma HasPrefix_append (s p : string) :
  HasPrefix s p = true -> s = (p ++ slice_from (String.length p) s)%string.
Proof.
  unfold HasPrefix. revert s. induction p as [|c p IH]; intro s.
  - destruct s; reflexivity.
  - destruct s as [|c' s]; [discriminate|]. simpl.
    destruct (ascii_dec c c') as [<-|]; [|discriminate].
    intro H. f_equal. apply IH. exact H.
Qed.

(** X8: an identifier that [getAuthority] returns has 36 characters and the
    8-4-4-4-12 shape of a UUID, and the SAN list holds it behind the prefix
    [urn:smallstep:authority:]. *)
Theorem getAuthority_uuid_shape :
  forall (sans : list string) (id : string),
  getAuthority sans = inr id ->
  String.length id = 36
  /\ MatchString uuidPattern id = true
  /\ In ("urn:smallstep:authority:" ++ id)%string sans.
Proof.
  intros sans id. rewrite getAuthority_find.
  destruct (find authority_san sans) as [san|] eqn:Hfind; [|discriminate].
  apply find_some in Hfind. destruct Hfind as [Hin Hsan].
  unfold authority_san in Hsan. apply andb_true_iff in Hsan. destruct Hsan as [Hprefix Huuid].
  intro E. assert (Hid : slice_from 24 san = id) by (injection E; intro H; exact H).
  rewrite <- Hid. split; [exact (MatchString_length _ _ Huuid)|]. split; [exact Huuid|].
  apply HasPrefix_append in Hprefix.
  change (String.length "urn:smallstep:authority:") with 24 in Hprefix.
  rewrite <- Hprefix. exact Hin.
Qed.

(** X8 at work. *)
Lemma first_authority_shape :
  String.length "0f8fad5b-d9cb-469f-a165-70867728950e" = 36
  /\ MatchString uuidPattern "0f8fad5b-d9cb-469f-a165-70867728950e" = true
  /\ In ("urn:smallstep:authority:" ++ "0f8fad5b-d9cb-469f-a165-70867728950e")%string
        two_authorities.
Proof.
  apply (@getAuthority_uuid_shape two_authorities "0f8fad5b-d9cb-469f-a165-70867728950e").
  reflexivity.
Defined.

(** * The other methods on the concrete platform *)

Module SampleServices.

(** An authority that takes every certificate and has one provisioner and
    two admins. *)
Definition majordomo : Majordomo :=
  {| linkedca_Provisioner := string;
     linkedca_Admin := string;
     majordomo_PostCertificate := fun _ _ _ => None;
     majordomo_GetConfiguration :=
       fun _ _ _ =>
         inr {| linkedca.Provisioners := ["jwk-provisioner"];
                linkedca.Admins := ["first-admin"; "second-admin"] |} |}.

End SampleServices.

(** X2 at work: an intermediate and a root. *)
Lemma sample_chain_parses_back :
  exists text,
    @serializeCertificateChain Sample.platform
      (map Some [Sample.intermediateDER; Sample.rootDER]) = Returns text
    /\ @parseBundle Sample.platform (bytes_of_string text) []
       = inr [Sample.intermediateDER; Sample.rootDER].
Proof.
  apply (@serialized_chain_parses_back Sample.platform
           [Sample.intermediateDER; Sample.rootDER]).
  - intros crt rest [<-|[<-|[]]]; reflexivity.
  - intros crt [<-|[<-|[]]]; reflexivity.
Defined.


(** X7 at work: the provisioners of the authority of the good token. *)
Lemma good_client_configuration :
  exists c s1 san,
    @newLinkedCAClient Sample.platform (Sample.authority_answering Sample.goodResponse)
      "token.good.sig" Sample.start
    = (inr c, s1)
    /\ authorityID c = slice_from 24 san
    /\ snd (GetProvisioners (S := SampleServices.majordomo) c [])
       = [CallGetConfiguration (client c) {| linkedca.AuthorityId := slice_from 24 san |}].
Proof.
  assert (Hok : is_error
                  (fst (@newLinkedCAClient Sample.platform
                          (Sample.authority_answering Sample.goodResponse)
                          "token.good.sig" Sample.start)) = false)
    by (vm_compute; reflexivity).
  destruct (@newLinkedCAClient Sample.platform
              (Sample.authority_answering Sample.goodResponse)
              "token.good.sig" Sample.start) as [[err|c] s1] eqn:Hrun;
    [discriminate Hok|].
  destruct (@configuration_of_token_authority Sample.platform
              (Sample.authority_answering Sample.goodResponse)
              SampleServices.majordomo _ _ _ _ Hrun)
    as [claims [u [san [_ [_ [Hid [_ Hcalls]]]]]]].
  exists c, s1, san. split; [reflexivity|]. split; [exact Hid|].
  exact (proj1 (Hcalls [])).
Defined.

(** * Package mgmt: the provisioner context and its conversion

    [NewProvisionerCtx], [WithJWK], [WithPassword], [createJWKDetails],
    [CreateProvisioner], [Provisioner.GetOptions] and
    [Provisioner.ToCertificates] of [authority/mgmt/provisioner.go].  The
    jose keys, the status type, the default claims and the database are
    outside the file and are parameters. *)

(** The keys of package jose and what the file does with them.
    [json_Unmarshal_JSONWebKey data] is [json.Unmarshal(data, &jwk)] for a
    [jwk] of type [*jose.JSONWebKey]: the key read, nil for the JSON null. *)
Class Jose : Type := {
  JSONWebKey : Type;
  JSONWebEncryption : Type;
  jose_GenerateDefaultKeyPair : nat -> bytes -> Cause + JSONWebKey * JSONWebEncryption;
  JSONWebKey_MarshalJSON : JSONWebKey -> Cause + bytes;
  JSONWebEncryption_CompactSerialize : JSONWebEncryption -> Cause + string;
  json_Unmarshal_JSONWebKey : bytes -> Cause + option JSONWebKey
}.

(** What the rest of package mgmt gives the file. *)
Class MgmtPackage : Type := {
  StatusType : Type;
  StatusActive : StatusType;
  NewDefaultClaims : Claims
}.

(** [NewErrorISE] and [WrapErrorISE] of package mgmt. *)
Inductive ISE : Type :=
| NewErrorISE (msg : string)
| WrapErrorISE (cause : Cause) (msg : string).

(** [ProvisionerType] and the one value of it the functions below use. *)
Definition ProvisionerType := string.
Definition ProvisionerTypeJWK : ProvisionerType := "JWK".

Module ProvisionerCtx.

Record t `{Jose} : Type := {
  JWK : option JSONWebKey;
  JWE : option JSONWebEncryption;
  X509Template : string;
  SSHTemplate : string;
  X509TemplateData : bytes;
  SSHTemplateData : bytes;
  Claims : option Claims;
  Password : string
}.

End ProvisionerCtx.

Module ProvisionerDetailsJWK.

Record t : Type := {
  Type_ : ProvisionerType;               (* Type *)
  PubKey : bytes;
  EncPrivKey : string
}.

End ProvisionerDetailsJWK.

(** The other details types of the file; each has the field [Type] only. *)
Inductive DetailsKind : Type :=
| KindOIDC | KindGCP | KindAWS | KindAzure | KindACME | KindX5C | KindK8SSA | KindSSHPOP.

(** The value of [Provisioner.Details], an [interface{}]: a pointer to JWK
    details (which may be a nil pointer), a pointer to details of another
    kind, or anything else, nil included. *)
Inductive Details : Type :=
| DetailsJWK (d : option ProvisionerDetailsJWK.t)
| DetailsOf (kind : DetailsKind) (typ : ProvisionerType)
| DetailsOther.

Module Provisioner.

Record t `{MgmtPackage} : Type := {
  ID : string;
  AuthorityID : string;
  Type_ : string;                        (* Type *)
  Name : string;
  Claims : option Claims;
  Details : Details;
  X509Template : string;
  X509TemplateData : bytes;
  SSHTemplate : string;
  SSHTemplateData : bytes;
  Status : StatusType
}.

End Provisioner.

(** The types of package provisioner the conversion builds. *)
Module X509Options.

Record t : Type := {
  Template : string;
  TemplateData : bytes
}.

End X509Options.

Module SSHOptions.

Record t : Type := {
  Template : string;
  TemplateData : bytes
}.

End SSHOptions.

Module Options.

Record t : Type := {
  X509 : option X509Options.t;
  SSH : option SSHOptions.t
}.

End Options.

Module JWK.

Record t `{Jose} (Duration : Type) : Type := {
  Type_ : string;                        (* Type *)
  Name : string;
  Key : option JSONWebKey;
  EncryptedKey : string;
  Claims : option (provisioner.Claims Duration);
  Options : option Options.t
}.

End JWK.

(** What the functions below do to the outside. *)
Inductive MgmtEvent `{Jose} `{MgmtPackage} : Type :=
| EvGenerateDefaultKeyPair (password : bytes)
| EvDBCreateProvisioner (p : Provisioner.t).

(** The errors of [Provisioner.ToCertificates]: the error of the claims, the
    error of [json.Unmarshal], and "provisioner %s not implemented". *)
Inductive ConvertError : Type :=
| ClaimsError (err : Error)
| UnmarshalError (cause : Cause)
| NotImplemented (typ : string).

Section Mgmt.
Context {J : Jose} {G : MgmtPackage}.

Definition ProvisionerOption : Type := ProvisionerCtx.t -> ProvisionerCtx.t.

(** [WithJWK(jwk, jwe)] *)
Definition WithJWK (jwk : option JSONWebKey) (jwe : option JSONWebEncryption)
  : ProvisionerOption :=
  fun ctx =>
    {| ProvisionerCtx.JWK := jwk;
       ProvisionerCtx.JWE := jwe;
       ProvisionerCtx.X509Template := ProvisionerCtx.X509Template ctx;
       ProvisionerCtx.SSHTemplate := ProvisionerCtx.SSHTemplate ctx;
       ProvisionerCtx.X509TemplateData := ProvisionerCtx.X509TemplateData ctx;
       ProvisionerCtx.SSHTemplateData := ProvisionerCtx.SSHTemplateData ctx;
       ProvisionerCtx.Claims := ProvisionerCtx.Claims ctx;
       ProvisionerCtx.Password := ProvisionerCtx.Password ctx |}.

(** [WithPassword(pass)] *)
Definition WithPassword (pass : string) : ProvisionerOption :=
  fun ctx =>
    {| ProvisionerCtx.JWK := ProvisionerCtx.JWK ctx;
       ProvisionerCtx.JWE := ProvisionerCtx.JWE ctx;
       ProvisionerCtx.X509Template := ProvisionerCtx.X509Template ctx;
       ProvisionerCtx.SSHTemplate := ProvisionerCtx.SSHTemplate ctx;
       ProvisionerCtx.X509TemplateData := ProvisionerCtx.X509TemplateData ctx;
       ProvisionerCtx.SSHTemplateData := ProvisionerCtx.SSHTemplateData ctx;
       ProvisionerCtx.Claims := ProvisionerCtx.Claims ctx;
       ProvisionerCtx.Password := pass |}.

(** [NewProvisionerCtx(opts...)]: the default claims, every other field
    zero, and then the options in their order. *)
Definition NewProvisionerCtx (opts : list ProvisionerOption) : ProvisionerCtx.t :=
  fold_left (fun pc o => o pc) opts
    {| ProvisionerCtx.JWK := None;
       ProvisionerCtx.JWE := None;
       ProvisionerCtx.X509Template := "";
       ProvisionerCtx.SSHTemplate := "";
       ProvisionerCtx.X509TemplateData := [];
       ProvisionerCtx.SSHTemplateData := [];
       ProvisionerCtx.Claims := Some NewDefaultClaims;
       ProvisionerCtx.Password := "" |}.

(** [pc.JWK, pc.JWE = jwk, jwe] *)
Definition set_keys (pc : ProvisionerCtx.t) (jwk : option JSONWebKey)
  (jwe : option JSONWebEncryption) : ProvisionerCtx.t :=
  WithJWK jwk jwe pc.

(** The end of [createJWKDetails], once the context has both keys. *)
Definition marshalJWKDetails (jwk : JSONWebKey) (jwe : JSONWebEncryption)
  : ISE + ProvisionerDetailsJWK.t :=
  match JSONWebKey_MarshalJSON jwk with
  | inl cause => inl (WrapErrorISE cause "error marshaling JWK")
  | inr jwkPubBytes =>
      match JSONWebEncryption_CompactSerialize jwe with
      | inl cause => inl (WrapErrorISE cause "error serializing JWE")
      | inr jwePrivStr =>
          inr {| ProvisionerDetailsJWK.Type_ := ProvisionerTypeJWK;
                 ProvisionerDetailsJWK.PubKey := jwkPubBytes;
                 ProvisionerDetailsJWK.EncPrivKey := jwePrivStr |}
      end
  end.

(** [createJWKDetails(pc)]: the result, the context as the call leaves it,
    and the events. *)
Definition createJWKDetails (pc : ProvisionerCtx.t) (evs : list MgmtEvent)
  : (ISE + ProvisionerDetailsJWK.t) * ProvisionerCtx.t * list MgmtEvent :=
  match ProvisionerCtx.JWK pc, ProvisionerCtx.JWE pc with
  | Some _, None =>
      (inl (NewErrorISE "JWE is required with JWK for createJWKProvisioner"), pc, evs)
  | None, Some _ =>
      (inl (NewErrorISE "JWK is required with JWE for createJWKProvisioner"), pc, evs)
  | None, None =>
      (* Create a new JWK w/ encrypted private key. *)
      if (ProvisionerCtx.Password pc =? "")%string then
        (inl (NewErrorISE "password is required to provisioner with new keys"), pc, evs)
      else
        let password := bytes_of_string (ProvisionerCtx.Password pc) in
        let evs' := evs ++ [EvGenerateDefaultKeyPair password] in
        match jose_GenerateDefaultKeyPair (List.length evs) password with
        | inl cause =>
            (inl (WrapErrorISE cause "error generating JWK key pair"),
             set_keys pc None None, evs')
        | inr (jwk, jwe) =>
            (marshalJWKDetails jwk jwe, set_keys pc (Some jwk) (Some jwe), evs')
        end
  | Some jwk, Some jwe => (marshalJWKDetails jwk jwe, pc, evs)
  end.

(** The database, as far as [CreateProvisioner] uses it: it takes the
    provisioner, may write to it, and may fail. *)
Definition DB : Type := nat -> Provisioner.t -> Cause + Provisioner.t.

(** [CreateProvisioner(ctx, db, typ, name, opts...)] *)
Definition CreateProvisioner (db : DB) (typ name : string) (opts : list ProvisionerOption)
  (evs : list MgmtEvent) : (ISE + Provisioner.t) * list MgmtEvent :=
  let pc := NewProvisionerCtx opts in
  match createJWKDetails pc evs with
  | (inl err, _, evs') => (inl err, evs')
  | (inr details, pc, evs') =>
      let p :=
        {| Provisioner.ID := "";
           Provisioner.AuthorityID := "";
           Provisioner.Type_ := typ;
           Provisioner.Name := name;
           Provisioner.Claims := ProvisionerCtx.Claims pc;
           Provisioner.Details := DetailsJWK (Some details);
           Provisioner.X509Template := ProvisionerCtx.X509Template pc;
           Provisioner.X509TemplateData := ProvisionerCtx.X509TemplateData pc;
           Provisioner.SSHTemplate := ProvisionerCtx.SSHTemplate pc;
           Provisioner.SSHTemplateData := ProvisionerCtx.SSHTemplateData pc;
           Provisioner.Status := StatusActive |} in
      match db (List.length evs') p with
      | inl cause =>
          (inl (WrapErrorISE cause "error creating provisioner"),
           evs' ++ [EvDBCreateProvisioner p])
      | inr p' => (inr p', evs' ++ [EvDBCreateProvisioner p])
      end
  end.

(** [(p *Provisioner) GetOptions()] *)
Definition GetOptions (p : Provisioner.t) : Options.t :=
  {| Options.X509 :=
       Some {| X509Options.Template := Provisioner.X509Template p;
               X509Options.TemplateData := Provisioner.X509TemplateData p |};
     Options.SSH :=
       Some {| SSHOptions.Template := Provisioner.SSHTemplate p;
               SSHOptions.TemplateData := Provisioner.SSHTemplateData p |} |}.

(** [(p *Provisioner) ToCertificates()].  Reading the claims through a nil
    [p.Claims], or the key through nil JWK details, panics. *)
Definition Provisioner_ToCertificates {Duration : Type}
  (NewDuration : string -> Cause + Duration) (order : list string) (p : Provisioner.t)
  : Go (ConvertError + JWK.t Duration) :=
  match Provisioner.Claims p with
  | None => Panics
  | Some c =>
      match ToCertificates NewDuration order c with
      | inl err => Returns (inl (ClaimsError err))
      | inr claims =>
          match Provisioner.Details p with
          | DetailsJWK None => Panics
          | DetailsJWK (Some details) =>
              match json_Unmarshal_JSONWebKey (ProvisionerDetailsJWK.PubKey details) with
              | inl cause => Returns (inl (UnmarshalError cause))
              | inr jwk =>
                  Returns
                    (inr {| JWK.Type_ := Provisioner.Type_ p;
                            JWK.Name := Provisioner.Name p;
                            JWK.Key := jwk;
                            JWK.EncryptedKey := ProvisionerDetailsJWK.EncPrivKey details;
                            JWK.Claims := Some claims;
                            JWK.Options := Some (GetOptions p) |})
              end
          | _ => Returns (inl (NotImplemented (Provisioner.Type_ p)))
          end
      end
  end.

(** The options of the file, as data. *)
Inductive OptionOf : Type :=
| OfJWK (jwk : option JSONWebKey) (jwe : option JSONWebEncryption)
| OfPassword (pass : string).

Definition option_of (o : OptionOf) : ProvisionerOption :=
  match o with
  | OfJWK jwk jwe => WithJWK jwk jwe
  | OfPassword pass => WithPassword pass
  end.

(** The password of the last [WithPassword] of a list of options, and the
    keys of its last [WithJWK]. *)
Fixpoint last_password (opts : list OptionOf) (default : string) : string :=
  match opts with
  | [] => default
  | OfPassword pass :: rest => last_password rest pass
  | OfJWK _ _ :: rest => last_password rest default
  end.

Fixpoint last_keys (opts : list OptionOf)
  (default : option JSONWebKey * option JSONWebEncryption)
  : option JSONWebKey * option JSONWebEncryption :=
  match opts with
  | [] => default
  | OfJWK jwk jwe :: rest => last_keys rest (jwk, jwe)
  | OfPassword _ :: rest => last_keys rest default
  end.

End Mgmt.

(** ** [createJWKDetails] and [NewProvisionerCtx] *)

Section MgmtProperties.
Context {J : Jose} {G : MgmtPackage}.

Lemma set_keys_same (pc : ProvisionerCtx.t) :
  set_keys pc (ProvisionerCtx.JWK pc) (ProvisionerCtx.JWE pc) = pc.
Proof. destruct pc; reflexivity. Qed.

(** X9: [createJWKDetails] generates a key pair exactly when the context
    has neither key and has a password, once and from that password; a
    context with one key and not the other, or with no key and no password,
    is refused with the context and the events as they were, whatever else
    the context holds. *)
Theorem createJWKDetails_generation :
  forall (pc : ProvisionerCtx.t) (evs : list MgmtEvent),
  snd (createJWKDetails pc evs)
  = (match ProvisionerCtx.JWK pc, ProvisionerCtx.JWE pc with
     | None, None =>
         if (ProvisionerCtx.Password pc =? "")%string then evs
         else evs ++ [EvGenerateDefaultKeyPair (bytes_of_string (ProvisionerCtx.Password pc))]
     | _, _ => evs
     end)
  /\ (forall jwk,
        ProvisionerCtx.JWK pc = Some jwk -> ProvisionerCtx.JWE pc = None ->
        createJWKDetails pc evs
        = (inl (NewErrorISE "JWE is required with JWK for createJWKProvisioner"), pc, evs))
  /\ (forall jwe,
        ProvisionerCtx.JWK pc = None -> ProvisionerCtx.JWE pc = Some jwe ->
        createJWKDetails pc evs
        = (inl (NewErrorISE "JWK is required with JWE for createJWKProvisioner"), pc, evs))
  /\ (ProvisionerCtx.JWK pc = None -> ProvisionerCtx.JWE pc = None ->
      ProvisionerCtx.Password pc = "" ->
      createJWKDetails pc evs
      = (inl (NewErrorISE "password is required to provisioner with new keys"), pc, evs)).
Proof.
  intros pc evs. unfold createJWKDetails.
  destruct (ProvisionerCtx.JWK pc) as [jwk|], (ProvisionerCtx.JWE pc) as [jwe|].
  - split; [reflexivity|]. split; [discriminate|]. split; discriminate.
  - split; [reflexivity|]. split; [reflexivity|]. split; discriminate.
  - split; [reflexivity|]. split; [discriminate|]. split; [reflexivity|discriminate].
  - split.
    + destruct (ProvisionerCtx.Password pc =? "")%string; [reflexivity|].
      cbv zeta. destruct (jose_GenerateDefaultKeyPair _ _) as [cause|[jwk jwe]]; reflexivity.
    + split; [discriminate|]. split; [discriminate|].
      intros _ _ ->. reflexivity.
Qed.

(** X10: when [createJWKDetails] returns details, the context it leaves
    holds both keys, the details are of type JWK and carry the marshalled
    public key and the serialized encrypted key of exactly these two keys,
    the other fields of the context are as before, and a context that came
    with keys is left as it was. *)
Theorem createJWKDetails_keys :
  forall (pc pc' : ProvisionerCtx.t) (evs evs' : list MgmtEvent)
         (details : ProvisionerDetailsJWK.t),
  createJWKDetails pc evs = (inr details, pc', evs') ->
  exists jwk jwe,
    ProvisionerCtx.JWK pc' = Some jwk
    /\ ProvisionerCtx.JWE pc' = Some jwe
    /\ ProvisionerDetailsJWK.Type_ details = ProvisionerTypeJWK
    /\ JSONWebKey_MarshalJSON jwk = inr (ProvisionerDetailsJWK.PubKey details)
    /\ JSONWebEncryption_CompactSerialize jwe = inr (ProvisionerDetailsJWK.EncPrivKey details)
    /\ pc' = set_keys pc (Some jwk) (Some jwe)
    /\ (ProvisionerCtx.JWK pc <> None -> pc' = pc /\ evs' = evs).
Proof.
  intros pc pc' evs evs' details. unfold createJWKDetails.
  assert (Hmarshal : forall jwk jwe,
             marshalJWKDetails jwk jwe = inr details ->
             ProvisionerDetailsJWK.Type_ details = ProvisionerTypeJWK
             /\ JSONWebKey_MarshalJSON jwk = inr (ProvisionerDetailsJWK.PubKey details)
             /\ JSONWebEncryption_CompactSerialize jwe
                = inr (ProvisionerDetailsJWK.EncPrivKey details)).
  { intros jwk jwe. unfold marshalJWKDetails.
    destruct (JSONWebKey_MarshalJSON jwk); [discriminate|].
    destruct (JSONWebEncryption_CompactSerialize jwe); [discriminate|].
    intro E. injection E as <-. repeat split; reflexivity. }
  destruct (ProvisionerCtx.JWK pc) as [jwk|] eqn:Hjwk,
           (ProvisionerCtx.JWE pc) as [jwe|] eqn:Hjwe; try discriminate.
  - intro E. injection E as Hd <- <-.
    destruct (Hmarshal _ _ Hd) as [H1 [H2 H3]].
    exists jwk, jwe.
    split; [assumption|]. split; [assumption|].
    split; [assumption|]. split; [assumption|]. split; [assumption|].
    split; [|intros _; split; reflexivity].
    rewrite <- Hjwk, <- Hjwe, set_keys_same. reflexivity.
  - destruct (ProvisionerCtx.Password pc =? "")%string; [discriminate|].
    cbv zeta. destruct (jose_GenerateDefaultKeyPair _ _) as [cause|[jwk jwe]]; [discriminate|].
    intro E. injection E as Hd <- <-.
    destruct (Hmarshal _ _ Hd) as [H1 [H2 H3]].
    exists jwk, jwe.
    split; [reflexivity|]. split; [reflexivity|].
    split; [assumption|]. split; [assumption|]. split; [assumption|].
    split; [reflexivity|]. intro Hne. contradiction.
Qed.

Lemma fold_options (opts : list OptionOf) (pc : ProvisionerCtx.t) :
  let pc' := fold_left (fun pc o => o pc) (map option_of opts) pc in
  ProvisionerCtx.Password pc' = last_password opts (ProvisionerCtx.Password pc)
  /\ (ProvisionerCtx.JWK pc', ProvisionerCtx.JWE pc')
     = last_keys opts (ProvisionerCtx.JWK pc, ProvisionerCtx.JWE pc)
  /\ ProvisionerCtx.Claims pc' = ProvisionerCtx.Claims pc
  /\ ProvisionerCtx.X509Template pc' = ProvisionerCtx.X509Template pc
  /\ ProvisionerCtx.SSHTemplate pc' = ProvisionerCtx.SSHTemplate pc
  /\ ProvisionerCtx.X509TemplateData pc' = ProvisionerCtx.X509TemplateData pc
  /\ ProvisionerCtx.SSHTemplateData pc' = ProvisionerCtx.SSHTemplateData pc.
Proof.
  revert pc. induction opts as [|[jwk jwe|pass] opts IH]; intro pc.
  - cbv zeta. repeat split; reflexivity.
  - exact (IH (WithJWK jwk jwe pc)).
  - exact (IH (WithPassword pass pc)).
Qed.

(** X11: in the context [NewProvisionerCtx] builds from options of the
    file, the password is that of the last [WithPassword] (empty when there
    is none) and the keys are those of the last [WithJWK] (nil when there is
    none), wherever the options of the other kind stand; the claims are
    the default claims and the templates are empty. *)
Theorem NewProvisionerCtx_last_option :
  forall opts : list OptionOf,
  ProvisionerCtx.Password (NewProvisionerCtx (map option_of opts)) = last_password opts ""
  /\ (ProvisionerCtx.JWK (NewProvisionerCtx (map option_of opts)),
      ProvisionerCtx.JWE (NewProvisionerCtx (map option_of opts)))
     = last_keys opts (None, None)
  /\ ProvisionerCtx.Claims (NewProvisionerCtx (map option_of opts)) = Some NewDefaultClaims
  /\ ProvisionerCtx.X509Template (NewProvisionerCtx (map option_of opts)) = ""
  /\ ProvisionerCtx.SSHTemplate (NewProvisionerCtx (map option_of opts)) = ""
  /\ ProvisionerCtx.X509TemplateData (NewProvisionerCtx (map option_of opts)) = []
  /\ ProvisionerCtx.SSHTemplateData (NewProvisionerCtx (map option_of opts)) = [].
Proof.
  intro opts. unfold NewProvisionerCtx.
  match goal with
  | |- context [fold_left _ _ ?init] => exact (fold_options opts init)
  end.
Qed.

End MgmtProperties.

(** ** [CreateProvisioner] *)

Section CreateProvisionerProperties.
Context {J : Jose} {G : MgmtPackage}.

Lemma NewProvisionerCtx_options (opts : list OptionOf) :
  ProvisionerCtx.Password (NewProvisionerCtx (map option_of opts)) = last_password opts ""
  /\ ProvisionerCtx.JWK (NewProvisionerCtx (map option_of opts)) = fst (last_keys opts (None, None))
  /\ ProvisionerCtx.JWE (NewProvisionerCtx (map option_of opts)) = snd (last_keys opts (None, None)).
Proof.
  unfold NewProvisionerCtx.
  match goal with
  | |- context [fold_left _ _ ?init] =>
      destruct (fold_options opts init) as [Hpass [Hkeys _]]
  end.
  cbv zeta in Hpass, Hkeys. simpl in Hpass, Hkeys.
  rewrite <- Hkeys. repeat split; assumption || reflexivity.
Qed.

(** X12: options that leave the context without keys and without a
    password (no option at all, for one) make [CreateProvisioner] fail with
    "password is required to provisioner with new keys": no key pair is
    generated and the database is not called. *)
Theorem CreateProvisioner_requires_password :
  forall (db : DB) (typ name : string) (opts : list OptionOf) (evs : list MgmtEvent),
  last_keys opts (None, None) = (None, None) ->
  last_password opts "" = "" ->
  CreateProvisioner db typ name (map option_of opts) evs
  = (inl (NewErrorISE "password is required to provisioner with new keys"), evs).
Proof.
  intros db typ name opts evs Hkeys Hpass.
  destruct (NewProvisionerCtx_options opts) as [Hp [Hk He]].
  rewrite Hkeys in Hk, He. rewrite Hpass in Hp. simpl in Hk, He.
  unfold CreateProvisioner. cbv zeta. unfold createJWKDetails.
  rewrite Hk, He, Hp. reflexivity.
Qed.

(** What [createJWKDetails] adds to the events: nothing, or one key
    generation. *)
Lemma createJWKDetails_events (pc : ProvisionerCtx.t) (evs : list MgmtEvent) :
  exists gen,
    snd (createJWKDetails pc evs) = evs ++ gen
    /\ (gen = [] \/ exists password, gen = [EvGenerateDefaultKeyPair password]).
Proof.
  unfold createJWKDetails.
  destruct (ProvisionerCtx.JWK pc), (ProvisionerCtx.JWE pc);
    try (exists []; rewrite app_nil_r; split; [reflexivity|left; reflexivity]).
  destruct (ProvisionerCtx.Password pc =? "")%string.
  - exists []. rewrite app_nil_r. split; [reflexivity|left; reflexivity].
  - cbv zeta. eexists. split.
    + destruct (jose_GenerateDefaultKeyPair _ _) as [cause|[jwk jwe]]; reflexivity.
    + right. eexists. reflexivity.
Qed.

Lemma marshalJWKDetails_Type (jwk : JSONWebKey) (jwe : JSONWebEncryption)
  (details : ProvisionerDetailsJWK.t) :
  marshalJWKDetails jwk jwe = inr details ->
  details = {| ProvisionerDetailsJWK.Type_ := ProvisionerTypeJWK;
               ProvisionerDetailsJWK.PubKey := ProvisionerDetailsJWK.PubKey details;
               ProvisionerDetailsJWK.EncPrivKey := ProvisionerDetailsJWK.EncPrivKey details |}
  /\ JSONWebKey_MarshalJSON jwk = inr (ProvisionerDetailsJWK.PubKey details)
  /\ JSONWebEncryption_CompactSerialize jwe = inr (ProvisionerDetailsJWK.EncPrivKey details).
Proof.
  unfold marshalJWKDetails.
  destruct (JSONWebKey_MarshalJSON jwk); [discriminate|].
  destruct (JSONWebEncryption_CompactSerialize jwe); [discriminate|].
  intro E. injection E as <-. repeat split; reflexivity.
Qed.

Lemma createJWKDetails_Type (pc pc' : ProvisionerCtx.t) (evs evs' : list MgmtEvent)
  (details : ProvisionerDetailsJWK.t) :
  createJWKDetails pc evs = (inr details, pc', evs') ->
  ProvisionerDetailsJWK.Type_ details = ProvisionerTypeJWK.
Proof.
  unfold createJWKDetails.
  destruct (ProvisionerCtx.JWK pc) as [jwk|], (ProvisionerCtx.JWE pc) as [jwe|];
    try discriminate.
  - intro E. injection E as Hd _ _.
    apply marshalJWKDetails_Type in Hd. destruct Hd as [-> _]. reflexivity.
  - destruct (ProvisionerCtx.Password pc =? "")%string; [discriminate|].
    cbv zeta. destruct (jose_GenerateDefaultKeyPair _ _) as [cause|[jwk jwe]]; [discriminate|].
    intro E. injection E as Hd _ _.
    apply marshalJWKDetails_Type in Hd. destruct Hd as [-> _]. reflexivity.
Qed.

(** X13: when [CreateProvisioner] returns a provisioner, the database was
    called once, as the last thing and after at most one key generation,
    with a provisioner of the type and name asked for, active, with empty
    ID and authority ID, and with details that are JWK details whatever that
    type is; what is returned is the provisioner as the database left it. *)
Theorem CreateProvisioner_stored :
  forall (db : DB) (typ name : string) (opts : list ProvisionerOption)
         (evs evs' : list MgmtEvent) (p : Provisioner.t),
  CreateProvisioner db typ name opts evs = (inr p, evs') ->
  exists stored details gen,
    evs' = (evs ++ gen) ++ [EvDBCreateProvisioner stored]
    /\ (gen = [] \/ exists password, gen = [EvGenerateDefaultKeyPair password])
    /\ db (List.length (evs ++ gen)) stored = inr p
    /\ Provisioner.Type_ stored = typ
    /\ Provisioner.Name stored = name
    /\ Provisioner.Status stored = StatusActive
    /\ Provisioner.ID stored = ""
    /\ Provisioner.AuthorityID stored = ""
    /\ Provisioner.Details stored = DetailsJWK (Some details)
    /\ ProvisionerDetailsJWK.Type_ details = ProvisionerTypeJWK.
Proof.
  intros db typ name opts evs evs' p. unfold CreateProvisioner. cbv zeta.
  destruct (createJWKDetails_events (NewProvisionerCtx opts) evs) as [gen [Hgen Hshape]].
  destruct (createJWKDetails (NewProvisionerCtx opts) evs) as [[[err|details] pc] evs1] eqn:Hc;
    [discriminate|].
  simpl in Hgen. subst evs1.
  match goal with
  | |- context [db _ ?q] => set (stored := q)
  end.
  destruct (db (List.length (evs ++ gen)) stored) as [cause|p'] eqn:Hdb; [discriminate|].
  intro E. injection E as <- <-.
  exists stored, details, gen.
  split; [reflexivity|]. split; [exact Hshape|]. split; [exact Hdb|].
  split; [reflexivity|]. split; [reflexivity|]. split; [reflexivity|].
  split; [reflexivity|]. split; [reflexivity|]. split; [reflexivity|].
  exact (createJWKDetails_Type _ _ Hc).
Qed.

End CreateProvisionerProperties.

(** ** The conversions to package provisioner *)

(** [durs[k].durStr] for the map [durs] that [Claims.ToCertificates] builds
    from [c]. *)
Definition durationString (c : Claims) (k : string) : string :=
  durStr (map_index
            (combine durKeys
               (map (fun s : string => @Build_durEntry unit s None) (durationStrings c)))
            k).

(** The result of [Claims.ToCertificates] when it is not an error. *)
Definition convertedClaims (Duration : Type) (c : Claims) : provisioner.Claims Duration :=
  {| provisioner.MinTLSDur := None;
     provisioner.MaxTLSDur := None;
     provisioner.DefaultTLSDur := None;
     provisioner.DisableRenewal := Some (DisableRenewal c);
     provisioner.MinUserSSHDur := None;
     provisioner.MaxUserSSHDur := None;
     provisioner.DefaultUserSSHDur := None;
     provisioner.MinHostSSHDur := None;
     provisioner.MaxHostSSHDur := None;
     provisioner.DefaultHostSSHDur := None;
     provisioner.EnableSSHCA := Some (Enabled (SSH c)) |}.

Section ConversionProperties.
Context {J : Jose} {G : MgmtPackage}.
Variable Duration : Type.
Variable NewDuration : string -> Cause + Duration.

Lemma rangeDurs_Some (durs : list (string * durEntry Duration)) (order : list string)
  (e : Error) :
  rangeDurs NewDuration durs order = Some e
  <-> exists before k after cause,
        order = before ++ k :: after
        /\ (forall k', In k' before ->
              exists d, NewDuration (durStr (map_index durs k')) = inr d)
        /\ NewDuration (durStr (map_index durs k)) = inl cause
        /\ e = ErrParsingDuration k (durStr (map_index durs k)) cause.
Proof.
  induction order as [|k ks IH]; simpl.
  - split; [discriminate|].
    intros [before [k [after [cause [Ho _]]]]]. destruct before; discriminate.
  - destruct (NewDuration (durStr (map_index durs k))) as [cause|d] eqn:Hk.
    + split.
      * intro E. injection E as <-.
        exists [], k, ks, cause.
        split; [reflexivity|]. split; [intros k' []|]. split; [exact Hk|reflexivity].
      * intros [before [k0 [after [cause0 [Ho [Hbefore [Hk0 ->]]]]]]].
        destruct before as [|b before].
        -- simpl in Ho. injection Ho as <- _. congruence.
        -- simpl in Ho. injection Ho as <- _.
           destruct (Hbefore k (or_introl eq_refl)) as [d Hd]. congruence.
    + rewrite IH. split.
      * intros [before [k0 [after [cause0 [Ho [Hbefore [Hk0 ->]]]]]]].
        exists (k :: before), k0, after, cause0.
        split; [simpl; rewrite Ho; reflexivity|].
        split; [|split; [exact Hk0|reflexivity]].
        intros k' [<-|Hin]; [exists d; exact Hk|auto].
      * intros [before [k0 [after [cause0 [Ho [Hbefore [Hk0 ->]]]]]]].
        destruct before as [|b before].
        -- simpl in Ho. injection Ho as <- _. congruence.
        -- simpl in Ho. injection Ho as <- ->.
           exists before, k0, after, cause0.
           split; [reflexivity|]. split; [|split; [exact Hk0|reflexivity]].
           intros k' Hin. apply Hbefore. right. exact Hin.
Qed.

Lemma ToCertificates_cases (order : list string) (c : Claims) :
  exists durs : list (string * durEntry Duration),
    (forall k, durStr (map_index durs k) = durationString c k)
    /\ ToCertificates NewDuration order c
       = match rangeDurs NewDuration durs order with
         | Some err => inl err
         | None => inr (convertedClaims Duration c)
         end.
Proof.
  eexists. split; [|unfold ToCertificates; cbv zeta; reflexivity].
  intro k. unfold durationString, map_index, durationStrings, durKeys.
  cbn [combine map find fst snd].
  repeat match goal with
         | |- context [(?a =? k)%string] => destruct (a =? k)%string; [reflexivity|]
         end.
  reflexivity.
Qed.

(** X14: when [Claims.ToCertificates] fails, its error names the first key,
    in the order in which the map is visited, whose duration string does not
    parse, together with that string and the parser's error; the strings of
    the keys visited before it parse, and no string of a later key counts.
    Every such situation gives this error. *)
Theorem ToCertificates_first_failure :
  forall (order : list string) (c : Claims) (e : Error),
  ToCertificates NewDuration order c = inl e
  <-> exists before k after cause,
        order = before ++ k :: after
        /\ (forall k', In k' before -> exists d, NewDuration (durationString c k') = inr d)
        /\ NewDuration (durationString c k) = inl cause
        /\ e = ErrParsingDuration k (durationString c k) cause.
Proof.
  intros order c e.
  destruct (ToCertificates_cases order c) as [durs [Hstr ->]].
  assert (Hiff := rangeDurs_Some durs order e).
  split.
  - destruct (rangeDurs NewDuration durs order) as [err|] eqn:Hr; [|discriminate].
    intro E. injection E as ->.
    destruct (proj1 Hiff eq_refl) as [before [k [after [cause [Ho [Hb [Hk He]]]]]]].
    exists before, k, after, cause.
    split; [exact Ho|]. rewrite <- Hstr.
    split; [|split; [exact Hk|exact He]].
    intros k' Hin. rewrite <- Hstr. apply Hb. exact Hin.
  - intros [before [k [after [cause [Ho [Hb [Hk He]]]]]]].
    rewrite (proj2 Hiff); [reflexivity|].
    exists before, k, after, cause.
    split; [exact Ho|]. rewrite Hstr.
    split; [|split; [exact Hk|exact He]].
    intros k' Hin. rewrite Hstr. apply Hb. exact Hin.
Qed.

Lemma ToCertificates_inr (order : list string) (c : Claims)
  (r : provisioner.Claims Duration) :
  ToCertificates NewDuration order c = inr r -> r = convertedClaims Duration c.
Proof.
  destruct (ToCertificates_cases order c) as [durs [_ ->]].
  destruct (rangeDurs NewDuration durs order); [discriminate|].
  intro E. injection E as <-. reflexivity.
Qed.

(** X15: [Provisioner.ToCertificates] returns a provisioner exactly when the
    claims are there and parse, the details are non-nil JWK details and
    their public key unmarshals; the provisioner then has the type and name
    of [p] (not those of the details), the key read (nil for the JSON null),
    the encrypted key of the details, the options of [p], and claims whose
    nine durations are nil and whose two flags are those of the claims. *)
Theorem Provisioner_ToCertificates_JWK :
  forall (order : list string) (p : Provisioner.t) (j : JWK.t Duration),
  Provisioner_ToCertificates NewDuration order p = Returns (inr j)
  <-> exists c details,
        Provisioner.Claims p = Some c
        /\ is_error (ToCertificates NewDuration order c) = false
        /\ Provisioner.Details p = DetailsJWK (Some details)
        /\ json_Unmarshal_JSONWebKey (ProvisionerDetailsJWK.PubKey details) = inr (JWK.Key j)
        /\ j = {| JWK.Type_ := Provisioner.Type_ p;
                  JWK.Name := Provisioner.Name p;
                  JWK.Key := JWK.Key j;
                  JWK.EncryptedKey := ProvisionerDetailsJWK.EncPrivKey details;
                  JWK.Claims := Some (convertedClaims Duration c);
                  JWK.Options :=
                    Some {| Options.X509 :=
                              Some {| X509Options.Template := Provisioner.X509Template p;
                                      X509Options.TemplateData :=
                                        Provisioner.X509TemplateData p |};
                            Options.SSH :=
                              Some {| SSHOptions.Template := Provisioner.SSHTemplate p;
                                      SSHOptions.TemplateData :=
                                        Provisioner.SSHTemplateData p |} |} |}.
Proof.
  intros order p j. unfold Provisioner_ToCertificates. split.
  - destruct (Provisioner.Claims p) as [c|]; [|discriminate].
    destruct (ToCertificates NewDuration order c) as [err|r] eqn:Hc; [discriminate|].
    apply ToCertificates_inr in Hc as Hr. subst r.
    destruct (Provisioner.Details p) as [[details|]|kind typ|]; try discriminate.
    destruct (json_Unmarshal_JSONWebKey _) as [cause|jwk] eqn:Hu; [discriminate|].
    intro E. injection E as <-.
    exists c, details. simpl.
    split; [reflexivity|]. split; [rewrite Hc; reflexivity|]. split; [reflexivity|].
    split; [exact Hu|reflexivity].
  - intros [c [details [-> [Hc [-> [Hu Hj]]]]]].
    destruct (ToCertificates NewDuration order c) as [err|r] eqn:Hr; [discriminate Hc|].
    apply ToCertificates_inr in Hr. subst r.
    rewrite Hu. rewrite Hj at 2. reflexivity.
Qed.

(** X16: how [Provisioner.ToCertificates] fails.  Nil claims panic.  Claims
    that do not parse give their error whatever the details are, nil JWK
    details included.  With claims that parse, nil JWK details panic, JWK
    details whose key does not unmarshal give the error of [json.Unmarshal],
    and details of every other kind, or no details, give "provisioner %s not
    implemented" with the type of [p]. *)
Theorem Provisioner_ToCertificates_failures :
  forall (order : list string) (p : Provisioner.t),
  (Provisioner.Claims p = None ->
   Provisioner_ToCertificates NewDuration order p = Panics)
  /\ (forall c err,
        Provisioner.Claims p = Some c ->
        ToCertificates NewDuration order c = inl err ->
        Provisioner_ToCertificates NewDuration order p = Returns (inl (ClaimsError err)))
  /\ (forall c,
        Provisioner.Claims p = Some c ->
        is_error (ToCertificates NewDuration order c) = false ->
        match Provisioner.Details p with
        | DetailsJWK None =>
            Provisioner_ToCertificates NewDuration order p = Panics
        | DetailsJWK (Some details) =>
            forall cause,
            json_Unmarshal_JSONWebKey (ProvisionerDetailsJWK.PubKey details) = inl cause ->
            Provisioner_ToCertificates NewDuration order p
            = Returns (inl (UnmarshalError cause))
        | DetailsOf _ _ | DetailsOther =>
            Provisioner_ToCertificates NewDuration order p
            = Returns (inl (NotImplemented (Provisioner.Type_ p)))
        end).
Proof.
  intros order p. unfold Provisioner_ToCertificates.
  split; [intros ->; reflexivity|]. split.
  - intros c err -> ->. reflexivity.
  - intros c -> Hc.
    destruct (ToCertificates NewDuration order c) as [err|r]; [discriminate Hc|].
    destruct (Provisioner.Details p) as [[details|]|kind typ|]; try reflexivity.
    intros cause ->. reflexivity.
Qed.

End ConversionProperties.

(** ** From [CreateProvisioner] to [Provisioner.ToCertificates] *)

Section RoundTrip.
Context {J : Jose} {G : MgmtPackage}.
Variable Duration : Type.
Variable NewDuration : string -> Cause + Duration.

Lemma NewProvisionerCtx_rest (opts : list OptionOf) :
  ProvisionerCtx.Claims (NewProvisionerCtx (map option_of opts)) = Some NewDefaultClaims
  /\ ProvisionerCtx.X509Template (NewProvisionerCtx (map option_of opts)) = ""
  /\ ProvisionerCtx.SSHTemplate (NewProvisionerCtx (map option_of opts)) = ""
  /\ ProvisionerCtx.X509TemplateData (NewProvisionerCtx (map option_of opts)) = []
  /\ ProvisionerCtx.SSHTemplateData (NewProvisionerCtx (map option_of opts)) = [].
Proof.
  unfold NewProvisionerCtx.
  match goal with
  | |- context [fold_left _ _ ?init] =>
      destruct (fold_options opts init) as [_ [_ H]]
  end.
  exact H.
Qed.

(** The keys [createJWKDetails] works with, and what it leaves of the
    context. *)
Lemma createJWKDetails_source (pc pc' : ProvisionerCtx.t) (evs evs' : list MgmtEvent)
  (details : ProvisionerDetailsJWK.t) :
  createJWKDetails pc evs = (inr details, pc', evs') ->
  exists jwk jwe,
    marshalJWKDetails jwk jwe = inr details
    /\ pc' = set_keys pc (Some jwk) (Some jwe)
    /\ ((ProvisionerCtx.JWK pc = Some jwk /\ ProvisionerCtx.JWE pc = Some jwe)
        \/ (ProvisionerCtx.JWK pc = None /\ ProvisionerCtx.JWE pc = None
            /\ jose_GenerateDefaultKeyPair (List.length evs)
                 (bytes_of_string (ProvisionerCtx.Password pc)) = inr (jwk, jwe))).
Proof.
  unfold createJWKDetails.
  destruct (ProvisionerCtx.JWK pc) as [jwk|] eqn:Hjwk,
           (ProvisionerCtx.JWE pc) as [jwe|] eqn:Hjwe; try discriminate.
  - intro E. injection E as Hd <- _.
    exists jwk, jwe. split; [exact Hd|]. split.
    + rewrite <- Hjwk, <- Hjwe, set_keys_same. reflexivity.
    + left. split; reflexivity.
  - destruct (ProvisionerCtx.Password pc =? "")%string; [discriminate|].
    cbv zeta.
    destruct (jose_GenerateDefaultKeyPair _ _) as [cause|[jwk jwe]] eqn:Hgen; [discriminate|].
    intro E. injection E as Hd <- _.
    exists jwk, jwe. split; [exact Hd|]. split; [reflexivity|].
    right. split; [reflexivity|]. split; reflexivity.
Qed.

(** X17: with a [json.Unmarshal] that reads back what [MarshalJSON] writes,
    the provisioner [CreateProvisioner] hands to the database converts
    without panic: with default claims that do not parse to their error, and
    otherwise to a JWK provisioner of the type and name asked for, whose key
    is the key of the last [WithJWK] option (or the one generated from the
    last password when there is no such option), whose encrypted key is the
    serialization of the matching JWE, and whose templates are empty. *)
Theorem CreateProvisioner_converts :
  forall (db : DB) (typ name : string) (opts : list OptionOf)
         (evs evs' : list MgmtEvent) (p : Provisioner.t) (order : list string),
  (forall jwk data,
     JSONWebKey_MarshalJSON jwk = inr data ->
     json_Unmarshal_JSONWebKey data = inr (Some jwk)) ->
  CreateProvisioner db typ name (map option_of opts) evs = (inr p, evs') ->
  exists stored before jwk jwe encrypted,
    evs' = before ++ [EvDBCreateProvisioner stored]
    /\ (last_keys opts (None, None) = (Some jwk, Some jwe)
        \/ (last_keys opts (None, None) = (None, None)
            /\ jose_GenerateDefaultKeyPair (List.length evs)
                 (bytes_of_string (last_password opts "")) = inr (jwk, jwe)))
    /\ JSONWebEncryption_CompactSerialize jwe = inr encrypted
    /\ Provisioner_ToCertificates NewDuration order stored
       = match ToCertificates NewDuration order NewDefaultClaims with
         | inl err => Returns (inl (ClaimsError err))
         | inr claims =>
             Returns
               (inr {| JWK.Type_ := typ;
                       JWK.Name := name;
                       JWK.Key := Some jwk;
                       JWK.EncryptedKey := encrypted;
                       JWK.Claims := Some claims;
                       JWK.Options :=
                         Some {| Options.X509 :=
                                   Some {| X509Options.Template := "";
                                           X509Options.TemplateData := [] |};
                                 Options.SSH :=
                                   Some {| SSHOptions.Template := "";
                                           SSHOptions.TemplateData := [] |} |} |})
         end.
Proof.
  intros db typ name opts evs evs' p order Hlaw.
  unfold CreateProvisioner. cbv zeta.
  destruct (NewProvisionerCtx_options opts) as [Hpass [Hjwk Hjwe]].
  destruct (NewProvisionerCtx_rest opts) as [Hclaims [Hx [Hs [Hxd Hsd]]]].
  set (pc := NewProvisionerCtx (map option_of opts)) in *.
  destruct (createJWKDetails pc evs) as [[[err|details] pc'] evs1] eqn:Hc; [discriminate|].
  destruct (createJWKDetails_source _ _ Hc) as [jwk [jwe [Hd [Hpc' Hkeys]]]].
  apply marshalJWKDetails_Type in Hd. destruct Hd as [_ [Hpub Henc]].
  match goal with
  | |- context [db _ ?q] => set (stored := q)
  end.
  destruct (db (List.length evs1) stored) as [cause|p'] eqn:Hdb; [discriminate|].
  intro E. injection E as <- <-.
  exists stored, evs1, jwk, jwe, (ProvisionerDetailsJWK.EncPrivKey details).
  split; [reflexivity|]. split.
  { destruct (last_keys opts (None, None)) as [k e]. simpl in Hjwk, Hjwe.
    destruct Hkeys as [[Hk He]|[Hk [He Hgen]]].
    - left. congruence.
    - right. split; [congruence|]. rewrite <- Hpass. exact Hgen. }
  split; [exact Henc|].
  unfold Provisioner_ToCertificates, stored, GetOptions. simpl.
  subst pc'. simpl. rewrite Hclaims, Hx, Hs, Hxd, Hsd.
  destruct (ToCertificates NewDuration order NewDefaultClaims) as [err|claims];
    [reflexivity|].
  rewrite (Hlaw _ _ Hpub). reflexivity.
Qed.

End RoundTrip.

(** ** The mgmt functions at work *)

Module SampleMgmt.

(** Keys that are their own JSON: a key is a string, its JSON the bytes of
    the string, and a generated key pair is made of the password. *)
Definition jose : Jose :=
  {| JSONWebKey := string;
     JSONWebEncryption := string;
     jose_GenerateDefaultKeyPair := fun _ password =>
       match password with
       | [] => inl "password cannot be empty"%string
       | _ => inr (("key of " ++ string_of_list_byte password)%string,
                   ("jwe of " ++ string_of_list_byte password)%string)
       end;
     JSONWebKey_MarshalJSON := fun jwk => inr (bytes_of_string jwk);
     JSONWebEncryption_CompactSerialize := fun jwe => inr jwe;
     json_Unmarshal_JSONWebKey := fun data => inr (Some (string_of_list_byte data)) |}.

#[local] Existing Instance jose.

Definition package : MgmtPackage :=
  {| StatusType := bool;
     StatusActive := true;
     NewDefaultClaims := Sample.someClaims |}.

#[local] Existing Instance package.

(** A database that gives every provisioner the same ID. *)
Definition db : DB :=
  fun _ p =>
    inr {| Provisioner.ID := "prov-1";
           Provisioner.AuthorityID := "auth-1";
           Provisioner.Type_ := Provisioner.Type_ p;
           Provisioner.Name := Provisioner.Name p;
           Provisioner.Claims := Provisioner.Claims p;
           Provisioner.Details := Provisioner.Details p;
           Provisioner.X509Template := Provisioner.X509Template p;
           Provisioner.X509TemplateData := Provisioner.X509TemplateData p;
           Provisioner.SSHTemplate := Provisioner.SSHTemplate p;
           Provisioner.SSHTemplateData := Provisioner.SSHTemplateData p;
           Provisioner.Status := Provisioner.Status p |}.

Definition withPassword : list OptionOf :=
  [OfPassword "first"; OfPassword "hunter2"].

Definition context : ProvisionerCtx.t :=
  NewProvisionerCtx (map option_of withPassword).

Definition details : ProvisionerDetailsJWK.t :=
  {| ProvisionerDetailsJWK.Type_ := "JWK";
     ProvisionerDetailsJWK.PubKey := bytes_of_string "key of hunter2";
     ProvisionerDetailsJWK.EncPrivKey := "jwe of hunter2" |}.

Definition stored : Provisioner.t :=
  {| Provisioner.ID := "";
     Provisioner.AuthorityID := "";
     Provisioner.Type_ := "OIDC";
     Provisioner.Name := "admins";
     Provisioner.Claims := Some Sample.someClaims;
     Provisioner.Details := DetailsJWK (Some details);
     Provisioner.X509Template := "";
     Provisioner.X509TemplateData := [];
     Provisioner.SSHTemplate := "";
     Provisioner.SSHTemplateData := [];
     Provisioner.Status := true |}.

Definition created : Provisioner.t :=
  {| Provisioner.ID := "prov-1";
     Provisioner.AuthorityID := "auth-1";
     Provisioner.Type_ := "OIDC";
     Provisioner.Name := "admins";
     Provisioner.Claims := Some Sample.someClaims;
     Provisioner.Details := DetailsJWK (Some details);
     Provisioner.X509Template := "";
     Provisioner.X509TemplateData := [];
     Provisioner.SSHTemplate := "";
     Provisioner.SSHTemplateData := [];
     Provisioner.Status := true |}.

Definition events : list MgmtEvent :=
  [EvGenerateDefaultKeyPair (bytes_of_string "hunter2"); EvDBCreateProvisioner stored].

End SampleMgmt.

#[local] Existing Instance SampleMgmt.jose.
#[local] Existing Instance SampleMgmt.package.

(** X10 at work: a context with a password and no keys. *)
Lemma generated_keys_kept :
  exists jwk jwe,
    ProvisionerCtx.JWK
      (set_keys SampleMgmt.context
         (Some "key of hunter2"%string) (Some "jwe of hunter2"%string)) = Some jwk
    /\ ProvisionerCtx.JWE
         (set_keys SampleMgmt.context
            (Some "key of hunter2"%string) (Some "jwe of hunter2"%string)) = Some jwe
    /\ ProvisionerDetailsJWK.Type_ SampleMgmt.details = ProvisionerTypeJWK
    /\ JSONWebKey_MarshalJSON jwk
       = inr (ProvisionerDetailsJWK.PubKey SampleMgmt.details)
    /\ JSONWebEncryption_CompactSerialize jwe
       = inr (ProvisionerDetailsJWK.EncPrivKey SampleMgmt.details)
    /\ set_keys SampleMgmt.context
         (Some "key of hunter2"%string) (Some "jwe of hunter2"%string)
       = set_keys SampleMgmt.context (Some jwk) (Some jwe)
    /\ (ProvisionerCtx.JWK SampleMgmt.context <> None ->
        set_keys SampleMgmt.context
          (Some "key of hunter2"%string) (Some "jwe of hunter2"%string)
        = SampleMgmt.context
        /\ [EvGenerateDefaultKeyPair (bytes_of_string "hunter2")] = []).
Proof.
  apply (createJWKDetails_keys SampleMgmt.context [] (details := SampleMgmt.details)).
  vm_compute. reflexivity.
Defined.

(** X12 at work: a password taken back by a later option. *)
Lemma empty_password_refused :
  CreateProvisioner SampleMgmt.db "JWK" "admins"
    (map option_of [OfPassword "hunter2"; OfPassword ""]) []
  = (inl (NewErrorISE "password is required to provisioner with new keys"), []).
Proof.
  apply (CreateProvisioner_requires_password (J := SampleMgmt.jose) SampleMgmt.db
           "JWK" "admins" [OfPassword "hunter2"; OfPassword ""] []);
    reflexivity.
Defined.

(** X13 at work: a provisioner of type OIDC gets JWK details. *)
Lemma oidc_stored_with_jwk_details :
  exists stored details gen,
    SampleMgmt.events = ([] ++ gen) ++ [EvDBCreateProvisioner stored]
    /\ (gen = [] \/ exists password, gen = [EvGenerateDefaultKeyPair password])
    /\ SampleMgmt.db (List.length ([] ++ gen)) stored = inr SampleMgmt.created
    /\ Provisioner.Type_ stored = "OIDC"
    /\ Provisioner.Name stored = "admins"
    /\ Provisioner.Status stored = StatusActive
    /\ Provisioner.ID stored = ""
    /\ Provisioner.AuthorityID stored = ""
    /\ Provisioner.Details stored = DetailsJWK (Some details)
    /\ ProvisionerDetailsJWK.Type_ details = ProvisionerTypeJWK.
Proof.
  apply (CreateProvisioner_stored (J := SampleMgmt.jose) SampleMgmt.db "OIDC" "admins"
           (map option_of SampleMgmt.withPassword) []).
  vm_compute. reflexivity.
Defined.

(** X17 at work: the provisioner made from a password converts to a JWK
    provisioner with the generated key. *)
Lemma created_provisioner_converts :
  exists stored before jwk jwe encrypted,
    SampleMgmt.events = before ++ [EvDBCreateProvisioner stored]
    /\ (@last_keys SampleMgmt.jose SampleMgmt.withPassword (None, None) = (Some jwk, Some jwe)
        \/ (@last_keys SampleMgmt.jose SampleMgmt.withPassword (None, None) = (None, None)
            /\ @jose_GenerateDefaultKeyPair SampleMgmt.jose 0
                 (bytes_of_string (@last_password SampleMgmt.jose SampleMgmt.withPassword ""))
               = inr (jwk, jwe)))
    /\ JSONWebEncryption_CompactSerialize jwe = inr encrypted
    /\ @Provisioner_ToCertificates SampleMgmt.jose SampleMgmt.package string
         Sample.NewDuration durKeys stored
       = match ToCertificates Sample.NewDuration durKeys
                 (@NewDefaultClaims SampleMgmt.package) with
         | inl err => Returns (inl (ClaimsError err))
         | inr claims =>
             Returns
               (inr {| JWK.Type_ := "OIDC";
                       JWK.Name := "admins";
                       JWK.Key := Some jwk;
                       JWK.EncryptedKey := encrypted;
                       JWK.Claims := Some claims;
                       JWK.Options :=
                         Some {| Options.X509 :=
                                   Some {| X509Options.Template := "";
                                           X509Options.TemplateData := [] |};
                                 Options.SSH :=
                                   Some {| SSHOptions.Template := "";
                                           SSHOptions.TemplateData := [] |} |} |})
         end.
Proof.
  apply (CreateProvisioner_converts (J := SampleMgmt.jose) Sample.NewDuration
           SampleMgmt.db "OIDC" "admins" SampleMgmt.withPassword []
           (p := SampleMgmt.created) durKeys).
  - intros jwk data E. injection E as <-.
    unfold json_Unmarshal_JSONWebKey, SampleMgmt.jose, bytes_of_string.
    rewrite string_of_list_byte_of_string. reflexivity.
  - vm_compute. reflexivity.
Defined.

(** * Package ca: the management client

    [MgmtClient] of the second part of [authority/mgmt/provisioner.go]:
    [NewMgmtClient], [retryOnError] and the six requests.  The HTTP client,
    the client options, the URL functions and the JSON readers are outside
    the file and are parameters; each call with an effect is answered
    according to the number of events before it. *)

Module ca.

(** [*http.Response], as far as the file reads it. *)
Record Response (Body : Type) : Type := {
  StatusCode : Z;
  ResponseBody : Body                    (* Body *)
}.

Class Http : Type := {
  Transport : Type;                      (* http.RoundTripper *)
  Body : Type;                           (* io.ReadCloser *)
  Request : Type;                        (* *http.Request *)
  ClientOption : Type;
  clientOptions : Type;
  Admin : Type;                          (* mgmt.Admin *)
  Provisioner : Type;                    (* mgmt.Provisioner *)
  CreateAdminRequest : Type;
  UpdateAdminRequest : Type;
  parseEndpoint : string -> Cause + URL;
  (** [o := new(clientOptions); o.apply(opts)]: the options applied, or the
      error. *)
  clientOptions_apply : nat -> list ClientOption -> Cause + clientOptions;
  (** [o.retryFunc]: nil or a [func(code int) bool]. *)
  clientOptions_retryFunc : clientOptions -> option (nat -> Z -> bool);
  clientOptions_getTransport : nat -> clientOptions -> string -> Cause + Transport;
  URL_ResolveReference : URL -> URL -> URL;
  URL_String : URL -> string;
  path_Join : string -> string -> string;
  json_Marshal_CreateAdminRequest : option CreateAdminRequest -> Cause + bytes;
  json_Marshal_UpdateAdminRequest : option UpdateAdminRequest -> Cause + bytes;
  http_NewRequest : string -> string -> option bytes -> Cause + Request;
  (** The requests of [uaClient], over the transport it has at the time. *)
  client_Get : nat -> Transport -> string -> Cause + Response Body;
  client_Post : nat -> Transport -> string -> string -> bytes -> Cause + Response Body;
  client_Do : nat -> Transport -> Request -> Cause + Response Body;
  readError : nat -> Body -> Cause;
  readJSON_Admin : nat -> Body -> Cause + Admin;
  readJSON_Admins : nat -> Body -> Cause + list Admin;
  readJSON_Provisioners : nat -> Body -> Cause + list Provisioner
}.

(** The errors the client returns. *)
Inductive ClientError : Type :=
| ErrOption (cause : Cause)                              (* the error as it came *)
| ErrClient (method : string) (u : URL) (cause : Cause)  (* "client %s %s failed" *)
| ErrCreateRequest (method : string) (u : URL) (cause : Cause)
                                                         (* "create %s %s request failed" *)
| ErrReading (u : URL) (cause : Cause)                   (* "error reading %s" *)
| ErrMarshaling (cause : Cause)                          (* "error marshaling request" *)
| ErrServer (err : Cause).                               (* readError(resp.Body) *)

Section Client.
Context {H : Http}.

Inductive Event : Type :=
| EvGet (tr : Transport) (url : string)
| EvPost (tr : Transport) (url contentType : string) (body : bytes)
| EvDo (tr : Transport) (req : Request)
| EvRetryFunc (code : Z)
| EvApply (opts : list ClientOption)
| EvGetTransport (endpoint : string)
| EvClose (body : Body)
| EvSetTransport (tr : Transport)
| EvReadError (body : Body)
| EvReadJSON (body : Body).

(** [MgmtClient].  Its field [client] points to a [uaClient] of its own,
    whose transport [SetTransport] replaces: that transport is in the state. *)
Record MgmtClient : Type := {
  endpoint : URL;
  retryFunc : option (nat -> Z -> bool);
  opts : list ClientOption
}.

Record State : Type := {
  transport : Transport;                 (* of c.client *)
  log : list Event
}.

Definition now (s : State) : nat := List.length (log s).

Definition record (e : Event) (s : State) : State :=
  {| transport := transport s; log := log s ++ [e] |}.

(** [c.client.SetTransport(tr)] *)
Definition SetTransport (tr : Transport) (s : State) : State :=
  {| transport := tr; log := log s ++ [EvSetTransport tr] |}.


(** [(c *MgmtClient) retryOnError(r)] *)
Definition retryOnError (c : MgmtClient) (r : Response Body) (s : State) : bool * State :=
  match retryFunc c with
  | Some f =>
      let s1 := record (EvRetryFunc (StatusCode r)) s in
      if f (now s) (StatusCode r) then
        let s2 := record (EvApply (opts c)) s1 in
        match clientOptions_apply (now s1) (opts c) with
        | inl _ => (false, s2)
        | inr o =>
            let s3 := record (EvGetTransport (URL_String (endpoint c))) s2 in
            match clientOptions_getTransport (now s2) o (URL_String (endpoint c)) with
            | inl _ => (false, s3)
            | inr tr => (true, SetTransport tr (record (EvClose (ResponseBody r)) s3))
            end
        end
      else (false, s1)
  | None => (false, s)
  end.

(** [readError(resp.Body)] as the error returned. *)
Definition serverError {A : Type} (resp : Response Body) (s : State)
  : (ClientError + A) * State :=
  (inl (ErrServer (readError (now s) (ResponseBody resp))),
   record (EvReadError (ResponseBody resp)) s).

(** What the six requests share, from the label [retry] on:

    [retry:
       resp, err := <send>
       if err != nil { return <failed err> }
       if resp.StatusCode >= 400 {
         if !retried && c.retryOnError(resp) { retried = true; goto retry }
         return readError(resp.Body)
       }
       <read resp>]

    [send] is the request, [sent] its event, [failed] the error for a
    request that fails, and [read] the end of the function. *)
Section Retry.
Variable A : Type.
Variable c : MgmtClient.
Variable send : nat -> Transport -> Cause + Response Body.
Variable sent : Transport -> Event.
Variable failed : Cause -> ClientError.
Variable read : Response Body -> State -> (ClientError + A) * State.

Equations retry (retried : bool) (s : State) : (ClientError + A) * State
  by wf (if retried then 0 else 1) lt :=
  retry retried s with inspect (send (now s) (transport s)) := {
    | exist _ (inl err) _ := (inl (failed err), record (sent (transport s)) s);
    | exist _ (inr resp) _ with inspect (400 <=? StatusCode resp)%Z := {
        | exist _ false _ := read resp (record (sent (transport s)) s);
        | exist _ true _ with retried := {
            | true := serverError resp (record (sent (transport s)) s);
            | false
                with inspect (retryOnError c resp (record (sent (transport s)) s)) := {
                | exist _ (true, s') _ := retry true s';
                | exist _ (false, s') _ := serverError resp s' } } } }.

End Retry.

(** [readJSON(resp.Body, v)] and the error [errors.Wrapf(err, "error reading %s", u)] *)
Definition reading {A : Type} (readJSON : nat -> Body -> Cause + A) (u : URL)
  (resp : Response Body) (s : State) : (ClientError + A) * State :=
  (match readJSON (now s) (ResponseBody resp) with
   | inl err => inl (ErrReading u err)
   | inr v => inr v
   end,
   record (EvReadJSON (ResponseBody resp)) s).

(** [&url.URL{Path: p}] *)
Definition path_only (p : string) : URL := {| Scheme := ""; Host := ""; Path := p |}.

(** [(c *MgmtClient) GetAdmin(id)] *)
Definition GetAdmin (c : MgmtClient) (id : string) (s : State)
  : (ClientError + Admin) * State :=
  let u := URL_ResolveReference (endpoint c) (path_only (path_Join "/mgmt/admin" id)) in
  retry c (fun n tr => client_Get n tr (URL_String u))
    (fun tr => EvGet tr (URL_String u))
    (ErrClient "GET" u)
    (reading readJSON_Admin u)
    false s.

(** [(c *MgmtClient) CreateAdmin(req)] *)
Definition CreateAdmin (c : MgmtClient) (req : option CreateAdminRequest) (s : State)
  : (ClientError + Admin) * State :=
  match json_Marshal_CreateAdminRequest req with
  | inl err => (inl (ErrMarshaling err), s)
  | inr body =>
      let u := URL_ResolveReference (endpoint c) (path_only "/mgmt/admin") in
      retry c (fun n tr => client_Post n tr (URL_String u) "application/json" body)
        (fun tr => EvPost tr (URL_String u) "application/json" body)
        (ErrClient "POST" u)
        (reading readJSON_Admin u)
        false s
  end.

(** [(c *MgmtClient) RemoveAdmin(id)]: [inr tt] for the nil error. *)
Definition RemoveAdmin (c : MgmtClient) (id : string) (s : State)
  : (ClientError + unit) * State :=
  let u := URL_ResolveReference (endpoint c) (path_only (path_Join "/mgmt/admin" id)) in
  match http_NewRequest "DELETE" (URL_String u) None with
  | inl err => (inl (ErrCreateRequest "DELETE" u err), s)
  | inr req =>
      retry c (fun n tr => client_Do n tr req)
        (fun tr => EvDo tr req)
        (ErrClient "DELETE" u)
        (fun _ s => (inr tt, s))
        false s
  end.

(** [(c *MgmtClient) UpdateAdmin(id, uar)] *)
Definition UpdateAdmin (c : MgmtClient) (id : string) (uar : option UpdateAdminRequest)
  (s : State) : (ClientError + Admin) * State :=
  match json_Marshal_UpdateAdminRequest uar with
  | inl err => (inl (ErrMarshaling err), s)
  | inr body =>
      let u := URL_ResolveReference (endpoint c) (path_only (path_Join "/mgmt/admin" id)) in
      match http_NewRequest "PUT" (URL_String u) (Some body) with
      | inl err => (inl (ErrCreateRequest "PUT" u err), s)
      | inr req =>
          retry c (fun n tr => client_Do n tr req)
            (fun tr => EvDo tr req)
            (ErrClient "PUT" u)
            (reading readJSON_Admin u)
            false s
      end
  end.

(** [(c *MgmtClient) GetAdmins()] *)
Definition GetAdmins (c : MgmtClient) (s : State) : (ClientError + list Admin) * State :=
  let u := URL_ResolveReference (endpoint c) (path_only "/mgmt/admins") in
  retry c (fun n tr => client_Get n tr (URL_String u))
    (fun tr => EvGet tr (URL_String u))
    (ErrClient "GET" u)
    (reading readJSON_Admins u)
    false s.

(** [(c *MgmtClient) GetProvisioners()] *)
Definition GetProvisioners (c : MgmtClient) (s : State)
  : (ClientError + list Provisioner) * State :=
  let u := URL_ResolveReference (endpoint c) (path_only "/mgmt/provisioners") in
  retry c (fun n tr => client_Get n tr (URL_String u))
    (fun tr => EvGet tr (URL_String u))
    (ErrClient "GET" u)
    (reading readJSON_Provisioners u)
    false s.

End Client.

(** ** The retry discipline *)

Section Exchange.
Context {H : Http}.

(** The transport a request went over. *)
Definition via (e : Event) : option Transport :=
  match e with
  | EvGet tr _ | EvPost tr _ _ _ | EvDo tr _ => Some tr
  | _ => None
  end.

(** The same request over another transport. *)
Definition over (tr : Transport) (e : Event) : Event :=
  match e with
  | EvGet _ url => EvGet tr url
  | EvPost _ url contentType body => EvPost tr url contentType body
  | EvDo _ req => EvDo tr req
  | _ => e
  end.

(** Events that are no request, close no body and leave the transport. *)
Definition quiet (e : Event) : bool :=
  match e with
  | EvGet _ _ | EvPost _ _ _ _ | EvDo _ _ | EvClose _ | EvSetTransport _ => false
  | _ => true
  end.

(** Nothing, or one reading of a body. *)
Definition one_read (evs : list Event) : Prop :=
  evs = [] \/ exists body, evs = [EvReadError body] \/ evs = [EvReadJSON body].

(** One request of the client, from the state [s] to the state [s']: the
    request [r] goes over the transport of [s]; then either nothing else is
    sent, no body is closed and the transport stays, or the retry function
    grants a retry for the status of the response, the options of the
    client are applied again, a transport is built for the endpoint, the
    body is closed, the transport is installed, the same request goes over
    it, and at most one body is read after that. *)
Definition exchange (c : MgmtClient) (s s' : State) : Prop :=
  exists r,
    via r = Some (transport s)
    /\ ((exists tail,
           log s' = log s ++ r :: tail
           /\ forallb quiet tail = true
           /\ transport s' = transport s)
        \/ (exists f resp o tr tail,
              retryFunc c = Some f
              /\ (400 <= StatusCode resp)%Z
              /\ f (now s + 1) (StatusCode resp) = true
              /\ clientOptions_apply (now s + 2) (opts c) = inr o
              /\ clientOptions_getTransport (now s + 3) o (URL_String (endpoint c)) = inr tr
              /\ log s' = log s
                          ++ [r; EvRetryFunc (StatusCode resp); EvApply (opts c);
                              EvGetTransport (URL_String (endpoint c));
                              EvClose (ResponseBody resp); EvSetTransport tr; over tr r]
                          ++ tail
              /\ one_read tail
              /\ transport s' = tr)).

(** The six requests as one. *)
Inductive Operation : Type :=
| OpGetAdmin (id : string)
| OpCreateAdmin (req : option CreateAdminRequest)
| OpRemoveAdmin (id : string)
| OpUpdateAdmin (id : string) (uar : option UpdateAdminRequest)
| OpGetAdmins
| OpGetProvisioners.

Inductive Reply : Type :=
| ReplyAdmin (adm : Admin)
| ReplyAdmins (admins : list Admin)
| ReplyProvisioners (provs : list Provisioner)
| ReplyNone.

Definition reply {A : Type} (f : A -> Reply) (r : (ClientError + A) * State)
  : (ClientError + Reply) * State :=
  (match fst r with
   | inl err => inl err
   | inr a => inr (f a)
   end,
   snd r).

Definition run (op : Operation) (c : MgmtClient) (s : State)
  : (ClientError + Reply) * State :=
  match op with
  | OpGetAdmin id => reply ReplyAdmin (GetAdmin c id s)
  | OpCreateAdmin req => reply ReplyAdmin (CreateAdmin c req s)
  | OpRemoveAdmin id => reply (fun _ => ReplyNone) (RemoveAdmin c id s)
  | OpUpdateAdmin id uar => reply ReplyAdmin (UpdateAdmin c id uar s)
  | OpGetAdmins => reply ReplyAdmins (GetAdmins c s)
  | OpGetProvisioners => reply ReplyProvisioners (GetProvisioners c s)
  end.

(** [ops], one after the other. *)
Fixpoint run_all (ops : list Operation) (c : MgmtClient) (s : State) : State :=
  match ops with
  | [] => s
  | op :: rest => run_all rest c (snd (run op c s))
  end.

(** Every request of [evs] goes over the transport installed last before
    it, [tr] at the start. *)
Fixpoint routed (tr : Transport) (evs : list Event) : Prop :=
  match evs with
  | [] => True
  | EvSetTransport tr' :: rest => routed tr' rest
  | e :: rest =>
      match via e with
      | Some used => used = tr
      | None => True
      end
      /\ routed tr rest
  end.

(** The transport installed at the end of [evs]. *)
Fixpoint installed (tr : Transport) (evs : list Event) : Transport :=
  match evs with
  | [] => tr
  | EvSetTransport tr' :: rest => installed tr' rest
  | _ :: rest => installed tr rest
  end.

Lemma now_record (e : Event) (s : State) : now (record e s) = now s + 1.
Proof. unfold now, record. simpl. rewrite length_app. reflexivity. Qed.

Lemma retryOnError_true (c : MgmtClient) (r : Response Body) (s s' : State) :
  retryOnError c r s = (true, s') ->
  exists f o tr,
    retryFunc c = Some f
    /\ f (now s) (StatusCode r) = true
    /\ clientOptions_apply (now s + 1) (opts c) = inr o
    /\ clientOptions_getTransport (now s + 2) o (URL_String (endpoint c)) = inr tr
    /\ transport s' = tr
    /\ log s' = log s ++ [EvRetryFunc (StatusCode r); EvApply (opts c);
                          EvGetTransport (URL_String (endpoint c));
                          EvClose (ResponseBody r); EvSetTransport tr].
Proof.
  unfold retryOnError.
  destruct (retryFunc c) as [f|]; [|discriminate].
  cbv zeta. rewrite !now_record.
  destruct (f (now s) (StatusCode r)) eqn:Hf; [|discriminate].
  destruct (clientOptions_apply (now s + 1) (opts c)) as [err|o] eqn:Ho; [discriminate|].
  replace (now s + 1 + 1) with (now s + 2) by lia.
  destruct (clientOptions_getTransport (now s + 2) o (URL_String (endpoint c)))
    as [err|tr] eqn:Htr; [discriminate|].
  intro E. injection E as <-.
  exists f, o, tr. repeat split; try assumption.
  simpl. rewrite <- !app_assoc. reflexivity.
Qed.

Lemma retryOnError_false (c : MgmtClient) (r : Response Body) (s s' : State) :
  retryOnError c r s = (false, s') ->
  transport s' = transport s
  /\ exists tail, log s' = log s ++ tail /\ forallb quiet tail = true.
Proof.
  unfold retryOnError.
  destruct (retryFunc c) as [f|].
  - cbv zeta.
    destruct (f (now s) (StatusCode r)).
    + destruct (clientOptions_apply _ (opts c)) as [err|o].
      * intro E. injection E as <-. split; [reflexivity|].
        exists [EvRetryFunc (StatusCode r); EvApply (opts c)].
        split; [simpl; rewrite <- app_assoc; reflexivity|reflexivity].
      * destruct (clientOptions_getTransport _ o _) as [err|tr]; [|discriminate].
        intro E. injection E as <-. split; [reflexivity|].
        exists [EvRetryFunc (StatusCode r); EvApply (opts c);
                EvGetTransport (URL_String (endpoint c))].
        split; [simpl; rewrite <- !app_assoc; reflexivity|reflexivity].
    + intro E. injection E as <-. split; [reflexivity|].
      exists [EvRetryFunc (StatusCode r)]. split; reflexivity.
  - intro E. injection E as <-. split; [reflexivity|].
    exists []. split; [rewrite app_nil_r; reflexivity|reflexivity].
Qed.

Section RetryProperties.
Variable A : Type.
Variable c : MgmtClient.
Variable send : nat -> Transport -> Cause + Response Body.
Variable sent : Transport -> Event.
Variable failed : Cause -> ClientError.
Variable read : Response Body -> State -> (ClientError + A) * State.

Hypothesis sent_via : forall tr, via (sent tr) = Some tr.
Hypothesis sent_over : forall tr tr', over tr' (sent tr) = sent tr'.
Hypothesis read_once : forall resp s,
  transport (snd (read resp s)) = transport s
  /\ exists tail, log (snd (read resp s)) = log s ++ tail /\ one_read tail.

Lemma retry_eq (retried : bool) (s : State) :
  retry c send sent failed read retried s
  = let s1 := record (sent (transport s)) s in
    match send (now s) (transport s) with
    | inl err => (inl (failed err), s1)
    | inr resp =>
        if (400 <=? StatusCode resp)%Z then
          if retried then serverError resp s1
          else
            match retryOnError c resp s1 with
            | (true, s') => retry c send sent failed read true s'
            | (false, s') => serverError resp s'
            end
        else read resp s1
    end.
Proof.
  cbv zeta. funelim (retry c send sent failed read retried s).
  - rewrite e. reflexivity.
  - rewrite e, e0. reflexivity.
  - rewrite e, e0. reflexivity.
  - rewrite e, e0, e1. reflexivity.
  - rewrite e, e0, e1. reflexivity.
Qed.

Lemma one_read_quiet (tail : list Event) : one_read tail -> forallb quiet tail = true.
Proof. intros [->|[body [->| ->]]]; reflexivity. Qed.

(** The pass after a retry: one request, and at most one reading. *)
Lemma retry_again (s : State) :
  transport (snd (retry c send sent failed read true s)) = transport s
  /\ exists tail,
       log (snd (retry c send sent failed read true s))
       = log s ++ sent (transport s) :: tail
       /\ one_read tail.
Proof.
  rewrite retry_eq. cbv zeta.
  destruct (send (now s) (transport s)) as [err|resp].
  - split; [reflexivity|]. exists []. split; [reflexivity|left; reflexivity].
  - destruct (400 <=? StatusCode resp)%Z.
    + split; [reflexivity|]. exists [EvReadError (ResponseBody resp)].
      split; [simpl; rewrite <- app_assoc; reflexivity|].
      right. exists (ResponseBody resp). left. reflexivity.
    + destruct (read_once resp (record (sent (transport s)) s)) as [Htr [tail [Hlog Hone]]].
      split; [rewrite Htr; reflexivity|].
      exists tail. split; [|exact Hone].
      rewrite Hlog. simpl. rewrite <- app_assoc. reflexivity.
Qed.

Lemma retry_exchange (s : State) :
  exchange c s (snd (retry c send sent failed read false s)).
Proof.
  exists (sent (transport s)). split; [apply sent_via|].
  rewrite retry_eq. cbv zeta.
  destruct (send (now s) (transport s)) as [err|resp].
  - left. exists []. repeat split; reflexivity.
  - destruct (400 <=? StatusCode resp)%Z eqn:Hcode.
    + destruct (retryOnError c resp (record (sent (transport s)) s)) as [[|] s'] eqn:Hretry.
      * right. apply retryOnError_true in Hretry.
        destruct Hretry as [f [o [tr [Hf [Hgrant [Ho [Htr [Hs' Hlog]]]]]]]].
        rewrite now_record in Hgrant, Ho, Htr.
        replace (now s + 1 + 1) with (now s + 2) in Ho by lia.
        replace (now s + 1 + 2) with (now s + 3) in Htr by lia.
        destruct (retry_again s') as [Htr' [tail [Hlog' Hone]]].
        exists f, resp, o, tr, tail.
        split; [exact Hf|]. split; [apply Z.leb_le; exact Hcode|].
        split; [exact Hgrant|]. split; [exact Ho|]. split; [exact Htr|].
        split; [|split; [exact Hone|rewrite Htr'; exact Hs']].
        rewrite Hlog', Hlog, Hs', sent_over. simpl.
        rewrite <- !app_assoc. reflexivity.
      * left. apply retryOnError_false in Hretry.
        destruct Hretry as [Htr [tail [Hlog Hquiet]]].
        exists (tail ++ [EvReadError (ResponseBody resp)]).
        split; [|split; [|exact Htr]].
        -- simpl. rewrite Hlog. simpl. rewrite <- !app_assoc. reflexivity.
        -- rewrite forallb_app, Hquiet. reflexivity.
    + left.
      destruct (read_once resp (record (sent (transport s)) s)) as [Htr [tail [Hlog Hone]]].
      exists tail. split; [|split; [apply one_read_quiet; exact Hone|exact Htr]].
      rewrite Hlog. simpl. rewrite <- app_assoc. reflexivity.
Qed.

End RetryProperties.

Lemma reading_once (A : Type) (readJSON : nat -> Body -> Cause + A) (u : URL)
  (resp : Response Body) (s : State) :
  transport (snd (reading readJSON u resp s)) = transport s
  /\ exists tail, log (snd (reading readJSON u resp s)) = log s ++ tail /\ one_read tail.
Proof.
  split; [reflexivity|]. exists [EvReadJSON (ResponseBody resp)].
  split; [reflexivity|]. right. exists (ResponseBody resp). right. reflexivity.
Qed.

Ltac exchange_of_retry :=
  right; apply retry_exchange;
  [ reflexivity
  | reflexivity
  | intros; first [ apply reading_once
                  | split; [reflexivity|];
                    exists []; split; [simpl; rewrite app_nil_r; reflexivity|left; reflexivity] ] ].

Lemma run_exchange (op : Operation) (c : MgmtClient) (s : State) :
  snd (run op c s) = s \/ exchange c s (snd (run op c s)).
Proof.
  destruct op as [id|req|id|id uar| |]; simpl.
  - unfold GetAdmin. exchange_of_retry.
  - unfold CreateAdmin.
    destruct (json_Marshal_CreateAdminRequest req) as [err|body]; [left; reflexivity|].
    exchange_of_retry.
  - unfold RemoveAdmin.
    destruct (http_NewRequest _ _ _) as [err|r]; [left; reflexivity|].
    exchange_of_retry.
  - unfold UpdateAdmin.
    destruct (json_Marshal_UpdateAdminRequest uar) as [err|body]; [left; reflexivity|].
    destruct (http_NewRequest _ _ _) as [err|r]; [left; reflexivity|].
    exchange_of_retry.
  - unfold GetAdmins. exchange_of_retry.
  - unfold GetProvisioners. exchange_of_retry.
Qed.

(** X18: each of the six requests of [MgmtClient] either sends nothing,
    because its body cannot be marshalled or its request cannot be made, and
    then returns that error and leaves the state as it was, or sends its
    request over the transport the client has; a second request is sent only
    after a response with status 400 or more for which the retry function
    of the client granted the retry and a new transport could be built from
    the options of the client, and it is the same request over that
    transport, sent after the body of the first response was closed and the
    transport installed; there is no third request. *)
Theorem request_exchange :
  forall (op : Operation) (c : MgmtClient) (s : State),
  (snd (run op c s) = s
   /\ exists cause,
        fst (run op c s) = inl (ErrMarshaling cause)
        \/ exists method u, fst (run op c s) = inl (ErrCreateRequest method u cause))
  \/ exchange c s (snd (run op c s)).
Proof.
  intros op c s.
  destruct op as [id|req|id|id uar| |]; simpl.
  - unfold GetAdmin. exchange_of_retry.
  - unfold CreateAdmin.
    destruct (json_Marshal_CreateAdminRequest req) as [err|body].
    + left. split; [reflexivity|]. exists err. left. reflexivity.
    + exchange_of_retry.
  - unfold RemoveAdmin.
    destruct (http_NewRequest _ _ _) as [err|r].
    + left. split; [reflexivity|]. exists err. right. eexists. eexists. reflexivity.
    + exchange_of_retry.
  - unfold UpdateAdmin.
    destruct (json_Marshal_UpdateAdminRequest uar) as [err|body].
    + left. split; [reflexivity|]. exists err. left. reflexivity.
    + destruct (http_NewRequest _ _ _) as [err|r].
      * left. split; [reflexivity|]. exists err. right. eexists. eexists. reflexivity.
      * exchange_of_retry.
  - unfold GetAdmins. exchange_of_retry.
  - unfold GetProvisioners. exchange_of_retry.
Qed.

(** *** Sequences of requests *)

Definition is_request (e : Event) : bool :=
  match via e with
  | Some _ => true
  | None => false
  end.

Lemma routed_app (tr : Transport) (a b : list Event) :
  routed tr (a ++ b) <-> routed tr a /\ routed (installed tr a) b.
Proof.
  revert tr. induction a as [|e a IH]; intro tr.
  - simpl. tauto.
  - destruct e; simpl; rewrite ?IH; tauto.
Qed.

Lemma installed_app (tr : Transport) (a b : list Event) :
  installed tr (a ++ b) = installed (installed tr a) b.
Proof.
  revert tr. induction a as [|e a IH]; intro tr; [reflexivity|].
  destruct e; simpl; apply IH.
Qed.

Lemma quiet_routed (tr : Transport) (evs : list Event) :
  forallb quiet evs = true ->
  routed tr evs /\ installed tr evs = tr /\ filter is_request evs = [].
Proof.
  induction evs as [|e evs IH]; [repeat split|].
  simpl. intro Hq. apply andb_prop in Hq. destruct Hq as [He Hq].
  destruct (IH Hq) as [Hr [Hi Hf]].
  destruct e; try discriminate He; simpl; repeat split; assumption.
Qed.

Lemma exchange_routed (c : MgmtClient) (s s' : State) :
  exchange c s s' ->
  exists evs,
    log s' = log s ++ evs
    /\ routed (transport s) evs
    /\ transport s' = installed (transport s) evs
    /\ List.length (filter is_request evs) <= 2.
Proof.
  intros [r [Hvia [[tail [Hlog [Hquiet Htr]]]|Hretry]]].
  - destruct (quiet_routed (transport s) _ Hquiet) as [Hr [Hi Hf]].
    exists (r :: tail). split; [exact Hlog|].
    destruct r; try discriminate Hvia; simpl in Hvia; injection Hvia as ->;
      simpl; unfold is_request; simpl; fold is_request; rewrite Hf, Hi;
      repeat split; try assumption; try reflexivity; simpl; lia.
  - destruct Hretry as [f [resp [o [tr [tail [_ [_ [_ [_ [_ [Hlog [Hone Htr]]]]]]]]]]]].
    assert (Hquiet : forallb quiet tail = true).
    { destruct Hone as [->|[body [->| ->]]]; reflexivity. }
    destruct (quiet_routed tr _ Hquiet) as [Hr [Hi Hf]].
    eexists. split; [exact Hlog|].
    destruct r; try discriminate Hvia; simpl in Hvia; injection Hvia as ->;
      simpl; unfold is_request; simpl; fold is_request; rewrite Hf, Hi;
      repeat split; try assumption; try reflexivity; simpl; lia.
Qed.

(** X19: over any sequence of requests of one client, every request goes
    over the transport installed last before it (the one the client started
    with, when none was installed), the client ends with the transport
    installed last, and the requests sent are at most twice as many as the
    calls. *)
Theorem requests_routed :
  forall (ops : list Operation) (c : MgmtClient) (s : State),
  exists evs,
    log (run_all ops c s) = log s ++ evs
    /\ routed (transport s) evs
    /\ transport (run_all ops c s) = installed (transport s) evs
    /\ List.length (filter is_request evs) <= 2 * List.length ops.
Proof.
  induction ops as [|op ops IH]; intros c s.
  - exists []. simpl. rewrite app_nil_r. repeat split; lia.
  - simpl run_all.
    destruct (IH c (snd (run op c s))) as [rest [Hlog [Hrouted [Htr Hcount]]]].
    destruct (run_exchange op c s) as [Hsame|Hex].
    + rewrite Hsame in *. exists rest.
      split; [exact Hlog|]. split; [exact Hrouted|]. split; [exact Htr|].
      simpl List.length. lia.
    + apply exchange_routed in Hex.
      destruct Hex as [evs [Hlog1 [Hrouted1 [Htr1 Hcount1]]]].
      exists (evs ++ rest).
      split; [rewrite Hlog, Hlog1, app_assoc; reflexivity|].
      split; [apply routed_app; split; [exact Hrouted1|rewrite <- Htr1; exact Hrouted]|].
      split; [rewrite installed_app, <- Htr1; exact Htr|].
      rewrite filter_app, length_app. simpl List.length. lia.
Qed.

(** *** [NewMgmtClient] *)





End Exchange.

(** *** A sample server

    The transport is named after the moment it was built; the server answers
    401 over the first transport and 200 over every later one. *)
Module SampleHttp.

Definition http : Http :=
  {| Transport := nat;
     Body := string;
     Request := string * string * option bytes;
     ClientOption := bool;
     clientOptions := bool;
     Admin := string;
     Provisioner := string;
     CreateAdminRequest := string;
     UpdateAdminRequest := string;
     parseEndpoint := fun address =>
       if (address =? "")%string then inl "empty endpoint"%string
       else inr {| Scheme := "https"; Host := address; Path := "" |};
     clientOptions_apply := fun _ options => inr (existsb (fun o => o) options);
     clientOptions_retryFunc := fun o =>
       if o then Some (fun _ code => (code =? 401)%Z) else None;
     clientOptions_getTransport := fun n _ _ => inr n;
     URL_ResolveReference := fun u ref =>
       {| Scheme := Scheme u; Host := Host u; Path := Path ref |};
     URL_String := fun u => (Scheme u ++ "://" ++ Host u ++ Path u)%string;
     path_Join := fun a b => (a ++ "/" ++ b)%string;
     json_Marshal_CreateAdminRequest := fun req =>
       match req with
       | Some r => inr (bytes_of_string r)
       | None => inr (bytes_of_string "null")
       end;
     json_Marshal_UpdateAdminRequest := fun req =>
       match req with
       | Some r => inr (bytes_of_string r)
       | None => inr (bytes_of_string "null")
       end;
     http_NewRequest := fun method url body => inr (method, url, body);
     client_Get := fun _ tr _ =>
       if Nat.eqb tr 1 then inr {| StatusCode := 401; ResponseBody := "unauthorized" |}
       else inr {| StatusCode := 200; ResponseBody := "admin" |};
     client_Post := fun _ tr _ _ _ =>
       if Nat.eqb tr 1 then inr {| StatusCode := 401; ResponseBody := "unauthorized" |}
       else inr {| StatusCode := 201; ResponseBody := "admin" |};
     client_Do := fun _ tr _ =>
       if Nat.eqb tr 1 then inr {| StatusCode := 401; ResponseBody := "unauthorized" |}
       else inr {| StatusCode := 200; ResponseBody := "done" |};
     readError := fun _ body => body;
     readJSON_Admin := fun _ body => inr body;
     readJSON_Admins := fun _ body => inr [body];
     readJSON_Provisioners := fun _ body => inr [body] |}.

#[local] Existing Instance http.

Definition plain : list ClientOption := [false : @ClientOption http].

Definition client : MgmtClient :=
  @Build_MgmtClient http
    {| Scheme := "https"; Host := "ca.example.com"; Path := "" |} None plain.


End SampleHttp.

#[local] Existing Instance SampleHttp.http.


End ca.
